(** * Hearthcode, [Baseline/data/transition.py]: the [TransitionLoader]

    A shallow embedding of the transition-collation and state-normalisation
    logic of [TransitionLoader], and the properties claimed of it.

    Modelling conventions.
    - JSON data loaded by [json.load] is a value of type [json]; a Python
      [dict] is an association list in insertion order (keys of a real
      dictionary are pairwise distinct).  Floating point numbers are not
      part of [json]; the only number the code computes with, the reward,
      is an exact rational ([Q]), so rounding is abstracted away.
    - A trajectory and an entity are records of the fields the code reads
      or writes; a field of an entity that may be absent is an [option].
    - A Python exception is a value [Err e] of the error monad [res].
    - [preprocess_state] is modelled twice: on values ([preprocess_state]),
      and on a store of entity objects ([preprocess_state_st]), where its
      loop updates objects in place; [preprocess_state_st_value] relates
      the two.
    - The modules [definition.GAME_TAG], [definition.TAG_ZONE] and
      [definition.OPTION_TYPE] are not part of the sources at hand: their
      constants are the fields of the record [definitions], over which the
      whole development is parametric.
    - The tokenizer and [json.dumps] belong to libraries: the loops of
      [check_data] and [tokenize_data] take them as parameters, a
      tokenizer being a function from a text to the encoding the loops
      read.  Tensors, the [DataLoader] and file input are outside the
      model: a folder is the list of the trajectories its files hold. *)

From Stdlib Require Import ZArith QArith Qpower List String Ascii Bool Lia DecimalString DecimalZ.
From Stdlib Require Import Sorted.
From stdpp Require Import base list.
Import ListNotations.

#[local] Open Scope Z_scope.
#[local] Open Scope string_scope.
#[local] Open Scope list_scope.

(** ** Python values and exceptions *)

#[local] Set Warnings "-register-all".

Inductive json : Type :=
| JNull
| JBool (b : bool)
| JInt (z : Z)
| JStr (s : string)
| JList (l : list json)
| JDict (d : list (string * json)).

(** A dictionary with string keys, as [json.load] builds them. *)
Definition dict : Type := list (string * json).

(** The exceptions of the interpreter; [DanglingRef] has no counterpart in
    Python: it is the outcome of reading a reference outside the store. *)
Inductive exn : Type := KeyError | TypeError | ValueError | DanglingRef.

Inductive res (A : Type) : Type :=
| Ok (a : A)
| Err (e : exn).
Arguments Ok {A} a.
Arguments Err {A} e.

Definition bind {A B : Type} (m : res A) (k : A -> res B) : res B :=
  match m with
  | Ok a => k a
  | Err e => Err e
  end.

Declare Scope res_scope.
Delimit Scope res_scope with res.
Notation "x <- m ;; k" := (bind m (fun x => k))
  (at level 100, m at next level, right associativity) : res_scope.
#[local] Open Scope res_scope.

(** [for x in l: acc = f(acc, x)], stopping at the first exception. *)
Fixpoint foldM {A B : Type} (f : A -> B -> res A) (l : list B) (acc : A) : res A :=
  match l with
  | [] => Ok acc
  | x :: l' => acc' <- f acc x ;; foldM f l' acc'
  end.

(** [[f(x) for x in l]], stopping at the first exception. *)
Fixpoint mapM {A B : Type} (f : A -> res B) (l : list A) : res (list B) :=
  match l with
  | [] => Ok []
  | x :: l' => y <- f x ;; ys <- mapM f l' ;; Ok (y :: ys)
  end.

(** [[x for x in l if not removed(x)]], stopping at the first exception. *)
Fixpoint filterM {A : Type} (removed : A -> res bool) (l : list A) : res (list A) :=
  match l with
  | [] => Ok []
  | x :: l' =>
      b <- removed x ;;
      xs <- filterM removed l' ;;
      Ok (if b then xs else x :: xs)
  end.

(** ** Builtins *)

(** *** Dictionaries *)

(** [d[k]] as an [option]: the first binding of [k]. *)
Fixpoint dict_get (d : dict) (k : string) : option json :=
  match d with
  | [] => None
  | (k', v) :: d' => if String.eqb k' k then Some v else dict_get d' k
  end.

(** [k in d] *)
Definition dict_mem (d : dict) (k : string) : bool :=
  match dict_get d k with Some _ => true | None => false end.

(** [d[k] = v]: an existing key keeps its place, a new one goes last. *)
Fixpoint dict_set (d : dict) (k : string) (v : json) : dict :=
  match d with
  | [] => [(k, v)]
  | (k', v') :: d' =>
      if String.eqb k' k then (k', v) :: d' else (k', v') :: dict_set d' k v
  end.

(** [d.pop(k, None)] *)
Definition dict_pop (d : dict) (k : string) : dict :=
  List.filter (fun kv => negb (String.eqb (fst kv) k)) d.

(** [list(d)] *)
Definition dict_keys (d : dict) : list string := map fst d.

(** [d[k]], raising [KeyError] *)
Definition subscript (d : dict) (k : string) : res json :=
  match dict_get d k with
  | Some v => Ok v
  | None => Err KeyError
  end.

(** *** [len] *)

Definition py_len (v : json) : res nat :=
  match v with
  | JStr s => Ok (String.length s)
  | JList l => Ok (List.length l)
  | JDict d => Ok (List.length d)
  | JNull | JBool _ | JInt _ => Err TypeError
  end.

(** *** [str] and [int] on integers and strings

    [str(z)] is the decimal numeral of [z].  [int(s)] accepts what Python
    accepts of an ASCII string: surrounding whitespace, an optional sign,
    and decimal digits with single underscores between them. *)

Definition py_str (z : Z) : string := NilZero.string_of_int (Z.to_int z).

Definition is_space (c : ascii) : bool :=
  let n := nat_of_ascii c in
  (Nat.eqb n 32 || (Nat.leb 9 n && Nat.leb n 13) || (Nat.leb 28 n && Nat.leb n 31))%bool.

Definition is_digit (c : ascii) : bool :=
  let n := nat_of_ascii c in (Nat.leb 48 n && Nat.leb n 57)%bool.

Fixpoint lstrip (s : string) : string :=
  match s with
  | EmptyString => EmptyString
  | String c s' => if is_space c then lstrip s' else s
  end.

Fixpoint rstrip (s : string) : string :=
  match s with
  | EmptyString => EmptyString
  | String c s' =>
      match rstrip s' with
      | EmptyString => if is_space c then EmptyString else String c EmptyString
      | r => String c r
      end
  end.

(** The digits of a numeral, most significant first; [prev] tells whether
    the previous character was a digit (an underscore needs one on each
    side). *)
Fixpoint uint_of_digits (s : string) (prev : bool) : option Decimal.uint :=
  match s with
  | EmptyString => if prev then Some Decimal.Nil else None
  | String c s' =>
      if is_digit c then uint_of_char c (uint_of_digits s' true)
      else if (Ascii.eqb c "_" && prev)%bool then
        match s' with
        | EmptyString => None
        | String c' _ => if is_digit c' then uint_of_digits s' false else None
        end
      else None
  end.

Definition int_of_str (s : string) : option Z :=
  match rstrip (lstrip s) with
  | EmptyString => None
  | String c s' =>
      if Ascii.eqb c "-" then
        option_map (fun u => Z.of_int (Decimal.Neg u)) (uint_of_digits s' false)
      else if Ascii.eqb c "+" then
        option_map (fun u => Z.of_int (Decimal.Pos u)) (uint_of_digits s' false)
      else
        option_map (fun u => Z.of_int (Decimal.Pos u)) (uint_of_digits (String c s') false)
  end.

(** [int(v)] *)
Definition py_int (v : json) : res Z :=
  match v with
  | JInt z => Ok z
  | JBool b => Ok (Z.b2z b)
  | JStr s => match int_of_str s with Some z => Ok z | None => Err ValueError end
  | JNull | JList _ | JDict _ => Err TypeError
  end.

(** *** [==] and hashing

    Integers and booleans compare by value ([True == 1]); lists compare
    item by item; two dictionaries are equal when they have as many keys and
    every binding of the first has an equal binding in the second. *)

Fixpoint forallb2 {A B : Type} (f : A -> B -> bool) (l : list A) (m : list B) : bool :=
  match l, m with
  | [], [] => true
  | x :: l', y :: m' => f x y && forallb2 f l' m'
  | _, _ => false
  end.

Fixpoint py_eq (a b : json) {struct a} : bool :=
  match a, b with
  | JNull, JNull => true
  | JBool x, JBool y => Bool.eqb x y
  | JBool x, JInt y => Z.eqb (Z.b2z x) y
  | JInt x, JBool y => Z.eqb x (Z.b2z y)
  | JInt x, JInt y => Z.eqb x y
  | JStr x, JStr y => String.eqb x y
  | JList l, JList m => forallb2 py_eq l m
  | JDict d, JDict e =>
      Nat.eqb (List.length d) (List.length e) &&
      forallb (fun kv =>
                 existsb (fun kw => String.eqb (fst kv) (fst kw) && py_eq (snd kv) (snd kw)) e)
              d
  | _, _ => false
  end.

(** Lists and dictionaries cannot be keys of a dictionary. *)
Definition hashable (v : json) : bool :=
  match v with
  | JList _ | JDict _ => false
  | _ => true
  end.

(** [v is None] *)
Definition is_None (v : json) : bool :=
  match v with JNull => true | _ => false end.

(** [a or b], on conditions that may raise *)
Definition py_or (a b : res bool) : res bool :=
  x <- a ;; if x then Ok true else b.

(** [a and b] *)
Definition py_and (a b : res bool) : res bool :=
  x <- a ;; if x then b else Ok false.

(** [z in l] for a list of integers *)
Definition py_in (z : Z) (l : list Z) : bool := existsb (Z.eqb z) l.

(** [copy.deepcopy]: a copy has the value of the original. *)
Definition deepcopy {A : Type} (x : A) : A := x.

(** ** The constants of the [definition] package *)

Record definitions : Type := {
  GAME_TAG_ENTITY_ID : Z;
  GAME_TAG_HEALTH : Z;
  GAME_TAG_ATK : Z;
  GAME_TAG_COST : Z;
  GAME_TAG_ARMOR : Z;
  GAME_TAG_ZONE : Z;
  GAME_TAG_CONTROLLER : Z;
  GAME_TAG_CLASS : Z;
  GAME_TAG_CARDRACE : Z;
  GAME_TAG_CARDTYPE : Z;
  GAME_TAG_SECRET : Z;
  GAME_TAG_ZONE_POSITION : Z;
  TAG_ZONE_SECRET : Z;
  TAG_ZONE_HAND : Z;
  TAG_ZONE_PLAY : Z;
  OPTION_TYPE_END_TURN : Z;
  (** [OPERABLE_GAME_TAG.TAG_READY] *)
  TAG_READY : Z;
  (** [str(OPERABLE_GAME_TAG()[t])]; [None] when the lookup raises *)
  tag_map : Z -> option string
}.

(** ** Game data *)

(** An entity of a state: the fields the loader reads or writes, each
    [None] when the key is absent, and the remaining fields. *)
Record entity : Type := Entity {
  card_id : option json;
  card_name : option json;
  card_description : option json;
  tags : option dict;
  named_tags : option dict;
  other_fields : dict
}.

Definition game_state : Type := list entity.
Definition game_action : Type := dict.
(** The options of a state: a list of option items. *)
Definition options : Type := list dict.

Record sequence : Type := {
  seq_state : list game_state;
  seq_action : list game_action;
  seq_option : list options
}.

(** A trajectory file: [data["metadata"]["result"]] and [data["sequence"]]. *)
Record trajectory : Type := {
  metadata_result : Q;
  data_sequence : sequence
}.

(** [(state, action, next_state, reward, option, next_option)] *)
Definition transition : Type :=
  (game_state * game_action * game_state * Q * options * options)%type.

(** [l[:-1]] and [l[1:]] *)
Definition but_last {A : Type} (l : list A) : list A := removelast l.
Definition from_1 {A : Type} (l : list A) : list A := tl l.

(** [zip] of five lists: as long as the shortest. *)
Fixpoint zip5 {A B C D E : Type}
    (a : list A) (b : list B) (c : list C) (d : list D) (e : list E)
  : list (A * B * C * D * E) :=
  match a, b, c, d, e with
  | x :: a', y :: b', z :: c', u :: d', v :: e' =>
      (x, y, z, u, v) :: zip5 a' b' c' d' e'
  | _, _, _, _, _ => []
  end.

(** ** Statements on one entity

    The body of a loop over entities reads and updates the dictionary
    [entity] in place: a computation of type [E A] takes the entity's value,
    and returns an outcome and the entity's new value (which an exception
    leaves as it was when it was raised). *)

Definition E (A : Type) : Type := entity -> res A * entity.

Definition e_ret {A : Type} (a : A) : E A := fun e => (Ok a, e).

Definition e_bind {A B : Type} (m : E A) (k : A -> E B) : E B :=
  fun e =>
    match m e with
    | (Ok a, e') => k a e'
    | (Err x, e') => (Err x, e')
    end.

(** A computation that leaves the entity alone. *)
Definition e_lift {A : Type} (r : res A) : E A := fun e => (r, e).

Declare Scope ent_scope.
Delimit Scope ent_scope with ent.
Notation "x <- m ;; k" := (e_bind m (fun x => k))
  (at level 100, m at next level, right associativity) : ent_scope.
Notation "m ;;; k" := (e_bind m (fun _ => k))
  (at level 100, right associativity) : ent_scope.

(** [for x in l: body(x)] *)
Fixpoint e_for {A : Type} (l : list A) (body : A -> E unit) : E unit :=
  match l with
  | [] => e_ret tt
  | x :: l' => e_bind (body x) (fun _ => e_for l' body)
  end.

(** The value of the entity after [m], when [m] raises nothing. *)
Definition exec (m : E unit) (e : entity) : res entity :=
  match m e with
  | (Ok _, e') => Ok e'
  | (Err x, _) => Err x
  end.

(** [entity.pop("card_id", None)] and its like *)
Definition pop_card_id : E unit := fun e =>
  (Ok tt, Entity None (card_name e) (card_description e) (tags e) (named_tags e) (other_fields e)).

Definition pop_card_name : E unit := fun e =>
  (Ok tt, Entity (card_id e) None (card_description e) (tags e) (named_tags e) (other_fields e)).

Definition pop_tags : E unit := fun e =>
  (Ok tt, Entity (card_id e) (card_name e) (card_description e) None (named_tags e)
                 (other_fields e)).

(** [entity["tags"]] and [entity["named_tags"]] *)
Definition get_tags : E dict := fun e =>
  (match tags e with Some t => Ok t | None => Err KeyError end, e).

Definition get_named_tags : E dict := fun e =>
  (match named_tags e with Some t => Ok t | None => Err KeyError end, e).

(** The dictionary [entity["tags"]] is an object of its own, updated in
    place: the entity sees its new value. *)
Definition update_tags (t : dict) : E unit := fun e =>
  (Ok tt, Entity (card_id e) (card_name e) (card_description e) (Some t) (named_tags e)
                 (other_fields e)).

Definition update_named_tags (t : dict) : E unit := fun e =>
  (Ok tt, Entity (card_id e) (card_name e) (card_description e) (tags e) (Some t) (other_fields e)).

(** [entity["tags"].pop(tag, None)] *)
Definition tags_pop (tag : string) : E unit :=
  (t <- get_tags ;; update_tags (dict_pop t tag))%ent.

(** [entity["tags"][tag]] *)
Definition tags_subscript (tag : string) : E json :=
  (t <- get_tags ;; e_lift (subscript t tag))%ent.

(** [entity["tags"][tag] = v] *)
Definition tags_setitem (tag : string) (v : json) : E unit :=
  (t <- get_tags ;; update_tags (dict_set t tag v))%ent.

(** [entity["named_tags"][name] = v] *)
Definition named_tags_setitem (name : string) (v : json) : E unit :=
  (t <- get_named_tags ;; update_named_tags (dict_set t name v))%ent.

(** [entity[field]] for a field that may be absent *)
Definition field (f : option json) : res json :=
  match f with Some v => Ok v | None => Err KeyError end.

Definition field_tags (e : entity) : res dict :=
  match tags e with Some t => Ok t | None => Err KeyError end.

(** ** The store

    The entities of a state are objects: a state is a list of references
    into a store of entities, and a statement on an entity updates the store
    at its reference.  (What an entity holds, its tag dictionaries included,
    belongs to that entity alone, as in data that [json.load] or
    [copy.deepcopy] built.) *)

Abbreviation loc := nat (only parsing).
Abbreviation store := (list entity) (only parsing).

Definition St (A : Type) : Type := store -> res A * store.

Definition st_ret {A : Type} (a : A) : St A := fun h => (Ok a, h).

Definition st_bind {A B : Type} (m : St A) (k : A -> St B) : St B :=
  fun h =>
    match m h with
    | (Ok a, h') => k a h'
    | (Err x, h') => (Err x, h')
    end.

Definition st_lift {A : Type} (r : res A) : St A := fun h => (r, h).

Declare Scope st_scope.
Delimit Scope st_scope with st.
Notation "x <- m ;; k" := (st_bind m (fun x => k))
  (at level 100, m at next level, right associativity) : st_scope.
Notation "m ;;; k" := (st_bind m (fun _ => k))
  (at level 100, right associativity) : st_scope.

(** The entity a reference points to. *)
Definition st_read (l : loc) : St entity := fun h =>
  match h !! l with
  | Some e => (Ok e, h)
  | None => (Err DanglingRef, h)
  end.

(** [copy.deepcopy(entity)]: a new object with the value of [e]. *)
Definition st_deepcopy (e : entity) : St loc := fun h =>
  (Ok (List.length h), h ++ [e]).

(** A statement on the entity at [l]. *)
Definition st_at {A : Type} (l : loc) (m : E A) : St A := fun h =>
  match h !! l with
  | Some e => let '(r, e') := m e in (r, <[l := e']> h)
  | None => (Err DanglingRef, h)
  end.

Fixpoint st_for {A : Type} (l : list A) (body : A -> St unit) : St unit :=
  match l with
  | [] => st_ret tt
  | x :: l' => st_bind (body x) (fun _ => st_for l' body)
  end.

(** ** Dictionaries keyed by entity id

    [calculate_difference] keys two dictionaries by the value of the
    [ENTITY_ID] tag: keys are compared with [==]. *)

Definition id_dict : Type := list (json * dict).

Fixpoint id_get (d : id_dict) (k : json) : option dict :=
  match d with
  | [] => None
  | (k', v) :: d' => if py_eq k' k then Some v else id_get d' k
  end.

Fixpoint id_set (d : id_dict) (k : json) (v : dict) : id_dict :=
  match d with
  | [] => [(k, v)]
  | (k', v') :: d' =>
      if py_eq k' k then (k', v) :: d' else (k', v') :: id_set d' k v
  end.

Definition id_keys (d : id_dict) : list json := map fst d.

Definition id_subscript (d : id_dict) (k : json) : res dict :=
  match id_get d k with Some v => Ok v | None => Err KeyError end.

(** ** Strings *)

Definition char_eqb (a b : ascii) : bool := Ascii.eqb a b.

(** [s.replace(old, new)], left to right on occurrences that do not
    overlap; [skip] counts the characters of an occurrence still to drop.
    (For the empty [old], Python puts [new] around every character.) *)
Fixpoint replace_from (old new s : string) (skip : nat) : string :=
  match s with
  | EmptyString => EmptyString
  | String c s' =>
      match skip with
      | S k => replace_from old new s' k
      | O =>
          if String.prefix old s
          then new ++ replace_from old new s' (String.length old - 1)
          else String c (replace_from old new s' 0)
      end
  end.

Fixpoint interleave (new s : string) : string :=
  match s with
  | EmptyString => new
  | String c s' => new ++ String c (interleave new s')
  end.

Definition replace (old new s : string) : string :=
  match old with
  | EmptyString => interleave new s
  | _ => replace_from old new s 0
  end.

(** A text between double quotes. *)
Definition quoted (s : string) : string :=
  String (ascii_of_nat 34) (s ++ String (ascii_of_nat 34) EmptyString).

Definition newline : ascii := ascii_of_nat 10.
Definition double_quote : ascii := ascii_of_nat 34.
Definition single_quote : ascii := ascii_of_nat 39.
Definition backslash : ascii := ascii_of_nat 92.

(** Where a match of [.*?>] ends: the offset of the first [>], with no
    newline before it. *)
Fixpoint find_close (s : string) : option nat :=
  match s with
  | EmptyString => None
  | String c s' =>
      if char_eqb c ">" then Some O
      else if char_eqb c newline then None
      else option_map S (find_close s')
  end.

(** [re.sub(r"<.*?>", "", s)] *)
Fixpoint re_sub_tags_from (s : string) (skip : nat) : string :=
  match s with
  | EmptyString => EmptyString
  | String c s' =>
      match skip with
      | S k => re_sub_tags_from s' k
      | O =>
          if char_eqb c "<" then
            match find_close s' with
            | Some n => re_sub_tags_from s' (S n)
            | None => String c (re_sub_tags_from s' 0)
            end
          else String c (re_sub_tags_from s' 0)
      end
  end.

Definition re_sub_tags (s : string) : string := re_sub_tags_from s 0.

Definition is_upper (c : ascii) : bool :=
  let n := nat_of_ascii c in (Nat.leb 65 n && Nat.leb n 90)%bool.

Definition lower_char (c : ascii) : ascii :=
  if is_upper c then ascii_of_nat (nat_of_ascii c + 32) else c.

(** [s.lower()], on ASCII text *)
Fixpoint lower (s : string) : string :=
  match s with
  | EmptyString => EmptyString
  | String c s' => String (lower_char c) (lower s')
  end.

Fixpoint chars (s : string) : list ascii :=
  match s with
  | EmptyString => []
  | String c s' => c :: chars s'
  end.

(** *** [preprocess_input]

    [json.dumps] belongs to the standard library: [preprocess_input] is
    modelled on the text [json.dumps(item, separators=(',', ':'))]
    returns, whatever it is. *)

Definition removals : list string :=
  [String double_quote EmptyString; "{"; "}"; "["; "]"; String single_quote EmptyString].

Definition keywords : list string :=
  ["entity"; "type"; "sub_options"; "sub_option"; "position"; "targets";
   "target"; "card_id"; "card_name"; "card_description"; "named_tags"; "tags"].

Definition preprocess_input {A : Type} (json_dumps : A -> string) (item : A) : string :=
  let ret := json_dumps item in
  let ret := fold_left (fun ret removal => replace removal "" ret) removals ret in
  let ret := fold_left (fun ret keyword => replace (keyword ++ ":") "" ret) keywords ret in
  let ret :=
    replace (String backslash "n") " " (replace "," " " (replace ":" " " ret)) in
  let ret := re_sub_tags ret in
  lower ret.

Section TransitionLoader.

Variable defs : definitions.

(** [TransitionLoader.zone] and [TransitionLoader.scope] *)
Definition zone : list Z :=
  [TAG_ZONE_SECRET defs; TAG_ZONE_HAND defs; TAG_ZONE_PLAY defs].

Definition scope : list Z :=
  [GAME_TAG_ENTITY_ID defs; GAME_TAG_HEALTH defs; GAME_TAG_ATK defs;
   GAME_TAG_COST defs; GAME_TAG_ARMOR defs; GAME_TAG_ZONE defs;
   GAME_TAG_CONTROLLER defs; GAME_TAG_CLASS defs; GAME_TAG_CARDRACE defs;
   GAME_TAG_CARDTYPE defs; GAME_TAG_SECRET defs; GAME_TAG_ZONE_POSITION defs].

(** *** [collate_sequence_data] *)

(** [int(action["type"])] *)
Definition action_type (a : game_action) : res Z :=
  v <- subscript a "type" ;; py_int v.

(** One turn of the loop, on the pair [(sequence_data, decay_factor)]. *)
Definition collate_step (result : Q) (acc : list transition * Q)
    (row : game_state * game_action * game_state * options * options)
  : res (list transition * Q) :=
  let '(sequence_data, decay_factor) := acc in
  let '(state, action, next_state, option, next_option) := row in
  let reward := (result * decay_factor)%Q in
  let decay_factor := (decay_factor * decay_factor)%Q in
  ty <- action_type action ;;
  if Z.eqb ty (OPTION_TYPE_END_TURN defs) then Ok (sequence_data, decay_factor)
  else
    let collated_data :=
      (state, action, deepcopy next_state, reward, option, next_option) in
    Ok (sequence_data ++ [collated_data], decay_factor).

(** The rows the loop runs over. *)
Definition collate_rows (data : trajectory)
  : list (game_state * game_action * game_state * options * options) :=
  let s := data_sequence data in
  zip5 (but_last (seq_state s)) (but_last (seq_action s))
       (from_1 (seq_state s)) (but_last (seq_option s)) (from_1 (seq_option s)).

Definition collate_sequence_data (data : trajectory) : res (list transition) :=
  let result := metadata_result data in
  r <- foldM (collate_step result) (collate_rows data) ([], 9 # 10) ;;
  Ok (fst r).

(** *** [preprocess_state] *)

(** [len(f) == 0] *)
Definition len_is_0 (f : option json) : res bool :=
  v <- field f ;; n <- py_len v ;; Ok (Nat.eqb n 0).

(** The condition under which the comprehension leaves an entity out. *)
Definition removed (entity : entity) : res bool :=
  py_or (len_is_0 (card_name entity))
  (py_or (len_is_0 (card_description entity))
  (py_or (len_is_0 (card_id entity))
  (py_or (v <- field (card_id entity) ;; Ok (is_None v))
         (py_and (t <- field_tags entity ;; Ok (dict_mem t (py_str (GAME_TAG_ZONE defs))))
                 (t <- field_tags entity ;;
                  v <- subscript t (py_str (GAME_TAG_ZONE defs)) ;;
                  z <- py_int v ;;
                  Ok (negb (py_in z zone))))))).

(** [item["entity"]] as an integer, for every option item *)
Definition operable_of (option : options) : res (list Z) :=
  mapM (fun item => v <- subscript item "entity" ;; py_int v) option.

(** [self.tag_map[t]], as a string *)
Definition tag_name (t : Z) : res string :=
  match tag_map defs t with Some n => Ok n | None => Err KeyError end.

(** The first loop over the tags of an entity: one tag. *)
Definition mark_tag (strip : bool) (operable : list Z) (tag : string) : E unit :=
  (t <- e_lift (py_int (JStr tag)) ;;
   if negb (py_in t scope) then
     if strip then tags_pop tag else e_ret tt
   else if Z.eqb t (GAME_TAG_ENTITY_ID defs) then
     v <- tags_subscript tag ;;
     i <- e_lift (py_int v) ;;
     if py_in i operable then tags_setitem (py_str (TAG_READY defs)) (JStr "1")
     else e_ret tt
   else e_ret tt)%ent.

(** The second loop: one tag. *)
Definition name_tag (tag : string) : E unit :=
  (v <- tags_subscript tag ;;
   _ <- get_named_tags ;;
   t <- e_lift (py_int (JStr tag)) ;;
   name <- e_lift (tag_name t) ;;
   named_tags_setitem name v)%ent.

(** The body of [for entity in state]. *)
Definition process_entity (strip : bool) (operable : list Z) : E unit :=
  (pop_card_id ;;;
   pop_card_name ;;;
   keys <- get_tags ;;
   e_for (dict_keys keys) (mark_tag strip operable) ;;;
   update_named_tags [] ;;;
   keys <- get_tags ;;
   e_for (dict_keys keys) name_tag ;;;
   pop_tags)%ent.

(** [preprocess_state] on values: what it returns, given the values of its
    arguments. *)
Definition preprocess_state (state : game_state) (option : options) (strip : bool)
  : res game_state :=
  operable <- operable_of option ;;
  kept <- filterM removed state ;;
  mapM (fun entity => exec (process_entity strip operable) (deepcopy entity)) kept.

(** [preprocess_state] on the store: the state is a list of references, the
    copies are new objects, and the loop updates the objects of the new
    list. *)
Fixpoint copy_kept (state : list loc) : St (list loc) :=
  match state with
  | [] => st_ret []
  | l :: state' =>
      (entity <- st_read l ;;
       b <- st_lift (removed entity) ;;
       if (b : bool) then copy_kept state'
       else
         l' <- st_deepcopy entity ;;
         ls <- copy_kept state' ;;
         st_ret (l' :: ls))%st
  end.

Definition preprocess_state_st (state : list loc) (option : options) (strip : bool)
  : St (list loc) :=
  (operable <- st_lift (operable_of option) ;;
   state <- copy_kept state ;;
   st_for state (fun l => st_at l (process_entity strip operable)) ;;;
   st_ret state)%st.

(** *** [calculate_difference] *)

(** [{entity["tags"][str(GAME_TAG.ENTITY_ID)]: entity["tags"] for entity in state}] *)
Definition tags_by_id (state : game_state) : res id_dict :=
  foldM (fun d entity =>
           t <- field_tags entity ;;
           entity_id <- subscript t (py_str (GAME_TAG_ENTITY_ID defs)) ;;
           v <- field_tags entity ;;
           if hashable entity_id then Ok (id_set d entity_id v) else Err TypeError)
        state [].

(** The loop over the tags of an entity that both states have. *)
Definition changed_tags (old_tags new_tags : dict) : res dict :=
  foldM (fun entity_difference key =>
           b <- py_and (Ok (dict_mem old_tags key))
                  (x <- subscript old_tags key ;;
                   y <- subscript new_tags key ;;
                   Ok (py_eq x y)) ;;
           if (b : bool) then Ok entity_difference
           else
             y <- subscript new_tags key ;;
             Ok (dict_set entity_difference key y))
        (dict_keys new_tags) [].

(** One turn of the loop over the entity ids of the next state. *)
Definition difference_step (state_dict next_state_dict : id_dict)
    (difference : list dict) (entity_id : json) : res (list dict) :=
  entity_difference <-
    (if (match id_get state_dict entity_id with Some _ => true | None => false end)
     then
       new_tags <- id_subscript next_state_dict entity_id ;;
       old_tags <- id_subscript state_dict entity_id ;;
       changed_tags old_tags new_tags
     else id_subscript next_state_dict entity_id) ;;
  if Nat.ltb 0 (List.length entity_difference) then
    Ok (difference ++
        [dict_set entity_difference (py_str (GAME_TAG_ENTITY_ID defs)) entity_id])
  else Ok difference.

Definition calculate_difference (state next_state : game_state) : res (list dict) :=
  state_dict <- tags_by_id state ;;
  next_state_dict <- tags_by_id next_state ;;
  foldM (difference_step state_dict next_state_dict) (id_keys next_state_dict) [].

(** *** [check_data] and [tokenize_data]

    What one turn of their loop hands to the tokenizer: the stripped state
    and the representation of the next state. *)
Definition model_input (difference : bool) (t : transition)
  : res (game_state * (list dict + game_state)) :=
  let '(state, action, next_state, reward, option, next_option) := t in
  stripped_state <- preprocess_state state option true ;;
  stripped_next_state <-
    (if difference then
       full_next_state <- preprocess_state next_state next_option false ;;
       full_state <- preprocess_state state option false ;;
       d <- calculate_difference full_state full_next_state ;;
       Ok (inl d)
     else
       s <- preprocess_state next_state next_option true ;;
       Ok (inr s)) ;;
  Ok (stripped_state, stripped_next_state).

End TransitionLoader.

(** ** The tokenizing loops and the loaders

    The tokenizer is a pretrained model of a library: [tokenizer] stands for
    the call [self.tokenizer(text, max_length=..., ...)], with or without
    [padding='max_length'], and returns what the loops read of its result.
    [json.dumps] on an action, on a state and on a difference are
    parameters as well.  A folder is the list of what [load_json_data]
    returns of its files, in the order of [os.listdir]. *)

Record encoding : Type := {
  input_ids : list Z;
  attention_mask : list Z
}.

(** The dictionary [combined_data] of [tokenize_data]. *)
Record combined_data : Type := {
  input_ids_state : list Z;
  attention_mask_state : list Z;
  input_ids_action : list Z;
  attention_mask_action : list Z;
  input_ids_next_state : list Z;
  attention_mask_next_state : list Z;
  cd_reward : Q
}.

Section DataLoader.

Variable defs : definitions.

(** [self.max_length] and [self.difference] *)
Variable max_length : nat.
Variable difference : bool.

(** [self.tokenizer(text, max_length=max_length)], and the same with
    [return_tensors="pt", padding='max_length'] when [padding] is set *)
Variable tokenizer : bool -> nat -> string -> encoding.

Variable dumps_action : game_action -> string.
Variable dumps_state : game_state -> string.
Variable dumps_difference : list dict -> string.

(** [self.preprocess_input(stripped_next_state)], after the branch on
    [self.difference] that computes [stripped_next_state] *)
Definition next_state_input (state : game_state) (option : options)
    (next_state : game_state) (next_option : options) : res string :=
  if difference then
    full_next_state <- preprocess_state defs next_state next_option false ;;
    full_state <- preprocess_state defs state option false ;;
    stripped_next_state <- calculate_difference defs full_state full_next_state ;;
    Ok (preprocess_input dumps_difference stripped_next_state)
  else
    stripped_next_state <- preprocess_state defs next_state next_option true ;;
    Ok (preprocess_input dumps_state stripped_next_state).

(** One turn of the loop of [check_data]. *)
Definition check_item (t : transition) : res (list nat) :=
  let '(state, action, next_state, reward, option, next_option) := t in
  stripped_state <- preprocess_state defs state option true ;;
  let tokenized_state :=
    tokenizer false max_length
      (preprocess_input dumps_action action ++ preprocess_input dumps_state stripped_state) in
  let tokenized_action := tokenizer false max_length (preprocess_input dumps_action action) in
  text <- next_state_input state option next_state next_option ;;
  let tokenized_next_state := tokenizer false max_length text in
  Ok [List.length (input_ids tokenized_state);
      List.length (input_ids tokenized_action);
      List.length (input_ids tokenized_next_state)].

Definition check_data (sequence_data : list transition) : res (list (list nat)) :=
  foldM (fun data t => item <- check_item t ;; Ok (data ++ [item])) sequence_data [].

(** One turn of the loop of [tokenize_data]. *)
Definition tokenize_item (t : transition) : res combined_data :=
  let '(state, action, next_state, reward, option, next_option) := t in
  stripped_state <- preprocess_state defs state option true ;;
  let tokenized_state :=
    tokenizer true max_length
      (preprocess_input dumps_action action ++ preprocess_input dumps_state stripped_state) in
  let tokenized_action := tokenizer true max_length (preprocess_input dumps_action action) in
  text <- next_state_input state option next_state next_option ;;
  let tokenized_next_state := tokenizer true max_length text in
  Ok {| input_ids_state := input_ids tokenized_state;
        attention_mask_state := attention_mask tokenized_state;
        input_ids_action := input_ids tokenized_action;
        attention_mask_action := attention_mask tokenized_action;
        input_ids_next_state := input_ids tokenized_next_state;
        attention_mask_next_state := attention_mask tokenized_next_state;
        cd_reward := reward |}.

Definition tokenize_data (sequence_data : list transition) : res (list combined_data) :=
  foldM (fun tokenized_data t =>
           combined <- tokenize_item t ;; Ok (tokenized_data ++ [combined]))
        sequence_data [].

(** [check_data_loader], on the contents of the files of the folder. *)
Definition check_data_loader (files : list trajectory) : res (list (list nat)) :=
  foldM (fun data json_data =>
           sequence_data <- collate_sequence_data defs json_data ;;
           data_property <- check_data sequence_data ;;
           Ok (data ++ data_property))
        files [].

(** The list [data] that [get_data_loader] gathers before it stacks the
    tensors, and the list of which it makes the tensor [rewards]. *)
Definition get_data_loader_data (files : list trajectory) : res (list combined_data) :=
  foldM (fun data json_data =>
           sequence_data <- collate_sequence_data defs json_data ;;
           tokenized_data <- tokenize_data sequence_data ;;
           Ok (data ++ tokenized_data))
        files [].

Definition get_data_loader_rewards (files : list trajectory) : res (list Q) :=
  data <- get_data_loader_data files ;;
  Ok (map cd_reward data).

End DataLoader.

(** A tokenizer for the examples: one token for every character, and
    padding with zeros up to [max_length]. *)
Definition sample_tokenizer (padding : bool) (max_length : nat) (text : string) : encoding :=
  let ids := map (fun c => Z.of_nat (nat_of_ascii c)) (chars text) in
  let pad := if padding then repeat 0 (max_length - List.length ids) else [] in
  {| input_ids := ids ++ pad;
     attention_mask := map (fun _ => 1) ids ++ pad |}.

(** ** An instance of the constants

    The values of the tags, zones and option types in the game's own
    protocol, with a tag map that names the tags in scope and maps any
    other tag to its numeral. *)

Definition sample_tag_map (t : Z) : option string :=
  if Z.eqb t 53 then Some "ENTITY_ID" else
  if Z.eqb t 45 then Some "HEALTH" else
  if Z.eqb t 47 then Some "ATK" else
  if Z.eqb t 48 then Some "COST" else
  if Z.eqb t 292 then Some "ARMOR" else
  if Z.eqb t 49 then Some "ZONE" else
  if Z.eqb t 50 then Some "CONTROLLER" else
  if Z.eqb t 199 then Some "CLASS" else
  if Z.eqb t 200 then Some "CARDRACE" else
  if Z.eqb t 202 then Some "CARDTYPE" else
  if Z.eqb t 219 then Some "SECRET" else
  if Z.eqb t 263 then Some "ZONE_POSITION" else
  if Z.eqb t 10000 then Some "TAG_READY" else Some (py_str t).

Definition sample_defs : definitions := {|
  GAME_TAG_ENTITY_ID := 53;
  GAME_TAG_HEALTH := 45;
  GAME_TAG_ATK := 47;
  GAME_TAG_COST := 48;
  GAME_TAG_ARMOR := 292;
  GAME_TAG_ZONE := 49;
  GAME_TAG_CONTROLLER := 50;
  GAME_TAG_CLASS := 199;
  GAME_TAG_CARDRACE := 200;
  GAME_TAG_CARDTYPE := 202;
  GAME_TAG_SECRET := 219;
  GAME_TAG_ZONE_POSITION := 263;
  TAG_ZONE_SECRET := 7;
  TAG_ZONE_HAND := 3;
  TAG_ZONE_PLAY := 1;
  OPTION_TYPE_END_TURN := 2;
  TAG_READY := 10000;
  tag_map := sample_tag_map
|}.

(** A minion in play, a card in the deck, and two option items. *)
Definition sample_minion : entity := {|
  card_id := Some (JStr "CS2_182");
  card_name := Some (JStr "Chillwind Yeti");
  card_description := Some (JStr "A 4/5 minion");
  tags := Some [("53", JStr "7"); ("49", JStr "1"); ("45", JStr "5");
                ("47", JStr "4"); ("12", JStr "1")];
  named_tags := None;
  other_fields := []
|}.

Definition sample_deck_card : entity := {|
  card_id := Some (JStr "CS2_029");
  card_name := Some (JStr "Fireball");
  card_description := Some (JStr "Deal 6 damage");
  tags := Some [("53", JStr "9"); ("49", JStr "2"); ("48", JStr "4")];
  named_tags := None;
  other_fields := []
|}.

(** A card whose [card_id] is [null]. *)
Definition sample_no_card_id : entity := {|
  card_id := Some JNull;
  card_name := Some (JStr "The Coin");
  card_description := Some (JStr "Gain 1 Mana Crystal this turn only.");
  tags := Some [("53", JStr "68"); ("49", JStr "3")];
  named_tags := None;
  other_fields := []
|}.

(** The minion after it took two damage. *)
Definition sample_minion_damaged : entity := {|
  card_id := Some (JStr "CS2_182");
  card_name := Some (JStr "Chillwind Yeti");
  card_description := Some (JStr "A 4/5 minion");
  tags := Some [("53", JStr "7"); ("49", JStr "1"); ("45", JStr "3");
                ("47", JStr "4"); ("12", JStr "1")];
  named_tags := None;
  other_fields := []
|}.

Definition sample_options : options :=
  [[("type", JInt 3); ("entity", JStr "7")]; [("type", JInt 2); ("entity", JInt 0)]].

Definition sample_play : game_action := [("type", JInt 3); ("entity", JStr "7")].
Definition sample_end_turn : game_action := [("type", JStr "2")].

(** What [preprocess_state] returns of the minion and the card in the deck:
    the minion alone, with all its tags named, or stripped to the schema. *)
Definition sample_full_state : game_state := [{|
  card_id := None;
  card_name := None;
  card_description := Some (JStr "A 4/5 minion");
  tags := None;
  named_tags := Some [("ENTITY_ID", JStr "7"); ("ZONE", JStr "1"); ("HEALTH", JStr "5");
                      ("ATK", JStr "4"); ("12", JStr "1"); ("TAG_READY", JStr "1")];
  other_fields := []
|}].

Definition sample_stripped_state : game_state := [{|
  card_id := None;
  card_name := None;
  card_description := Some (JStr "A 4/5 minion");
  tags := None;
  named_tags := Some [("ENTITY_ID", JStr "7"); ("ZONE", JStr "1"); ("HEALTH", JStr "5");
                      ("ATK", JStr "4"); ("TAG_READY", JStr "1")];
  other_fields := []
|}].

(** A trajectory of four states whose second action ends the turn, and one
    without such an action. *)
Definition sample_sequence (actions : list game_action) : trajectory := {|
  metadata_result := 1;
  data_sequence := {|
    seq_state := [[sample_minion]; [sample_minion; sample_deck_card];
                  [sample_deck_card]; []];
    seq_action := actions;
    seq_option := [sample_options; []; sample_options; []]
  |}
|}.

Definition sample_trajectory : trajectory :=
  sample_sequence [sample_play; sample_end_turn; sample_play; sample_play].

Definition sample_trajectory_no_end_turn : trajectory :=
  sample_sequence [sample_play; sample_play; sample_play; sample_end_turn].

(** The same states and options, the third action having no type. *)
Definition sample_trajectory_untyped : trajectory :=
  sample_sequence [sample_play; sample_end_turn; [("entity", JStr "7")]; sample_play].



(** ** Further samples *)

(** What [preprocess_state] returns of the minion when the option list is
    empty, stripping. *)
Definition sample_unmarked_state : game_state := [{|
  card_id := None;
  card_name := None;
  card_description := Some (JStr "A 4/5 minion");
  tags := None;
  named_tags := Some [("ENTITY_ID", JStr "7"); ("ZONE", JStr "1");
                      ("HEALTH", JStr "5"); ("ATK", JStr "4")];
  other_fields := []
|}].

(** A next state in which two entities share an [ENTITY_ID], and its
    difference from the state of the undamaged minion. *)
Definition sample_shared_id_state : game_state :=
  [sample_minion; sample_minion_damaged; sample_deck_card].

Definition sample_shared_id_difference : list dict :=
  [[("45", JStr "3"); ("53", JStr "7")];
   [("53", JStr "9"); ("49", JStr "2"); ("48", JStr "4")]].

(** The minion with two of its tags only. *)
Definition sample_minion_bare : entity := {|
  card_id := Some (JStr "CS2_182");
  card_name := Some (JStr "Chillwind Yeti");
  card_description := Some (JStr "A 4/5 minion");
  tags := Some [("53", JStr "7"); ("47", JStr "4")];
  named_tags := None;
  other_fields := []
|}.

(** What [json.dumps] returns of a card: the text of
    [{"card_name": "Chillwind Yeti", "named_tags": {"ZONE": "1"},
      "card_description": "<b>Taunt</b>\nA,B"}]. *)
Definition sample_dumped_card : string :=
  ("{" ++ quoted "card_name" ++ ":" ++ quoted "Chillwind Yeti" ++ "," ++
   quoted "named_tags" ++ ":{" ++ quoted "ZONE" ++ ":" ++ quoted "1" ++ "}," ++
   quoted "card_description" ++ ":" ++ quoted "<b>Taunt</b>\nA,B" ++ "}")%string.

(** Serializers for the examples: [json.dumps(v, separators=(',', ':'))] on
    values whose strings need no escape. *)
Fixpoint sample_dumps (v : json) : string :=
  match v with
  | JNull => "null"
  | JBool true => "true"
  | JBool false => "false"
  | JInt z => py_str z
  | JStr s => quoted s
  | JList l =>
      "[" ++
      (fix items (l : list json) : string :=
         match l with
         | [] => ""
         | x :: l' =>
             sample_dumps x ++ match l' with [] => "" | _ => "," end ++ items l'
         end) l ++ "]"
  | JDict d =>
      "{" ++
      (fix items (d : list (string * json)) : string :=
         match d with
         | [] => ""
         | (k, x) :: d' =>
             quoted k ++ ":" ++ sample_dumps x ++
             match d' with [] => "" | _ => "," end ++ items d'
         end) d ++ "}"
  end%string.

Definition sample_entity_json (e : entity) : json :=
  let field (k : string) (f : option json) : dict :=
    match f with Some v => [(k, v)] | None => [] end in
  JDict (field "card_id" (card_id e) ++ field "card_name" (card_name e) ++
         field "card_description" (card_description e) ++
         field "tags" (option_map JDict (tags e)) ++ other_fields e ++
         field "named_tags" (option_map JDict (named_tags e))).

Definition sample_dumps_action (a : game_action) : string := sample_dumps (JDict a).
Definition sample_dumps_state (s : game_state) : string :=
  sample_dumps (JList (map sample_entity_json s)).
Definition sample_dumps_difference (d : list dict) : string :=
  sample_dumps (JList (map JDict d)).

(** A transition between two empty states, and what [tokenize_data] makes
    of it with the sample tokenizer and [max_length] 4. *)
Definition sample_empty_transition : transition := ([], sample_play, [], 9 # 10, [], []).

Definition sample_tokenized : list combined_data :=
  [{| input_ids_state := [51; 32; 55; 0];
      attention_mask_state := [1; 1; 1; 0];
      input_ids_action := [51; 32; 55; 0];
      attention_mask_action := [1; 1; 1; 0];
      input_ids_next_state := [0; 0; 0; 0];
      attention_mask_next_state := [0; 0; 0; 0];
      cd_reward := 9 # 10 |}].

(** The lengths [check_data_loader] returns of the two sample trajectories. *)
Definition sample_lengths : list (list nat) :=
  [[61; 3; 46]; [3; 3; 0]; [61; 3; 46]; [49; 3; 0]; [3; 3; 0]]%nat.

(** ** Notions the properties are stated with *)

(** The decay factor when the loop of [collate_sequence_data] reaches the
    pair of index [i]: it starts at 0.9 and is squared at every pair. *)
Definition decay_factor_at (i : nat) : Q :=
  Nat.iter i (fun d => d * d)%Q (9 # 10).

Definition reward_of (t : transition) : Q :=
  let '(_, _, _, reward, _, _) := t in reward.

Section CollateNotions.

Variable defs : definitions.

(** The action's type is [END_TURN]. *)
Definition is_end_turn (a : game_action) : bool :=
  match action_type a with
  | Ok ty => Z.eqb ty (OPTION_TYPE_END_TURN defs)
  | Err _ => false
  end.

(** The rows with their indices, counted from [k]. *)
Definition indexed {A : Type} (k : nat) (rows : list A) : list (nat * A) :=
  combine (seq k (List.length rows)) rows.

Definition row_kept
    (p : nat * (game_state * game_action * game_state * options * options)) : bool :=
  negb (is_end_turn (snd (fst (fst (fst (snd p)))))).

(** The tuple built from a row met at index [i]. *)
Definition transition_of (result : Q) (i : nat)
    (row : game_state * game_action * game_state * options * options) : transition :=
  let '(state, action, next_state, option, next_option) := row in
  (state, action, next_state, (result * decay_factor_at i)%Q, option, next_option).

(** The tuple of the [i]-th consecutive pair of a trajectory. *)
Definition pair_transition (data : trajectory) (i : nat) : transition :=
  let s := data_sequence data in
  (nth i (seq_state s) [], nth i (seq_action s) [], nth (S i) (seq_state s) [],
   (metadata_result data * decay_factor_at i)%Q,
   nth i (seq_option s) [], nth (S i) (seq_option s) []).

(** The indices of the pairs that are kept. *)
Definition retained (data : trajectory) (n : nat) : list nat :=
  List.filter (fun i => negb (is_end_turn (nth i (seq_action (data_sequence data)) [])))
              (seq 0 (n - 1)).

End CollateNotions.

(** ** Notions for [preprocess_state] *)

(** A partial-correctness triple for a statement on one entity: from an
    entity satisfying [P], a run of [m] that raises nothing ends in a value
    and an entity satisfying [Q]. *)
Definition triple {A : Type} (P : entity -> Prop) (m : E A) (Q : A -> entity -> Prop)
  : Prop :=
  forall e a e', P e -> m e = (Ok a, e') -> Q a e'.

Section PreprocessNotions.

Variable defs : definitions.

(** A field that is present and of non-zero length. *)
Definition nonempty (f : option json) : bool :=
  match f with
  | Some v => match py_len v with Ok n => negb (Nat.eqb n 0) | Err _ => false end
  | None => false
  end.

Definition not_None (f : option json) : bool :=
  match f with Some v => negb (is_None v) | None => false end.

(** The [ZONE] tag, when present, is [SECRET], [HAND] or [PLAY]. *)
Definition zone_tag_ok (e : entity) : bool :=
  match tags e with
  | Some t =>
      match dict_get t (py_str (GAME_TAG_ZONE defs)) with
      | Some v => match py_int v with Ok z => py_in z (zone defs) | Err _ => false end
      | None => true
      end
  | None => true
  end.

(** The entities [preprocess_state] is said to keep. *)
Definition kept (e : entity) : bool :=
  nonempty (card_name e) && nonempty (card_description e) &&
  nonempty (card_id e) && not_None (card_id e) && zone_tag_ok e.

(** The tags in scope, and the marker of an operable entity. *)
Definition in_schema (t : Z) : Prop := In t (scope defs) \/ t = TAG_READY defs.

(** A key of [entity["tags"]] that stripping leaves in place. *)
Definition schema_key (k : string) : Prop :=
  k = py_str (TAG_READY defs) \/
  exists t, py_int (JStr k) = Ok t /\ py_in t (scope defs) = true.

(** A key of [entity["named_tags"]] that is the name of a tag of the
    schema. *)
Definition schema_name (n : string) : Prop :=
  exists t, in_schema t /\ tag_map defs t = Some n.

(** An entity as stripping leaves it. *)
Definition stripped (e : entity) : Prop :=
  card_id e = None /\ card_name e = None /\ tags e = None /\
  exists nt, named_tags e = Some nt /\ Forall schema_name (dict_keys nt).

(** The invariant of the first loop, when stripping: the keys of
    [entity["tags"]] are still to be met, or are keys of the schema. *)
Definition strip_inv (ks : list string) (e : entity) : Prop :=
  card_id e = None /\ card_name e = None /\
  exists t, tags e = Some t /\
            forall k, In k (dict_keys t) -> In k ks \/ schema_key k.

(** The invariant of the second loop. *)
Definition name_inv (ks : list string) (e : entity) : Prop :=
  card_id e = None /\ card_name e = None /\ Forall (schema_key) ks /\
  exists nt, named_tags e = Some nt /\ Forall (schema_name) (dict_keys nt).

End PreprocessNotions.

(** ** Notions for [calculate_difference] *)

(** The keys of a dictionary keyed by entity id can all be keys. *)
Definition hashable_keys (D : id_dict) : Prop :=
  Forall (fun kv => hashable (fst kv) = true) D.

Section DifferenceNotions.

Variable defs : definitions.

(** The value of the [ENTITY_ID] tag. *)
Definition entity_id (e : entity) : option json :=
  match tags e with
  | Some t => dict_get t (py_str (GAME_TAG_ENTITY_ID defs))
  | None => None
  end.

(** An entity with a tag dictionary that holds an [ENTITY_ID] fit to be a
    key: a number, a string, a boolean or null. *)
Definition has_entity_id (e : entity) : Prop :=
  exists i, entity_id e = Some i /\ hashable i = true.

(** The entry of an entity in the dictionary that [calculate_difference]
    builds of a state. *)
Definition id_binding (e : entity) : json * dict :=
  (default JNull (entity_id e), default [] (tags e)).

(** The tags of the entity of a state that has the id [i]: of the last
    such entity. *)
Fixpoint tags_of_id (state : game_state) (i : json) : option dict :=
  match state with
  | [] => None
  | e :: state' =>
      match tags_of_id state' i with
      | Some t => Some t
      | None => if py_eq (fst (id_binding e)) i then Some (snd (id_binding e)) else None
      end
  end.

(** The value of [key] in the new tags is added or changed. *)
Definition tag_differs (old_tags new_tags : dict) (key : string) : bool :=
  match dict_get new_tags key with
  | Some y =>
      match dict_get old_tags key with
      | Some x => negb (py_eq x y)
      | None => true
      end
  | None => false
  end.

(** An entity of the next state that is absent from the state, or has a tag
    that is added or changed. *)
Definition reported (state : game_state) (e' : entity) : bool :=
  match tags_of_id state (fst (id_binding e')) with
  | None => true
  | Some t =>
      existsb (tag_differs t (snd (id_binding e'))) (dict_keys (snd (id_binding e')))
  end.

(** The entry of such an entity: its added and changed tags (all its tags
    when the state has no such entity), and its [ENTITY_ID]. *)
Definition entry_of (state : game_state) (e' : entity) (entry : dict) : Prop :=
  forall k,
    dict_get entry k =
    if String.eqb (py_str (GAME_TAG_ENTITY_ID defs)) k then entity_id e'
    else
      match tags_of_id state (fst (id_binding e')) with
      | None => dict_get (snd (id_binding e')) k
      | Some t =>
          if tag_differs t (snd (id_binding e')) k
          then dict_get (snd (id_binding e')) k
          else None
      end.

(** No two entities of the state have the same [ENTITY_ID]. *)
Fixpoint distinct_ids (state : game_state) : Prop :=
  match state with
  | [] => True
  | e :: state' =>
      Forall (fun e' => py_eq (fst (id_binding e)) (fst (id_binding e')) = false) state' /\
      distinct_ids state'
  end.

End DifferenceNotions.

(** ** Notions for [preprocess_input] *)

(** The punctuation [preprocess_input] is said to strip. *)
Definition punctuation : list ascii :=
  [double_quote; single_quote; "{"; "}"; "["; "]"; ":"; ","]%char.

(** The character [c] does not occur in [s]. *)
Definition free_of (c : ascii) (s : string) : Prop := ~ In c (chars s).

(** A lower-case letter. *)
Definition is_lower (c : ascii) : bool :=
  let n := nat_of_ascii c in (Nat.leb 97 n && Nat.leb n 122)%bool.

(** ** Notions for the further properties of [preprocess_state] *)

Section RenamingNotions.

Variable defs : definitions.

(** A value of [named_tags] is the value of a tag of the entity, or the
    string ["1"] that marks an operable entity. *)
Definition values_from (e e' : entity) : Prop :=
  forall nt n v,
    named_tags e' = Some nt -> dict_get nt n = Some v ->
    v = JStr "1" \/ exists t k, tags e = Some t /\ dict_get t k = Some v.

(** A tag of the entity that is in scope (any tag, when nothing is
    stripped) has its name among the keys of [named_tags]. *)
Definition names_from (strip : bool) (e e' : entity) : Prop :=
  forall t k z,
    tags e = Some t -> In k (dict_keys t) -> int_of_str k = Some z ->
    strip = false \/ py_in z (scope defs) = true ->
    exists nt n, named_tags e' = Some nt /\ tag_map defs z = Some n /\ In n (dict_keys nt).

(** The invariant of the first loop: the values of [entity["tags"]] are
    values of the tags [T0] the entity came with, or the marker; the keys
    of [T0] that are to stay are keys still. *)
Definition mark_inv (T0 : dict) (strip : bool) (e : entity) : Prop :=
  exists t,
    tags e = Some t /\
    (forall k v, dict_get t k = Some v -> v = JStr "1" \/ exists k0, dict_get T0 k0 = Some v) /\
    (forall k z, In k (dict_keys T0) -> int_of_str k = Some z ->
                 strip = false \/ py_in z (scope defs) = true -> In k (dict_keys t)).

(** The invariant of the second loop, over the tags [T] the first loop
    left: the values of [named_tags] are values of [T], and every key of [T]
    is still to be met or has its name in [named_tags]. *)
Definition rename_inv (T : dict) (ks : list string) (e : entity) : Prop :=
  tags e = Some T /\
  exists nt,
    named_tags e = Some nt /\
    (forall n v, dict_get nt n = Some v -> exists k, dict_get T k = Some v) /\
    (forall k z, In k (dict_keys T) -> int_of_str k = Some z ->
                 In k ks \/ exists n, tag_map defs z = Some n /\ In n (dict_keys nt)).

End RenamingNotions.

(** ** Notions for the marking of operable entities *)

Section MarkingNotions.

Variable defs : definitions.

(** An entity the options make operable: one of its tags is the
    [ENTITY_ID], with a value among the entities of the options.  Its tag
    dictionary has every key once, and not yet the key of the marker. *)
Definition operable_entity (operable : list Z) (e : entity) : Prop :=
  exists t k v i,
    tags e = Some t /\ NoDup (dict_keys t) /\
    dict_get t (py_str (TAG_READY defs)) = None /\
    dict_get t k = Some v /\ int_of_str k = Some (GAME_TAG_ENTITY_ID defs) /\
    py_int v = Ok i /\ py_in i operable = true.

(** No tag of the entity has the name of the marker. *)
Definition ready_name_free (e : entity) : Prop :=
  forall t k z,
    tags e = Some t -> In k (dict_keys t) -> int_of_str k = Some z ->
    tag_map defs z <> tag_map defs (TAG_READY defs).

(** The invariant of the first loop for an operable entity with the tags
    [T0] and the [ENTITY_ID] under the key [k]: the keys still to be met
    have their values of [T0], and the marker is set once [k] is met. *)
Definition ready_inv (T0 : dict) (k : string) (ks : list string) (e : entity) : Prop :=
  NoDup ks /\ Forall (fun k' => k' <> py_str (TAG_READY defs)) ks /\
  exists t,
    tags e = Some t /\
    (forall k', In k' ks -> dict_get t k' = dict_get T0 k') /\
    (forall k', In k' (dict_keys t) ->
                In k' (dict_keys T0) \/ k' = py_str (TAG_READY defs)) /\
    (In k ks \/ dict_get t (py_str (TAG_READY defs)) = Some (JStr "1")).

(** The invariant of the second loop: the marker is named once its key is
    met, and no key met later has its name. *)
Definition ready_name_inv (T : dict) (ks : list string) (e : entity) : Prop :=
  tags e = Some T /\
  Forall (fun k' => k' = py_str (TAG_READY defs) \/
                    forall z, int_of_str k' = Some z ->
                              tag_map defs z <> tag_map defs (TAG_READY defs)) ks /\
  exists nt,
    named_tags e = Some nt /\
    (In (py_str (TAG_READY defs)) ks \/
     exists name, tag_map defs (TAG_READY defs) = Some name /\
                  dict_get nt name = Some (JStr "1")).

End MarkingNotions.

Section UnmarkedNotions.

Variable defs : definitions.

(** An entity the options do not make operable: no tag that is the
    [ENTITY_ID] has a value among the entities of the options, and the
    tags do not hold the key of the marker. *)
Definition inoperable_entity (operable : list Z) (e : entity) : Prop :=
  exists t,
    tags e = Some t /\
    dict_get t (py_str (TAG_READY defs)) = None /\
    forall k v i,
      dict_get t k = Some v -> int_of_str k = Some (GAME_TAG_ENTITY_ID defs) ->
      py_int v = Ok i -> py_in i operable = false.

(** The invariant of the first loop for such an entity, with the tags
    [T0]: nothing is added to the tags. *)
Definition unmarked_inv (T0 : dict) (e : entity) : Prop :=
  exists t, tags e = Some t /\ forall k v, dict_get t k = Some v -> dict_get T0 k = Some v.

(** The invariant of the second loop: every name is that of a key of the
    tags [T] the first loop left. *)
Definition unnamed_inv (T : dict) (e : entity) : Prop :=
  tags e = Some T /\
  exists nt,
    named_tags e = Some nt /\
    forall n, In n (dict_keys nt) ->
              exists k z, In k (dict_keys T) /\ int_of_str k = Some z /\
                          tag_map defs z = Some n.

(** The fields of an entity as [preprocess_state] returns it. *)
Definition processed (e : entity) : Prop :=
  card_id e = None /\ card_name e = None /\ tags e = None /\
  exists nt, named_tags e = Some nt.

End UnmarkedNotions.

(** ** Notions for the further properties of [calculate_difference] *)

(** Keys of a dictionary keyed by entity id: no two are equal for [==]. *)
Fixpoint distinct_keys (ks : list json) : Prop :=
  match ks with
  | [] => True
  | k :: ks' => Forall (fun k' => py_eq k k' = false) ks' /\ distinct_keys ks'
  end.

Section CoveringNotions.

Variable defs : definitions.

(** An entity of the next state that the state covers: the state has an
    entity with its [ENTITY_ID] and with every tag it has, at the same
    value. *)
Definition covered (state : game_state) (e' : entity) : Prop :=
  exists e,
    In e state /\ entity_id defs e = entity_id defs e' /\
    forall k v, dict_get (snd (id_binding defs e')) k = Some v ->
                dict_get (snd (id_binding defs e)) k = Some v.

End CoveringNotions.

(** ** Notions for the further properties of [preprocess_input] *)

(** A text with no match of [<.*?>]: after a [<] there is no [>] before the
    end of the line. *)
Fixpoint tagless (s : string) : Prop :=
  match s with
  | EmptyString => True
  | String c s' => (char_eqb c "<" = true -> find_close s' = None) /\ tagless s'
  end.

(** * Properties *)

Arguments py_in : simpl never.
Arguments py_str : simpl never.
Arguments int_of_str : simpl never.
Arguments py_eq : simpl nomatch.

(** ** The functions at work *)

Example int_of_str_examples :
  int_of_str " +4_9 " = Some 49 /\ int_of_str "-049" = Some (-49) /\
  int_of_str "4__9" = None /\ int_of_str "" = None /\ int_of_str "4.9" = None /\
  py_str (-12) = "-12" /\ py_int (JBool true) = Ok 1 /\ py_int JNull = Err TypeError.
Proof. repeat split; vm_compute; reflexivity. Qed.

Example replace_examples :
  replace "ab" "x" "aabab" = "axx" /\ replace "aa" "b" "aaa" = "ba" /\
  replace "" "-" "ab" = "-a-b-" /\
  re_sub_tags "a<b>c<d" = "ac<d" /\ re_sub_tags "<<x>>" = ">" /\
  lower "Yeti [4/5]" = "yeti [4/5]".
Proof. repeat split; vm_compute; reflexivity. Qed.

(** The text of
    [{"card_name": "Chillwind Yeti", "named_tags": {"ZONE": "1"},
      "card_description": "<b>Taunt</b>\nA,B"}], flattened. *)
Example preprocess_input_example :
  preprocess_input (fun s : string => s)
    ("{" ++ quoted "card_name" ++ ":" ++ quoted "Chillwind Yeti" ++ "," ++
     quoted "named_tags" ++ ":{" ++ quoted "ZONE" ++ ":" ++ quoted "1" ++ "}," ++
     quoted "card_description" ++ ":" ++ quoted "<b>Taunt</b>\nA,B" ++ "}")%string
  = "chillwind yeti zone 1 taunt a b".
Proof. vm_compute. reflexivity. Qed.

Example py_eq_examples :
  py_eq (JBool true) (JInt 1) = true /\ py_eq (JStr "1") (JInt 1) = false /\
  py_eq (JDict [("a", JInt 1); ("b", JNull)]) (JDict [("b", JNull); ("a", JInt 1)]) = true /\
  py_eq (JList [JInt 1; JInt 2]) (JList [JInt 2; JInt 1]) = false.
Proof. repeat split; vm_compute; reflexivity. Qed.

(** Of the minion in play and the card in the deck, stripping keeps the
    minion, which the first option item makes operable. *)
Example preprocess_state_example :
  preprocess_state sample_defs [sample_deck_card; sample_minion] sample_options true
  = Ok sample_stripped_state /\
  preprocess_state sample_defs [sample_deck_card; sample_minion] sample_options false
  = Ok sample_full_state.
Proof. split; vm_compute; reflexivity. Qed.

(** The same on the store: the copy is a third object, the two entities of
    the state are as before. *)
Example preprocess_state_st_example :
  preprocess_state_st sample_defs [0; 1]%nat sample_options true
    [sample_deck_card; sample_minion]
  = (Ok [2%nat], [sample_deck_card; sample_minion] ++ sample_stripped_state).
Proof. vm_compute. reflexivity. Qed.

(** The minion took two damage and a card appeared. *)
Example calculate_difference_example :
  calculate_difference sample_defs [sample_minion] [sample_minion_damaged; sample_deck_card]
  = Ok [[("45", JStr "3"); ("53", JStr "7")];
        [("53", JStr "9"); ("49", JStr "2"); ("48", JStr "4")]].
Proof. vm_compute. reflexivity. Qed.

(** The pair of index 1 ends the turn: it has no tuple, and the next tuple
    has the reward of index 2. *)
Example collate_sequence_data_example :
  match collate_sequence_data sample_defs sample_trajectory with
  | Ok out => map reward_of out = [9 # 10; 6561 # 10000]
  | Err _ => False
  end.
Proof. vm_compute. reflexivity. Qed.

(** ** The error monad *)

Lemma bind_Ok {A B : Type} (m : res A) (k : A -> res B) (b : B) :
  bind m k = Ok b -> exists a, m = Ok a /\ k a = Ok b.
Proof. destruct m as [a|e]; simpl; [eauto | discriminate]. Qed.

Ltac inv_bind_fresh H :=
  let a := fresh "a" in
  let Ha := fresh "Ha" in
  apply bind_Ok in H; destruct H as (a & Ha & H).

Tactic Notation "inv_bind" hyp(H) := inv_bind_fresh H.

Tactic Notation "inv_bind" hyp(H) "as" ident(a) ident(Ha) :=
  apply bind_Ok in H; destruct H as (a & Ha & H).

Lemma mapM_Forall2 {A B : Type} (f : A -> res B) (l : list A) :
  forall out, mapM f l = Ok out -> Forall2 (fun x y => f x = Ok y) l out.
Proof.
  induction l as [|x l IH]; intros out H; simpl in H.
  - injection H as <-. constructor.
  - inv_bind H as y Hy. inv_bind H as ys Hys. injection H as <-. constructor; auto.
Qed.

Lemma filterM_filter {A : Type} (removed : A -> res bool) (keep : A -> bool) (l : list A) :
  (forall x b, removed x = Ok b -> keep x = negb b) ->
  forall out, filterM removed l = Ok out -> out = List.filter keep l.
Proof.
  intros Hk. induction l as [|x l IH]; intros out H; simpl in H.
  - now injection H as <-.
  - inv_bind H as b Hb. inv_bind H as xs Hxs. injection H as <-. simpl.
    rewrite (Hk _ _ Hb), (IH _ Hxs). now destruct b.
Qed.

(** ** [int] and [str] *)

Lemma rstrip_string_of_uint (d : Decimal.uint) :
  rstrip (NilEmpty.string_of_uint d) = NilEmpty.string_of_uint d.
Proof.
  induction d as [|d IH|d IH|d IH|d IH|d IH|d IH|d IH|d IH|d IH|d IH];
    [reflexivity | ..];
    cbn [NilEmpty.string_of_uint rstrip]; rewrite IH;
    now destruct (NilEmpty.string_of_uint d).
Qed.

Lemma lstrip_string_of_uint (d : Decimal.uint) :
  lstrip (NilEmpty.string_of_uint d) = NilEmpty.string_of_uint d.
Proof. now destruct d. Qed.

Lemma uint_of_digits_string_of_uint (d : Decimal.uint) :
  uint_of_digits (NilEmpty.string_of_uint d) true = Some d.
Proof.
  induction d as [|d IH|d IH|d IH|d IH|d IH|d IH|d IH|d IH|d IH|d IH];
    [reflexivity | ..];
    cbn [NilEmpty.string_of_uint uint_of_digits]; cbn [is_digit nat_of_ascii];
    cbn; cbn in IH; now rewrite IH.
Qed.

Lemma uint_of_digits_nonnil (d : Decimal.uint) :
  d <> Decimal.Nil ->
  uint_of_digits (NilEmpty.string_of_uint d) false = Some d.
Proof.
  intros Hd. pose proof (uint_of_digits_string_of_uint d) as H.
  destruct d; [congruence | exact H ..].
Qed.

Lemma int_of_str_uint (d : Decimal.uint) :
  d <> Decimal.Nil ->
  int_of_str (NilEmpty.string_of_uint d) = Some (Z.of_int (Decimal.Pos d)) /\
  int_of_str (String "-" (NilEmpty.string_of_uint d)) = Some (Z.of_int (Decimal.Neg d)).
Proof.
  intros Hd. unfold int_of_str.
  change (lstrip (String "-" ?s)) with (String "-" s).
  rewrite lstrip_string_of_uint.
  assert (Hr : rstrip (String "-" (NilEmpty.string_of_uint d))
               = String "-" (NilEmpty.string_of_uint d)).
  { cbn [rstrip]. rewrite rstrip_string_of_uint.
    now destruct (NilEmpty.string_of_uint d). }
  rewrite Hr, rstrip_string_of_uint. split.
  - pose proof (uint_of_digits_nonnil d Hd) as H.
    destruct d; [congruence | cbn in *; now rewrite H ..].
  - cbn [Ascii.eqb Bool.eqb]. cbn. now rewrite (uint_of_digits_nonnil d Hd).
Qed.

(** [int(str(z)) == z] *)
Lemma int_of_str_py_str (z : Z) : int_of_str (py_str z) = Some z.
Proof.
  unfold py_str. rewrite <- (DecimalZ.of_to z) at 2.
  destruct (Z.to_int z) as [d|d]; unfold NilZero.string_of_int, NilZero.string_of_uint.
  - destruct (Decimal.uint_eq_dec d Decimal.Nil) as [-> | Hd]; [reflexivity|].
    destruct (int_of_str_uint d Hd) as [H _]. destruct d; [congruence | exact H ..].
  - destruct (Decimal.uint_eq_dec d Decimal.Nil) as [-> | Hd]; [reflexivity|].
    destruct (int_of_str_uint d Hd) as [_ H]. destruct d; [congruence | exact H ..].
Qed.

Lemma py_int_py_str (z : Z) : py_int (JStr (py_str z)) = Ok z.
Proof. simpl. now rewrite int_of_str_py_str. Qed.

(** ** [==] *)

(** Induction on JSON values, with the hypothesis on the items of a list and
    the values of a dictionary. *)
Lemma json_induction (P : json -> Prop) :
  P JNull -> (forall b, P (JBool b)) -> (forall z, P (JInt z)) -> (forall s, P (JStr s)) ->
  (forall l, Forall P l -> P (JList l)) ->
  (forall d, Forall (fun kv => P (snd kv)) d -> P (JDict d)) ->
  forall v, P v.
Proof.
  intros HN HB HI HS HL HD.
  fix IH 1. intros [| b | z | s | l | d];
    [exact HN | apply HB | apply HI | apply HS | | ].
  - apply HL. induction l as [|x l IHl]; [constructor | constructor; [apply IH | exact IHl]].
  - apply HD. induction d as [|[k x] d IHd]; [constructor | constructor; [apply IH | exact IHd]].
Qed.

Lemma py_eq_refl (v : json) : py_eq v v = true.
Proof.
  induction v as [| b | z | s | l IH | d IH] using json_induction; cbn.
  - reflexivity.
  - now destruct b.
  - apply Z.eqb_refl.
  - apply String.eqb_refl.
  - induction IH as [|x l Hx _ IHl]; cbn; [reflexivity|]. now rewrite Hx, IHl.
  - rewrite Nat.eqb_refl. cbn. apply forallb_forall. intros [k x] Hin.
    apply existsb_exists. exists (k, x). split; [exact Hin|]. cbn.
    rewrite String.eqb_refl. cbn. rewrite List.Forall_forall in IH. exact (IH _ Hin).
Qed.

(** On values that may be keys, [==] is symmetric and transitive. *)
Lemma py_eq_sym (a b : json) :
  hashable a = true -> hashable b = true -> py_eq a b = py_eq b a.
Proof.
  destruct a, b; cbn; try discriminate; intros _ _; try reflexivity.
  - now destruct b, b0.
  - apply Z.eqb_sym.
  - apply Z.eqb_sym.
  - apply Z.eqb_sym.
  - apply String.eqb_sym.
Qed.

Lemma py_eq_trans (a b c : json) :
  hashable a = true -> hashable b = true -> hashable c = true ->
  py_eq a b = true -> py_eq b c = true -> py_eq a c = true.
Proof.
  destruct a, b, c; cbn; try discriminate; intros _ _ _ H1 H2;
    repeat match goal with
           | H : Bool.eqb _ _ = true |- _ => apply Bool.eqb_prop in H; subst
           | H : Z.eqb _ _ = true |- _ => apply Z.eqb_eq in H; subst
           | H : String.eqb _ _ = true |- _ => apply String.eqb_eq in H; subst
           end;
    try reflexivity; try apply Z.eqb_refl; try apply String.eqb_refl;
    try (now destruct b); try (now destruct b0).
  - now destruct b1.
  - destruct b, b0; cbn in *; congruence.
Qed.

(** ** [collate_sequence_data] *)

Section CollateProperties.

Variable defs : definitions.

Lemma decay_factor_at_S (i : nat) :
  decay_factor_at (S i) = (decay_factor_at i * decay_factor_at i)%Q.
Proof. reflexivity. Qed.

(** The decay factor at index [i] is [0.9 ^ (2 ^ i)]. *)
Lemma decay_factor_at_closed_form (i : nat) :
  (decay_factor_at i == (9 # 10) ^ Z.of_nat (2 ^ i))%Q.
Proof.
  induction i as [|i IH].
  - reflexivity.
  - rewrite decay_factor_at_S, IH.
    rewrite <- Qpower_plus by discriminate.
    replace (Z.of_nat (2 ^ S i)) with (Z.of_nat (2 ^ i) + Z.of_nat (2 ^ i))%Z.
    + reflexivity.
    + rewrite Nat.pow_succ_r'. lia.
Qed.

Lemma collate_loop_spec (result : Q) rows :
  forall k sd out d,
    foldM (collate_step defs result) rows (sd, decay_factor_at k) = Ok (out, d) ->
    out = sd ++ map (fun p => transition_of result (fst p) (snd p))
                    (List.filter (row_kept defs) (indexed k rows)).
Proof.
  induction rows as [|row rows IH]; intros k sd out d H.
  - simpl in H. injection H as <- _. simpl. now rewrite app_nil_r.
  - destruct row as [[[[s a] ns] o] no].
    cbn [foldM] in H. inv_bind H.
    unfold collate_step in Ha. inv_bind Ha.
    unfold indexed. cbn [List.length seq combine List.filter].
    unfold row_kept at 1. cbn [fst snd]. unfold is_end_turn. rewrite Ha0.
    destruct (Z.eqb a1 (OPTION_TYPE_END_TURN defs)); injection Ha as <-;
      rewrite <- decay_factor_at_S in H; apply IH in H; subst out; cbn [negb].
    + reflexivity.
    + rewrite <- app_assoc. reflexivity.
Qed.

(** The loop raises nothing when every row's action has a type. *)
Lemma collate_loop_total (result : Q) rows :
  Forall (fun row => exists ty, action_type (snd (fst (fst (fst row)))) = Ok ty) rows ->
  forall acc, exists r, foldM (collate_step defs result) rows acc = Ok r.
Proof.
  induction 1 as [|row rows [ty Hty] _ IH]; intros [sd d].
  - simpl. eauto.
  - destruct row as [[[[s a] ns] o] no]. cbn [foldM collate_step]. cbn [fst snd] in Hty.
    rewrite Hty. cbn [bind]. destruct (Z.eqb ty _); cbn [bind]; apply IH.
Qed.

Lemma In_indexed {A : Type} (rows : list A) :
  forall k i r, In (i, r) (indexed k rows) <-> (k <= i)%nat /\ rows !! (i - k)%nat = Some r.
Proof.
  unfold indexed. induction rows as [|x rows IH]; intros k i r; cbn [List.length seq combine].
  - simpl. split; [tauto | intros [_ H]; discriminate].
  - cbn [In]. rewrite IH. split.
    + intros [H | [Hk H]].
      * injection H as <- <-. split; [lia|]. now rewrite Nat.sub_diag.
      * split; [lia|]. replace (i - k)%nat with (S (i - S k)) by lia. exact H.
    + intros [Hk H]. destruct (Nat.eq_dec k i) as [<- | Hne].
      * rewrite Nat.sub_diag in H. injection H as <-. now left.
      * right. split; [lia|]. replace (i - k)%nat with (S (i - S k)) in H by lia. exact H.
Qed.

Lemma zip5_lookup {A B C D E : Type} (a : list A) :
  forall (b : list B) (c : list C) (d : list D) (e : list E) i,
    zip5 a b c d e !! i =
    match a !! i, b !! i, c !! i, d !! i, e !! i with
    | Some x, Some y, Some z, Some u, Some v => Some (x, y, z, u, v)
    | _, _, _, _, _ => None
    end.
Proof.
  induction a as [|x a IH]; intros b c d e i.
  - reflexivity.
  - destruct b as [|y b], c as [|z c], d as [|u d], e as [|v e], i as [|i];
      cbn; try reflexivity; try apply IH;
      repeat case_match; congruence.
Qed.

Lemma but_last_lookup {A : Type} (l : list A) i :
  but_last l !! i = if (S i <? List.length l)%nat then l !! i else None.
Proof.
  unfold but_last. rewrite removelast_firstn_len.
  destruct (Nat.ltb_spec (S i) (List.length l)).
  - apply lookup_take_lt. lia.
  - apply lookup_take_ge. lia.
Qed.

Lemma from_1_lookup {A : Type} (l : list A) i : from_1 l !! i = l !! S i.
Proof. now destruct l. Qed.

Lemma lookup_nth_default {A : Type} (l : list A) i d :
  (i < List.length l)%nat -> l !! i = Some (nth i l d).
Proof.
  revert i. induction l as [|x l IH]; intros [|i] H; simpl in *; try lia; [reflexivity|].
  apply IH. lia.
Qed.

(** The row of the [i]-th consecutive pair. *)
Lemma collate_rows_lookup (data : trajectory) n i :
  List.length (seq_state (data_sequence data)) = n ->
  List.length (seq_action (data_sequence data)) = n ->
  List.length (seq_option (data_sequence data)) = n ->
  collate_rows data !! i =
  if (S i <? n)%nat then
    let s := data_sequence data in
    Some (nth i (seq_state s) [], nth i (seq_action s) [], nth (S i) (seq_state s) [],
          nth i (seq_option s) [], nth (S i) (seq_option s) [])
  else None.
Proof.
  intros Hs Ha Ho. unfold collate_rows. rewrite zip5_lookup.
  rewrite !but_last_lookup, !from_1_lookup, Hs, Ha, Ho.
  destruct (Nat.ltb_spec (S i) n) as [Hlt|Hge]; [|reflexivity].
  cbv zeta.
  rewrite (lookup_nth_default (seq_state _) i []) by lia.
  rewrite (lookup_nth_default (seq_action _) i []) by lia.
  rewrite (lookup_nth_default (seq_state _) (S i) []) by lia.
  rewrite (lookup_nth_default (seq_option _) i []) by lia.
  rewrite (lookup_nth_default (seq_option _) (S i) []) by lia.
  reflexivity.
Qed.

Lemma collate_rows_length (data : trajectory) n :
  List.length (seq_state (data_sequence data)) = n ->
  List.length (seq_action (data_sequence data)) = n ->
  List.length (seq_option (data_sequence data)) = n ->
  List.length (collate_rows data) = (n - 1)%nat.
Proof.
  intros Hs Ha Ho.
  pose proof (collate_rows_lookup data n (n - 1) Hs Ha Ho) as H1.
  destruct (Nat.ltb_spec (S (n - 1)) n); [lia|].
  apply lookup_ge_None in H1.
  destruct (Nat.eq_dec n 0%nat) as [-> | Hn].
  - unfold collate_rows. apply length_zero_iff_nil in Hs. now rewrite Hs.
  - pose proof (collate_rows_lookup data n (n - 2) Hs Ha Ho) as H2.
    destruct (Nat.eq_dec n 1%nat) as [-> | Hn1]; [simpl in *; lia|].
    destruct (Nat.ltb_spec (S (n - 2)) n); [|lia].
    apply lookup_lt_Some in H2. lia.
Qed.

Lemma indexed_map {A : Type} (g : nat -> A) (rows : list A) :
  forall k,
    (forall j, (j < List.length rows)%nat -> rows !! j = Some (g (k + j)%nat)) ->
    indexed k rows = map (fun i => (i, g i)) (seq k (List.length rows)).
Proof.
  unfold indexed. induction rows as [|x rows IH]; intros k H; [reflexivity|].
  cbn [List.length seq combine map]. f_equal.
  - specialize (H 0%nat ltac:(simpl; lia)). rewrite Nat.add_0_r in H.
    simpl in H. congruence.
  - apply IH. intros j Hj. specialize (H (S j) ltac:(simpl; lia)).
    simpl in H. rewrite H. f_equal. f_equal. lia.
Qed.

Lemma filter_map_comm {A B : Type} (f : A -> B) (p : B -> bool) (l : list A) :
  List.filter p (map f l) = map f (List.filter (fun x => p (f x)) l).
Proof.
  induction l as [|x l IH]; [reflexivity|]. simpl.
  destruct (p (f x)); simpl; now rewrite IH.
Qed.

Lemma filter_all {A : Type} (p : A -> bool) (l : list A) :
  (forall x, In x l -> p x = true) -> List.filter p l = l.
Proof.
  induction l as [|x l IH]; intros H; [reflexivity|]. simpl.
  rewrite (H x (or_introl eq_refl)). f_equal. apply IH. intros y Hy. apply H. now right.
Qed.

(** [collate_sequence_data] returns exactly when every action the loop
    inspects has a type. *)
Lemma collate_sequence_data_total (data : trajectory) :
  Forall (fun row => exists ty, action_type (snd (fst (fst (fst row)))) = Ok ty)
         (collate_rows data) ->
  exists out, collate_sequence_data defs data = Ok out.
Proof.
  intros H. unfold collate_sequence_data.
  destruct (collate_loop_total (metadata_result data) _ H ([], 9 # 10)) as [r Hr].
  rewrite Hr. simpl. eauto.
Qed.

Lemma collate_sequence_data_spec (data : trajectory) out :
  collate_sequence_data defs data = Ok out ->
  out = map (fun p => transition_of (metadata_result data) (fst p) (snd p))
            (List.filter (row_kept defs) (indexed 0 (collate_rows data))).
Proof.
  unfold collate_sequence_data. intros H. inv_bind H. destruct a as [sd d].
  injection H as <-. cbn [fst].
  change (9 # 10) with (decay_factor_at 0) in Ha.
  apply collate_loop_spec in Ha. exact Ha.
Qed.

(** With [n] states, actions and options, the kept rows are those of the
    indices in [retained], in order. *)
Lemma collate_sequence_data_retained (data : trajectory) n out :
  List.length (seq_state (data_sequence data)) = n ->
  List.length (seq_action (data_sequence data)) = n ->
  List.length (seq_option (data_sequence data)) = n ->
  collate_sequence_data defs data = Ok out ->
  out = map (pair_transition data) (retained defs data n).
Proof.
  intros Hs Ha Ho H. apply collate_sequence_data_spec in H. subst out.
  set (s := data_sequence data).
  set (g := fun i => (nth i (seq_state s) [], nth i (seq_action s) [],
                      nth (S i) (seq_state s) [],
                      nth i (seq_option s) [], nth (S i) (seq_option s) [])).
  rewrite (indexed_map g).
  - rewrite (collate_rows_length data n Hs Ha Ho).
    rewrite filter_map_comm, map_map. reflexivity.
  - intros j Hj. rewrite (collate_rows_length data n Hs Ha Ho) in Hj.
    rewrite (collate_rows_lookup data n j Hs Ha Ho).
    destruct (Nat.ltb_spec (S j) n); [reflexivity | lia].
Qed.

Lemma collate_rows_typed (data : trajectory) n :
  List.length (seq_state (data_sequence data)) = n ->
  List.length (seq_action (data_sequence data)) = n ->
  List.length (seq_option (data_sequence data)) = n ->
  (forall i, (i < n - 1)%nat ->
             exists ty, action_type (nth i (seq_action (data_sequence data)) []) = Ok ty) ->
  Forall (fun row => exists ty, action_type (snd (fst (fst (fst row)))) = Ok ty)
         (collate_rows data).
Proof.
  intros Hs Ha Ho H. apply List.Forall_forall. intros row Hin.
  apply list_elem_of_In, list_elem_of_lookup in Hin as [i Hi].
  rewrite (collate_rows_lookup data n i Hs Ha Ho) in Hi.
  destruct (Nat.ltb_spec (S i) n); [|discriminate].
  injection Hi as <-. cbn [fst snd]. apply H. lia.
Qed.

End CollateProperties.

(** ** Statements on one entity *)

Lemma triple_bind {A B : Type} (P : entity -> Prop) (R : A -> entity -> Prop)
    (Q : B -> entity -> Prop) (m : E A) (k : A -> E B) :
  triple P m R -> (forall a, triple (R a) (k a) Q) -> triple P (e_bind m k) Q.
Proof.
  intros Hm Hk e b e' HP H. unfold e_bind in H.
  destruct (m e) as [[a|x] e1] eqn:Hme; [|discriminate].
  exact (Hk a e1 b e' (Hm e a e1 HP Hme) H).
Qed.

Lemma triple_weaken {A : Type} (P P' : entity -> Prop) (Q Q' : A -> entity -> Prop)
    (m : E A) :
  triple P m Q -> (forall e, P' e -> P e) -> (forall a e, Q a e -> Q' a e) ->
  triple P' m Q'.
Proof. intros H HP HQ e a e' HP' Hm. eauto. Qed.

(** The loop rule: the invariant speaks of the items still to come. *)
Lemma triple_for {A : Type} (I : list A -> entity -> Prop) (body : A -> E unit) :
  (forall x l, triple (I (x :: l)) (body x) (fun _ => I l)) ->
  forall l, triple (I l) (e_for l body) (fun _ => I []).
Proof.
  intros Hbody l. induction l as [|x l IH].
  - intros e a e' HI H. cbn in H. unfold e_ret in H. simplify_eq. exact HI.
  - cbn [e_for]. eapply triple_bind; [apply Hbody|]. intros ?. exact IH.
Qed.

Ltac e_unfold :=
  unfold e_bind, e_ret, e_lift, tags_pop, tags_subscript, tags_setitem,
    named_tags_setitem, get_tags, get_named_tags, update_tags, update_named_tags,
    pop_card_id, pop_card_name, pop_tags, subscript, tag_name in *;
  cbn in *.

(** Run a straight-line statement found in a hypothesis. *)
Ltac e_run := repeat (progress e_unfold || (case_match; simplify_eq)).

(** ** Keys of dictionaries *)

Lemma dict_keys_pop (d : dict) (k k' : string) :
  In k' (dict_keys (dict_pop d k)) -> In k' (dict_keys d) /\ k' <> k.
Proof.
  unfold dict_keys, dict_pop. rewrite !in_map_iff.
  intros [[k0 v] [<- Hin]]. apply filter_In in Hin as [Hin Hne]. cbn in *.
  split; [exists (k0, v); auto|].
  apply negb_true_iff, String.eqb_neq in Hne. exact Hne.
Qed.

Lemma dict_keys_set (d : dict) (k k' : string) (v : json) :
  In k' (dict_keys (dict_set d k v)) -> In k' (dict_keys d) \/ k' = k.
Proof.
  induction d as [|[k0 v0] d IH]; cbn.
  - intros [<- | []]. now right.
  - destruct (String.eqb_spec k0 k) as [-> | Hne]; cbn.
    + intros [<- | H]; [left; now left | left; now right].
    + intros [<- | H]; [left; now left|]. destruct (IH H); [left; now right | now right].
Qed.

Lemma dict_get_keys (d : dict) (k : string) (v : json) :
  dict_get d k = Some v -> In k (dict_keys d).
Proof.
  induction d as [|[k0 v0] d IH]; cbn; [discriminate|].
  destruct (String.eqb_spec k0 k) as [-> | Hne]; [now left | right; auto].
Qed.

Lemma dict_keys_get (d : dict) (k : string) :
  In k (dict_keys d) -> exists v, dict_get d k = Some v.
Proof.
  induction d as [|[k0 v0] d IH]; cbn; [tauto|].
  destruct (String.eqb_spec k0 k) as [-> | Hne]; [eauto|].
  intros [H | H]; [congruence | auto].
Qed.

(** ** [preprocess_state] *)

Section PreprocessProperties.

Variable defs : definitions.

Lemma py_or_Ok (a b : res bool) (r : bool) :
  py_or a b = Ok r -> (a = Ok true /\ r = true) \/ (a = Ok false /\ b = Ok r).
Proof.
  unfold py_or. destruct a as [[|]|x]; cbn; intros H; [left | right | discriminate];
    split; congruence.
Qed.

Lemma len_is_0_nonempty (f : option json) (b : bool) :
  len_is_0 f = Ok b -> nonempty f = negb b.
Proof.
  unfold len_is_0, nonempty, field. destruct f as [v|]; cbn; [|discriminate].
  destruct (py_len v); cbn; [|discriminate]. now intros [= <-].
Qed.

Lemma zone_condition (e : entity) (b : bool) :
  py_and (t <- field_tags e ;; Ok (dict_mem t (py_str (GAME_TAG_ZONE defs))))
         (t <- field_tags e ;;
          v <- subscript t (py_str (GAME_TAG_ZONE defs)) ;;
          z <- py_int v ;;
          Ok (negb (py_in z (zone defs)))) = Ok b ->
  zone_tag_ok defs e = negb b.
Proof.
  unfold py_and, field_tags, zone_tag_ok, dict_mem, subscript.
  destruct (tags e) as [t|]; cbn; [|discriminate].
  destruct (dict_get t _) as [v|]; cbn; [|now intros [= <-]].
  destruct (py_int v) as [z|x]; cbn; [|discriminate].
  intros [= <-]. now rewrite negb_involutive.
Qed.

(** The comprehension leaves out exactly the entities that are not [kept]. *)
Lemma removed_kept (e : entity) (b : bool) :
  removed defs e = Ok b -> kept defs e = negb b.
Proof.
  unfold removed, kept. intros H.
  apply py_or_Ok in H as [[H ->] | [H1 H]].
  { apply len_is_0_nonempty in H. now rewrite H. }
  apply len_is_0_nonempty in H1. rewrite H1. cbn [negb andb].
  apply py_or_Ok in H as [[H ->] | [H2 H]].
  { apply len_is_0_nonempty in H. now rewrite H. }
  apply len_is_0_nonempty in H2. rewrite H2. cbn [negb andb].
  apply py_or_Ok in H as [[H ->] | [H3 H]].
  { apply len_is_0_nonempty in H. now rewrite H. }
  apply len_is_0_nonempty in H3. rewrite H3. cbn [negb andb].
  apply py_or_Ok in H as [[H ->] | [H4 H]].
  { unfold not_None. unfold field in H. destruct (card_id e); cbn in H; [|discriminate].
    injection H as H. now rewrite H. }
  assert (Hn : not_None (card_id e) = true).
  { unfold not_None. unfold field in H4. destruct (card_id e); cbn in H4; [|discriminate].
    injection H4 as H4. now rewrite H4. }
  rewrite Hn. cbn [andb]. now apply zone_condition.
Qed.

(** The body of the loop leaves the description and the fields it does not
    name as they are. *)
Lemma process_entity_frame (strip : bool) (operable : list Z) d o :
  triple (fun e => card_description e = d /\ other_fields e = o)
         (process_entity defs strip operable)
         (fun _ e => card_description e = d /\ other_fields e = o).
Proof.
  pose (P := fun e => card_description e = d /\ other_fields e = o).
  assert (Hmark : forall tag, triple P (mark_tag defs strip operable tag) (fun _ => P)).
  { intros tag e a e' HP H. unfold mark_tag in H. subst P. e_run; exact HP. }
  assert (Hname : forall tag, triple P (name_tag defs tag) (fun _ => P)).
  { intros tag e a e' HP H. unfold name_tag in H. subst P. e_run; exact HP. }
  assert (Hfor1 : forall l, triple P (e_for l (mark_tag defs strip operable)) (fun _ => P)).
  { apply (triple_for (fun _ => P)). intros x l. apply Hmark. }
  assert (Hfor2 : forall l, triple P (e_for l (name_tag defs)) (fun _ => P)).
  { apply (triple_for (fun _ => P)). intros x l. apply Hname. }
  intros e a e' HP H. unfold process_entity in H. subst P. e_run.
  match goal with
  | H1 : e_for _ (mark_tag _ _ _) _ = _ |- _ => apply Hfor1 in H1; [|exact HP]
  end.
  match goal with
  | H2 : e_for _ (name_tag _) _ = _ |- _ => apply Hfor2 in H2; [|assumption]
  end.
  assumption.
Qed.

Lemma py_in_In (z : Z) (l : list Z) : py_in z l = true -> In z l.
Proof.
  unfold py_in. intros H. apply existsb_exists in H as (y & Hy & Heq).
  apply Z.eqb_eq in Heq. now subst.
Qed.

(** A key that stripping leaves is the numeral of a tag of the schema. *)
Lemma schema_key_int (k : string) (t : Z) :
  schema_key defs k -> int_of_str k = Some t -> in_schema defs t.
Proof.
  intros [-> | (t' & Ht' & Hin)] Hk.
  - rewrite int_of_str_py_str in Hk. injection Hk as <-. now right.
  - cbn in Ht'. rewrite Hk in Ht'. injection Ht' as <-. left. now apply py_in_In.
Qed.

Lemma mark_tag_strip_inv (operable : list Z) (tag : string) (ks : list string) :
  triple (strip_inv defs (tag :: ks)) (mark_tag defs true operable tag)
         (fun _ => strip_inv defs ks).
Proof.
  intros e a e' (Hid & Hname & t & Ht & Hkeys) H. unfold mark_tag in H.
  assert (Hself : forall z, int_of_str tag = Some z -> py_in z (scope defs) = true ->
                            forall k, In k (dict_keys t) -> In k ks \/ schema_key defs k).
  { intros z Hz Hin k Hk. destruct (Hkeys k Hk) as [[<- | Hk'] | Hk']; auto.
    right. right. exists z. cbn. now rewrite Hz. }
  e_run; unfold strip_inv; cbn; repeat split; try assumption;
    (eexists; split; [reflexivity || eassumption|]);
    try (eapply Hself; eauto; now apply negb_false_iff);
    intros k Hk.
  - apply dict_keys_pop in Hk as [Hk Hne].
    destruct (Hkeys k Hk) as [[<- | Hk'] | Hk']; [congruence | now left | now right].
  - apply dict_keys_set in Hk as [Hk | ->]; [|right; now left].
    eapply Hself; eauto. now apply negb_false_iff.
Qed.

Lemma name_tag_name_inv (tag : string) (ks : list string) :
  triple (name_inv defs (tag :: ks)) (name_tag defs tag) (fun _ => name_inv defs ks).
Proof.
  intros e a e' (Hid & Hname & Hks & nt & Hnt & Hnames) H. unfold name_tag in H.
  apply Forall_cons_iff in Hks as [Htag Hks].
  e_run; unfold name_inv; cbn; repeat split; try assumption.
  eexists. split; [reflexivity|]. apply List.Forall_forall. intros k Hk.
  apply dict_keys_set in Hk as [Hk | ->].
  - rewrite List.Forall_forall in Hnames. auto.
  - eexists. split; [|eassumption]. eapply schema_key_int; eauto.
Qed.

(** The body of the loop, when stripping, leaves an entity of the schema. *)
Lemma process_entity_stripped (operable : list Z) :
  triple (fun _ => True) (process_entity defs true operable) (fun _ => stripped defs).
Proof.
  intros e a e' _ H. unfold process_entity in H. e_run.
  match goal with
  | H1 : e_for _ (mark_tag _ _ _) _ = _ |- _ =>
      apply (triple_for (strip_inv defs) _ (mark_tag_strip_inv operable)) in H1
  end.
  2:{ unfold strip_inv. cbn. repeat split. eexists. split; [reflexivity|]. auto. }
  match goal with
  | H1 : strip_inv _ [] _ |- _ => destruct H1 as (Hid & Hname & t & Ht & Hkeys)
  end.
  match goal with
  | H2 : e_for _ (name_tag _) _ = _ |- _ =>
      apply (triple_for (name_inv defs) _ name_tag_name_inv) in H2
  end.
  2:{ unfold name_inv. cbn. repeat split; try assumption.
      - apply List.Forall_forall. intros k Hk. simplify_eq.
        destruct (Hkeys k Hk) as [[] | Hk']. exact Hk'.
      - eexists. split; [reflexivity|]. constructor. }
  match goal with
  | H2 : name_inv _ [] _ |- _ => destruct H2 as (Hid' & Hname' & _ & nt & Hnt & Hnames)
  end.
  unfold stripped. cbn. repeat split; try assumption. eauto.
Qed.

Lemma exec_Ok (m : E unit) (e e' : entity) :
  exec m e = Ok e' -> m e = (Ok tt, e').
Proof.
  unfold exec. destruct (m e) as [[[]|x] e1]; [|discriminate]. now intros [= ->].
Qed.

(** Whatever [strip] is, the body of the loop ends by popping [tags]. *)
Lemma process_entity_pops_tags (strip : bool) (operable : list Z) :
  triple (fun _ => True) (process_entity defs strip operable) (fun _ e => tags e = None).
Proof. intros e a e' _ H. unfold process_entity in H. e_run. reflexivity. Qed.

Lemma preprocess_state_no_tags state option strip out :
  preprocess_state defs state option strip = Ok out ->
  Forall (fun e => tags e = None) out.
Proof.
  unfold preprocess_state. intros H.
  inv_bind H as operable Hop. inv_bind H as ks Hks.
  apply mapM_Forall2 in H. clear Hks.
  induction H as [|e e' l l' He Hl IH]; constructor; try exact IH.
  apply exec_Ok in He. now apply (process_entity_pops_tags strip operable) in He.
Qed.

(** [calculate_difference] raises [KeyError] on entities without [tags]. *)
Lemma tags_by_id_no_tags (e : entity) (l : game_state) :
  tags e = None -> tags_by_id defs (e :: l) = Err KeyError.
Proof. intros H. unfold tags_by_id, field_tags. cbn. now rewrite H. Qed.

Lemma calculate_difference_no_tags (state next_state : game_state) :
  Forall (fun e => tags e = None) state ->
  Forall (fun e => tags e = None) next_state ->
  calculate_difference defs state next_state =
  match state, next_state with
  | [], [] => Ok []
  | _, _ => Err KeyError
  end.
Proof.
  intros Hs Hn. unfold calculate_difference.
  destruct Hs as [|e l He _]; [|now rewrite tags_by_id_no_tags].
  destruct Hn as [|e l He _]; [reflexivity|].
  rewrite (tags_by_id_no_tags e l He). reflexivity.
Qed.

End PreprocessProperties.

(** ** The store *)

Section StoreProperties.

Variable defs : definitions.

(** The copies are new objects, one after the other; the objects of the
    store stay as they are. *)
Lemma copy_kept_fresh (state : list loc) :
  forall h r h',
    copy_kept defs state h = (r, h') ->
    exists ext,
      h' = h ++ ext /\
      forall ls, r = Ok ls -> ls = seq (List.length h) (List.length ext).
Proof.
  induction state as [|l state IH]; intros h r h' H; cbn in H.
  - unfold st_ret in H. injection H as <- <-. exists []. split; [now rewrite app_nil_r|].
    now intros ls [= <-].
  - unfold st_bind, st_read, st_lift, st_deepcopy, st_ret in H.
    repeat case_match; simplify_eq;
      try (exists []; split; [now rewrite app_nil_r | discriminate]);
      try (now apply IH).
    + match goal with
      | Hc : copy_kept _ _ _ = _ |- _ => apply IH in Hc as (ext & -> & Hls)
      end.
      eexists (_ :: ext). split; [now rewrite <- app_assoc|].
      intros ? [= <-]. rewrite (Hls _ eq_refl), length_app. cbn.
      now rewrite Nat.add_1_r.
    + match goal with
      | Hc : copy_kept _ _ _ = _ |- _ => apply IH in Hc as (ext & -> & Hls)
      end.
      eexists (_ :: ext). split; [now rewrite <- app_assoc | discriminate].
Qed.

(** Statements on objects at or above [n] leave the store below [n] as it
    is. *)
Lemma st_for_at_frame (m : E unit) (n : nat) (ls : list loc) :
  Forall (fun l => (n <= l)%nat) ls ->
  forall h r h',
    st_for ls (fun l => st_at l m) h = (r, h') ->
    take n h' = take n h /\ List.length h' = List.length h.
Proof.
  induction 1 as [|l ls Hl _ IH]; intros h r h' H; cbn in H.
  - unfold st_ret in H. injection H as <- <-. auto.
  - unfold st_bind in H. unfold st_at at 1 in H.
    repeat case_match; simplify_eq; auto;
      try (apply IH in H as [-> ->]);
      (split; [now apply take_insert_ge | apply length_insert]).
Qed.

(** The statements on references to the entities [todo], which follow the
    objects [pre] in the store, have the values of [exec] on [todo]. *)
Lemma st_for_at_exec (m : E unit) (todo : list entity) :
  forall pre,
  exists h',
    st_for (seq (List.length pre) (List.length todo)) (fun l => st_at l m) (pre ++ todo)
    = (match mapM (exec m) todo with Ok _ => Ok tt | Err x => Err x end, h') /\
    forall out, mapM (exec m) todo = Ok out -> h' = pre ++ out.
Proof.
  induction todo as [|e todo IH]; intros pre.
  - eexists. split; [reflexivity|]. now intros out [= <-].
  - cbn [mapM List.length seq st_for]. unfold st_bind at 1. unfold st_at at 1.
    rewrite list_lookup_middle by reflexivity.
    unfold exec at 1 3. destruct (m e) as [[[]|x] e'] eqn:Hm; cbn [bind].
    + replace (<[List.length pre := e']> (pre ++ e :: todo)) with ((pre ++ [e']) ++ todo).
      2:{ rewrite <- app_assoc. cbn.
          rewrite <- (Nat.add_0_r (List.length pre)) at 1. now rewrite insert_app_r. }
      destruct (IH (pre ++ [e'])) as (h' & Hrun & Hout).
      rewrite length_app, Nat.add_1_r in Hrun. exists h'. rewrite Hrun.
      destruct (mapM (exec m) todo) as [out|x]; cbn [bind]; (split; [reflexivity|]).
      * intros ? [= <-]. rewrite (Hout out eq_refl), <- app_assoc. reflexivity.
      * discriminate.
    + eexists. split; [reflexivity | discriminate].
Qed.

Lemma copy_kept_filterM (state : list loc) :
  forall (es : list entity) h,
    Forall2 (fun l e => h !! l = Some e) state es ->
    exists h',
      copy_kept defs state h
      = (match filterM (removed defs) es with
         | Ok ks => Ok (seq (List.length h) (List.length ks))
         | Err x => Err x
         end, h') /\
      forall ks, filterM (removed defs) es = Ok ks -> h' = h ++ map deepcopy ks.
Proof.
  induction state as [|l state IH]; intros es h H.
  - apply Forall2_nil_inv_l in H as ->. cbn. unfold st_ret. eexists.
    split; [reflexivity|]. intros ? [= <-]. now rewrite app_nil_r.
  - apply Forall2_cons_inv_l in H as (e & es' & He & Hes & ->).
    cbn [filterM copy_kept]. unfold st_bind at 1. unfold st_read. rewrite He.
    unfold st_bind at 1. unfold st_lift.
    destruct (removed defs e) as [[|]|x]; cbn [bind].
    + destruct (IH es' h Hes) as (h' & Hrun & Hks). exists h'. rewrite Hrun.
      destruct (filterM (removed defs) es') as [ks|x]; cbn [bind];
        (split; [reflexivity|]); [|discriminate].
      intros ? [= <-]. auto.
    + unfold st_bind at 1. unfold st_deepcopy.
      assert (Hes' : Forall2 (fun l e0 => (h ++ [e]) !! l = Some e0) state es').
      { eapply Forall2_impl; [exact Hes|]. cbn beta. intros l0 e0 Hl.
        rewrite lookup_app_l; [exact Hl|]. now apply lookup_lt_Some in Hl. }
      destruct (IH es' (h ++ [e]) Hes') as (h' & Hrun & Hks). exists h'.
      unfold st_bind. rewrite Hrun.
      destruct (filterM (removed defs) es') as [ks|x]; cbn [bind];
        (split; [|try discriminate]).
      * unfold st_ret. now rewrite length_app, Nat.add_1_r.
      * intros ? [= <-]. rewrite (Hks ks eq_refl), <- app_assoc. reflexivity.
      * reflexivity.
    + eexists. split; [reflexivity | discriminate].
Qed.

(** X15. [preprocess_state_st] computes, on the store, what [preprocess_state]
    computes on values. *)
Lemma preprocess_state_st_value (state : list loc) (es : game_state)
    (option : options) (strip : bool) (h : store) :
  Forall2 (fun l e => h !! l = Some e) state es ->
  exists r h',
    preprocess_state_st defs state option strip h = (r, h') /\
    match preprocess_state defs es option strip with
    | Ok out => exists ls, r = Ok ls /\ Forall2 (fun l e => h' !! l = Some e) ls out
    | Err x => r = Err x
    end.
Proof.
  intros H. unfold preprocess_state, preprocess_state_st.
  unfold st_bind at 1. unfold st_lift.
  destruct (operable_of option) as [operable|x]; cbn [bind]; [|eauto].
  destruct (copy_kept_filterM state es h H) as (h1 & Hc & Hks).
  unfold st_bind at 1. rewrite Hc.
  destruct (filterM (removed defs) es) as [ks|x]; cbn [bind]; [|eauto].
  rewrite (Hks ks eq_refl), map_id.
  change (fun entity => exec (process_entity defs strip operable) (deepcopy entity))
    with (exec (process_entity defs strip operable)).
  destruct (st_for_at_exec (process_entity defs strip operable) ks h) as (h2 & Hf & Hout).
  unfold st_bind. rewrite Hf.
  destruct (mapM (exec (process_entity defs strip operable)) ks) as [out|x] eqn:Hm;
    [|eauto].
  unfold st_ret. eexists _, _. split; [reflexivity|]. eexists. split; [reflexivity|].
  rewrite (Hout out eq_refl).
  apply mapM_Forall2, Forall2_length in Hm. rewrite Hm.
  clear. generalize h. induction out as [|e out IH]; intros pre; [constructor|].
  cbn. constructor.
  - now apply list_lookup_middle.
  - specialize (IH (pre ++ [e])). rewrite length_app, Nat.add_1_r, <- app_assoc in IH.
    exact IH.
Qed.

End StoreProperties.

(** ** [calculate_difference] *)

Lemma dict_get_set (d : dict) (k k' : string) (v : json) :
  dict_get (dict_set d k v) k' = if String.eqb k k' then Some v else dict_get d k'.
Proof.
  induction d as [|[k0 v0] d IH]; cbn.
  - reflexivity.
  - destruct (String.eqb_spec k0 k) as [-> | Hne]; cbn.
    + now destruct (String.eqb k k').
    + rewrite IH. destruct (String.eqb_spec k0 k') as [-> | Hne']; [|reflexivity].
      destruct (String.eqb_spec k k'); [congruence | reflexivity].
Qed.

Lemma dict_set_not_nil (d : dict) (k : string) (v : json) : dict_set d k v <> [].
Proof. destruct d as [|[k0 v0] d]; cbn; [discriminate|]. now destruct (String.eqb k0 k). Qed.

Section DifferenceProperties.

Variable defs : definitions.

Lemma id_get_set (D : id_dict) (k k' : json) (v : dict) :
  hashable_keys D -> hashable k = true -> hashable k' = true ->
  id_get (id_set D k v) k' = if py_eq k k' then Some v else id_get D k'.
Proof.
  intros HD Hk Hk'. induction HD as [|[k0 v0] D Hk0 _ IH]; cbn in *.
  - reflexivity.
  - destruct (py_eq k0 k) eqn:E0; cbn.
    + destruct (py_eq k0 k') eqn:E1.
      * rewrite (py_eq_sym k0 k) in E0 by assumption.
        now rewrite (py_eq_trans k k0 k').
      * destruct (py_eq k k') eqn:E2; [|reflexivity].
        now rewrite (py_eq_trans k0 k k') in E1.
    + rewrite IH. destruct (py_eq k0 k') eqn:E1; [|reflexivity].
      destruct (py_eq k k') eqn:E2; [|reflexivity].
      rewrite (py_eq_sym k k') in E2 by assumption.
      now rewrite (py_eq_trans k0 k' k) in E0.
Qed.

Lemma hashable_keys_set (D : id_dict) (k : json) (v : dict) :
  hashable_keys D -> hashable k = true -> hashable_keys (id_set D k v).
Proof.
  intros HD Hk. induction HD as [|[k0 v0] D Hk0 HD IH]; cbn.
  - repeat constructor. exact Hk.
  - destruct (py_eq k0 k); constructor; auto.
Qed.

(** One turn of the comprehension that builds the dictionary of a state. *)
Lemma tags_by_id_step (D D' : id_dict) (e : entity) :
  (t <- field_tags e ;;
   entity_id <- subscript t (py_str (GAME_TAG_ENTITY_ID defs)) ;;
   v <- field_tags e ;;
   if hashable entity_id then Ok (id_set D entity_id v) else Err TypeError) = Ok D' <->
  has_entity_id defs e /\ D' = id_set D (fst (id_binding defs e)) (snd (id_binding defs e)).
Proof.
  unfold has_entity_id, id_binding, entity_id, field_tags, subscript.
  destruct (tags e) as [t|]; cbn.
  2:{ split; [discriminate | intros [(i & Hi & _) _]; discriminate]. }
  destruct (dict_get t _) as [i|]; cbn.
  2:{ split; [discriminate | intros [(i & Hi & _) _]; discriminate]. }
  destruct (hashable i) eqn:Hh.
  - split; [intros [= <-]; eauto | now intros [_ ->]].
  - split; [discriminate | intros [(i' & [= <-] & Hi') _]; congruence].
Qed.

Lemma tags_by_id_fold (state : game_state) :
  forall D0 D,
    hashable_keys D0 ->
    foldM (fun d entity =>
             t <- field_tags entity ;;
             entity_id <- subscript t (py_str (GAME_TAG_ENTITY_ID defs)) ;;
             v <- field_tags entity ;;
             if hashable entity_id then Ok (id_set d entity_id v) else Err TypeError)
          state D0 = Ok D ->
    hashable_keys D /\
    forall k, hashable k = true ->
              id_get D k = match tags_of_id defs state k with
                           | Some t => Some t
                           | None => id_get D0 k
                           end.
Proof.
  induction state as [|e state IH]; intros D0 D H0 H; cbn [foldM] in H.
  - injection H as <-. auto.
  - inv_bind H as D1 H1. apply tags_by_id_step in H1 as [(i & Hi & Hh) ->].
    assert (Hfst : fst (id_binding defs e) = i) by (unfold id_binding; now rewrite Hi).
    apply IH in H as [HD Hget]; [|apply hashable_keys_set; [assumption | now rewrite Hfst]].
    split; [exact HD|]. intros k Hk. rewrite (Hget k Hk). cbn [tags_of_id].
    destruct (tags_of_id defs state k); [reflexivity|].
    rewrite id_get_set; [|assumption | now rewrite Hfst | assumption].
    now destruct (py_eq (fst (id_binding defs e)) k).
Qed.

Lemma tags_by_id_total (state : game_state) :
  Forall (has_entity_id defs) state -> exists D, tags_by_id defs state = Ok D.
Proof.
  unfold tags_by_id. intros H. generalize (@nil (json * dict)).
  induction H as [|e state He _ IH]; intros D0; cbn [foldM]; [eauto|].
  rewrite (proj2 (tags_by_id_step D0 _ e) (conj He eq_refl)).
  cbn [bind]. apply IH.
Qed.

Lemma tags_by_id_spec (state : game_state) (D : id_dict) :
  tags_by_id defs state = Ok D ->
  hashable_keys D /\
  forall k, hashable k = true -> id_get D k = tags_of_id defs state k.
Proof.
  intros H. apply tags_by_id_fold in H as [HD Hget]; [|constructor].
  split; [exact HD|]. intros k Hk. rewrite (Hget k Hk).
  now destruct (tags_of_id defs state k).
Qed.

Lemma id_get_key (D : id_dict) (k : json) :
  In k (id_keys D) -> exists t, id_get D k = Some t.
Proof.
  induction D as [|[k0 v0] D IH]; cbn; [tauto|].
  intros [-> | H].
  - rewrite py_eq_refl. eauto.
  - destruct (py_eq k0 k); eauto.
Qed.

(** The tags of an entity do not differ from themselves. *)
Lemma changed_tags_same (t : dict) : changed_tags t t = Ok [].
Proof.
  unfold changed_tags.
  assert (H : forall ks acc,
             (forall k, In k ks -> In k (dict_keys t)) ->
             foldM (fun entity_difference key =>
                      b <- py_and (Ok (dict_mem t key))
                             (x <- subscript t key ;; y <- subscript t key ;; Ok (py_eq x y)) ;;
                      if (b : bool) then Ok entity_difference
                      else y <- subscript t key ;; Ok (dict_set entity_difference key y))
                   ks acc = Ok acc).
  { induction ks as [|k ks IH]; intros acc Hks; [reflexivity|]. cbn [foldM].
    destruct (dict_keys_get t k (Hks k (or_introl eq_refl))) as [v Hv].
    unfold py_and, dict_mem, subscript. rewrite Hv. cbn. rewrite py_eq_refl.
    apply IH. intros k' Hk'. apply Hks. now right. }
  apply H. auto.
Qed.

Lemma difference_same (D : id_dict) (ks : list json) :
  (forall k, In k ks -> In k (id_keys D)) ->
  foldM (difference_step defs D D) ks [] = Ok [].
Proof.
  induction ks as [|k ks IH]; intros Hks; [reflexivity|]. cbn [foldM].
  destruct (id_get_key D k (Hks k (or_introl eq_refl))) as [t Ht].
  unfold difference_step, id_subscript. rewrite Ht. cbn [bind].
  rewrite changed_tags_same. cbn. apply IH. intros k' Hk'. apply Hks. now right.
Qed.

Lemma id_set_fresh (D : id_dict) (k : json) (v : dict) :
  Forall (fun kv => py_eq (fst kv) k = false) D -> id_set D k v = D ++ [(k, v)].
Proof.
  induction 1 as [|[k0 v0] D H0 _ IH]; cbn in *; [reflexivity|].
  now rewrite H0, IH.
Qed.

(** With distinct ids, the dictionary of a state has one entry for each
    entity, in order. *)
Lemma tags_by_id_distinct_fold (state : game_state) :
  forall D0,
    Forall (has_entity_id defs) state ->
    distinct_ids defs state ->
    Forall (fun kv =>
              Forall (fun e => py_eq (fst kv) (fst (id_binding defs e)) = false) state) D0 ->
    foldM (fun d entity =>
             t <- field_tags entity ;;
             entity_id <- subscript t (py_str (GAME_TAG_ENTITY_ID defs)) ;;
             v <- field_tags entity ;;
             if hashable entity_id then Ok (id_set d entity_id v) else Err TypeError)
          state D0 = Ok (D0 ++ map (id_binding defs) state).
Proof.
  induction state as [|e state IH]; intros D0 Hids Hdist HD0; cbn [foldM map].
  - now rewrite app_nil_r.
  - apply Forall_cons_iff in Hids as [He Hids]. destruct Hdist as [Hfresh Hdist].
    rewrite (proj2 (tags_by_id_step D0 _ e) (conj He eq_refl)). cbn [bind].
    rewrite id_set_fresh.
    2:{ eapply List.Forall_impl; [|exact HD0]. cbn beta. intros kv Hkv.
        now apply Forall_cons_iff in Hkv as [Hkv _]. }
    rewrite IH; [now rewrite <- app_assoc | assumption | assumption |].
    apply Forall_app. split.
    + eapply List.Forall_impl; [|exact HD0]. cbn beta. intros kv Hkv.
      now apply Forall_cons_iff in Hkv as [_ Hkv].
    + constructor; [|constructor]. destruct (id_binding defs e). exact Hfresh.
Qed.

Lemma tags_by_id_distinct (state : game_state) :
  Forall (has_entity_id defs) state ->
  distinct_ids defs state ->
  tags_by_id defs state = Ok (map (id_binding defs) state).
Proof.
  intros Hids Hdist. unfold tags_by_id.
  now rewrite (tags_by_id_distinct_fold state [] Hids Hdist (List.Forall_nil _)).
Qed.

Lemma id_get_distinct (state : game_state) (e : entity) :
  distinct_ids defs state -> In e state ->
  id_get (map (id_binding defs) state) (fst (id_binding defs e))
  = Some (snd (id_binding defs e)).
Proof.
  induction state as [|e0 state IH]; intros Hdist Hin; [destruct Hin|].
  destruct Hdist as [Hfresh Hdist]. cbn [map].
  rewrite (surjective_pairing (id_binding defs e0)). cbn [id_get].
  destruct Hin as [-> | Hin].
  - now rewrite py_eq_refl.
  - rewrite List.Forall_forall in Hfresh. rewrite (Hfresh e Hin). auto.
Qed.

(** The tags of the new dictionary that differ, gathered key by key. *)
Lemma changed_tags_fold (t t' : dict) (ks : list string) :
  forall acc,
    (forall k, In k ks -> In k (dict_keys t')) ->
    exists acc',
      foldM (fun entity_difference key =>
               b <- py_and (Ok (dict_mem t key))
                      (x <- subscript t key ;; y <- subscript t' key ;; Ok (py_eq x y)) ;;
               if (b : bool) then Ok entity_difference
               else y <- subscript t' key ;; Ok (dict_set entity_difference key y))
            ks acc = Ok acc' /\
      (forall k, dict_get acc' k =
                 if existsb (String.eqb k) ks && tag_differs t t' k
                 then dict_get t' k else dict_get acc k) /\
      (acc' = [] <-> acc = [] /\ existsb (tag_differs t t') ks = false).
Proof.
  induction ks as [|k0 ks IH]; intros acc Hks; cbn [foldM existsb].
  - exists acc. split; [reflexivity|]. split; [reflexivity | tauto].
  - destruct (dict_keys_get t' k0 (Hks k0 (or_introl eq_refl))) as [y Hy].
    assert (Hb : py_and (Ok (dict_mem t k0))
                   (x <- subscript t k0 ;; y <- subscript t' k0 ;; Ok (py_eq x y))
                 = Ok (negb (tag_differs t t' k0))).
    { unfold py_and, dict_mem, subscript, tag_differs. rewrite Hy.
      destruct (dict_get t k0); cbn; [|reflexivity]. now rewrite negb_involutive. }
    rewrite Hb. cbn [bind].
    assert (Hks' : forall k, In k ks -> In k (dict_keys t')) by (intros; apply Hks; now right).
    destruct (tag_differs t t' k0) eqn:Hd; cbn [negb].
    + unfold subscript at 1. rewrite Hy. cbn [bind].
      destruct (IH (dict_set acc k0 y) Hks') as (acc' & Hrun & Hget & Hnil).
      exists acc'. split; [exact Hrun|]. split.
      * intros k. rewrite Hget, dict_get_set.
        destruct (String.eqb_spec k k0) as [-> | Hne].
        -- rewrite String.eqb_refl, Hd, Hy. cbn.
           now destruct (existsb (String.eqb k0) ks).
        -- destruct (String.eqb_spec k0 k); [congruence | reflexivity].
      * split; [|intros [_ H]; discriminate].
        intros H. apply Hnil in H as [H _]. now apply dict_set_not_nil in H.
    + destruct (IH acc Hks') as (acc' & Hrun & Hget & Hnil).
      exists acc'. split; [exact Hrun|]. split; [|exact Hnil].
      intros k. rewrite Hget.
      destruct (String.eqb_spec k k0) as [-> | Hne]; [|reflexivity].
      rewrite Hd. cbn. now rewrite !andb_false_r.
Qed.

Lemma changed_tags_spec (t t' : dict) :
  exists diff,
    changed_tags t t' = Ok diff /\
    (forall k, dict_get diff k = if tag_differs t t' k then dict_get t' k else None) /\
    (diff = [] <-> existsb (tag_differs t t') (dict_keys t') = false).
Proof.
  destruct (changed_tags_fold t t' (dict_keys t') [] (fun _ H => H))
    as (diff & Hrun & Hget & Hnil).
  exists diff. split; [exact Hrun|]. split; [|tauto].
  intros k. rewrite Hget. cbn [dict_get].
  destruct (tag_differs t t' k) eqn:Hd; [|now rewrite andb_false_r].
  rewrite andb_true_r. destruct (existsb (String.eqb k) (dict_keys t')) eqn:Hex;
    [reflexivity|].
  unfold tag_differs in Hd. destruct (dict_get t' k) as [y|] eqn:Hy; [|discriminate].
  apply dict_get_keys in Hy.
  assert (Htrue : existsb (String.eqb k) (dict_keys t') = true).
  { apply existsb_exists. exists k. split; [exact Hy | apply String.eqb_refl]. }
  congruence.
Qed.

Lemma has_entity_id_binding (e : entity) :
  has_entity_id defs e ->
  exists i t,
    tags e = Some t /\ dict_get t (py_str (GAME_TAG_ENTITY_ID defs)) = Some i /\
    hashable i = true /\ entity_id defs e = Some i /\ id_binding defs e = (i, t).
Proof.
  intros (i & Hi & Hh). unfold id_binding. rewrite Hi. unfold entity_id in *.
  destruct (tags e) as [t|]; [|discriminate]. exists i, t. auto.
Qed.

(** The loop over the ids of the next state: one entry for each entity that
    is reported, in order. *)
Lemma difference_fold (D D' : id_dict) (s : game_state) :
  (forall k, hashable k = true -> id_get D k = tags_of_id defs s k) ->
  forall todo acc,
    (forall e', In e' todo ->
                has_entity_id defs e' /\
                id_get D' (fst (id_binding defs e')) = Some (snd (id_binding defs e'))) ->
    exists entries,
      foldM (difference_step defs D D') (map (fun e => fst (id_binding defs e)) todo) acc
      = Ok (acc ++ entries) /\
      Forall2 (entry_of defs s) (List.filter (reported defs s) todo) entries.
Proof.
  intros HD. induction todo as [|e' todo IH]; intros acc Htodo.
  - exists []. split; [cbn; now rewrite app_nil_r | constructor].
  - destruct (Htodo e' (or_introl eq_refl)) as [He' HD'].
    destruct (has_entity_id_binding e' He') as (i & t' & Ht' & Hi & Hh & Hid & Hb).
    assert (Htodo' : forall e0, In e0 todo ->
                                has_entity_id defs e0 /\
                                id_get D' (fst (id_binding defs e0))
                                = Some (snd (id_binding defs e0)))
      by (intros; apply Htodo; now right).
    cbn [map foldM List.filter]. unfold reported at 1, difference_step at 1, id_subscript.
    rewrite Hb in *. cbn [fst snd] in *. rewrite HD', (HD i Hh).
    destruct (tags_of_id defs s i) as [t|] eqn:Ht; cbn [bind].
    + destruct (changed_tags_spec t t') as (diff & Hrun & Hdiff & Hnil).
      rewrite Hrun. cbn [bind].
      destruct diff as [|kv diff].
      * rewrite (proj1 Hnil eq_refl). cbn. apply IH, Htodo'.
      * destruct (existsb (tag_differs t t') (dict_keys t')) eqn:Hex;
          [|discriminate (proj2 Hnil eq_refl)].
        cbn [List.length Nat.ltb Nat.leb].
        destruct (IH (acc ++ [dict_set (kv :: diff) (py_str (GAME_TAG_ENTITY_ID defs)) i])
                     Htodo') as (entries & Hrun' & Hentries).
        eexists (_ :: entries).
        split; [cbn [bind]; rewrite Hrun'; now rewrite <- app_assoc|].
        constructor; [|exact Hentries].
        intros k. rewrite dict_get_set, Hid, Hb. cbn [fst snd]. rewrite Ht.
        destruct (String.eqb _ k); [reflexivity | apply Hdiff].
    + destruct t' as [|kv t']; [discriminate|].
      cbn [List.length Nat.ltb Nat.leb].
      destruct (IH (acc ++ [dict_set (kv :: t') (py_str (GAME_TAG_ENTITY_ID defs)) i])
                   Htodo') as (entries & Hrun' & Hentries).
      eexists (_ :: entries).
      split; [cbn [bind]; rewrite Hrun'; now rewrite <- app_assoc|].
      constructor; [|exact Hentries].
      intros k. rewrite dict_get_set, Hid, Hb. cbn [fst snd]. rewrite Ht.
      now destruct (String.eqb _ k).
Qed.

End DifferenceProperties.

(** ** [preprocess_input] *)

Lemma chars_app (a b : string) : chars (a ++ b) = (chars a ++ chars b)%list.
Proof. induction a as [|c a IH]; cbn; [reflexivity | now rewrite IH]. Qed.

(** A replacement brings no character but those of [new]. *)
Lemma replace_from_chars (old new s : string) (c : ascii) :
  forall skip,
    In c (chars (replace_from old new s skip)) -> In c (chars s) \/ In c (chars new).
Proof.
  induction s as [|c0 s IH]; intros skip H; cbn [replace_from chars] in H; [tauto|].
  destruct skip as [|k].
  - destruct (String.prefix old (String c0 s)); cbn [chars] in H.
    + rewrite chars_app in H. apply in_app_or in H as [H | H]; [now right|].
      destruct (IH _ H); [left; now right | now right].
    + destruct H as [<- | H]; [left; now left|].
      destruct (IH _ H); [left; now right | now right].
  - destruct (IH _ H); [left; now right | now right].
Qed.

Lemma interleave_chars (new s : string) (c : ascii) :
  In c (chars (interleave new s)) -> In c (chars s) \/ In c (chars new).
Proof.
  induction s as [|c0 s IH]; cbn [interleave chars]; [tauto|].
  rewrite chars_app. intros H. apply in_app_or in H as [H | H]; [now right|].
  cbn [chars] in H. destruct H as [<- | H]; [left; now left|].
  destruct (IH H); [left; now right | now right].
Qed.

Lemma replace_free (old new s : string) (c : ascii) :
  free_of c s -> free_of c new -> free_of c (replace old new s).
Proof.
  unfold free_of, replace. intros Hs Hn H. destruct old as [|a old].
  - apply interleave_chars in H. tauto.
  - apply replace_from_chars in H. tauto.
Qed.

(** Replacing a character removes it. *)
Lemma replace_char_free (new s : string) (c : ascii) :
  free_of c new -> free_of c (replace (String c EmptyString) new s).
Proof.
  unfold free_of, replace. intros Hn.
  induction s as [|c0 s IH]; cbn [replace_from chars String.prefix String.length]; [tauto|].
  destruct (ascii_dec c c0) as [<- | Hne].
  - assert (Hp : String.prefix "" s = true) by now destruct s.
    rewrite Hp. change (1 - 1)%nat with 0%nat.
    rewrite chars_app. intros H. apply in_app_or in H as [H | H]; tauto.
  - cbn [chars]. intros [H | H]; [congruence | tauto].
Qed.

Lemma re_sub_tags_from_chars (s : string) (c : ascii) :
  forall skip, In c (chars (re_sub_tags_from s skip)) -> In c (chars s).
Proof.
  induction s as [|c0 s IH]; intros skip H; cbn in H; [tauto|].
  destruct skip as [|k]; [|right; eauto].
  destruct (char_eqb c0 "<").
  - destruct (find_close s); [right; eauto|].
    destruct H as [<- | H]; [now left | right; eauto].
  - destruct H as [<- | H]; [now left | right; eauto].
Qed.

Lemma re_sub_tags_free (s : string) (c : ascii) :
  free_of c s -> free_of c (re_sub_tags s).
Proof. unfold free_of, re_sub_tags. intros Hs H. now apply re_sub_tags_from_chars in H. Qed.

Lemma chars_lower (s : string) : chars (lower s) = map lower_char (chars s).
Proof. induction s as [|c s IH]; cbn; [reflexivity | now rewrite IH]. Qed.

Lemma lower_char_cases (c : ascii) :
  (is_upper c = true /\ is_lower (lower_char c) = true) \/
  (is_upper c = false /\ lower_char c = c).
Proof.
  unfold lower_char. destruct (is_upper c) eqn:Hu; [left | right; auto].
  split; [reflexivity|]. unfold is_upper, is_lower in *. cbv zeta in *.
  apply andb_true_iff in Hu as [H1 H2].
  apply Nat.leb_le in H1. apply Nat.leb_le in H2.
  rewrite nat_ascii_embedding by (unfold lt; lia).
  apply andb_true_iff. split; apply Nat.leb_le; lia.
Qed.

Lemma lower_char_not_upper (c : ascii) : is_upper (lower_char c) = false.
Proof.
  destruct (lower_char_cases c) as [[_ H] | [Hu ->]]; [|exact Hu].
  unfold is_upper, is_lower in *. cbv zeta in *. apply andb_true_iff in H as [H1 H2].
  apply Nat.leb_le in H1. apply andb_false_iff. right. apply Nat.leb_gt. lia.
Qed.

Lemma lower_free (s : string) (c : ascii) :
  is_lower c = false -> free_of c s -> free_of c (lower s).
Proof.
  unfold free_of. intros Hc Hs H. rewrite chars_lower in H.
  apply in_map_iff in H as (x & Hx & Hin).
  destruct (lower_char_cases x) as [[_ Hl] | [_ Heq]]; congruence.
Qed.

Lemma lower_idempotent (s : string) : lower (lower s) = lower s.
Proof.
  induction s as [|c s IH]; cbn; [reflexivity|]. rewrite IH. f_equal.
  unfold lower_char at 1. now rewrite lower_char_not_upper.
Qed.

Lemma fold_replace_free (f : string -> string) (l : list string) (c : ascii) :
  forall s, free_of c s ->
            free_of c (fold_left (fun ret x => replace (f x) "" ret) l s).
Proof.
  induction l as [|x l IH]; intros s Hs; cbn; [exact Hs|].
  apply IH, replace_free; [exact Hs | unfold free_of; cbn; tauto].
Qed.

(** A character that is not the space does not occur in [" "]. *)
Ltac free_of_space :=
  unfold free_of; cbn; intros [H|[]]; vm_compute in H; discriminate.

(** After the loop over [removals], the removed characters are gone. *)
Lemma removals_free (s : string) (c : ascii) :
  In (String c EmptyString) removals ->
  free_of c (fold_left (fun ret removal => replace removal "" ret) removals s).
Proof.
  generalize removals. intros l. revert s.
  induction l as [|x l IH]; intros s Hin; [destruct Hin|]. cbn [fold_left].
  destruct (in_dec string_dec (String c EmptyString) l) as [Hl | Hl]; [now apply IH|].
  destruct Hin as [-> | Hin]; [|contradiction].
  apply (fold_replace_free (fun x => x)), replace_char_free.
  unfold free_of; cbn; tauto.
Qed.

(** C9. A consecutive pair whose action's type is [END_TURN] yields no
    tuple, and the decay factor is advanced at every pair, skipped or not:
    the tuples returned are exactly those of the rows whose action is not
    [END_TURN], and the reward of the tuple of the row of index [i] in the
    full sequence is [result * decay_factor_at i], whatever the number of
    tuples before it. *)
Theorem end_turn_pairs_skipped_decay_advanced (defs : definitions) (data : trajectory) :
  Forall (fun row => exists ty, action_type (snd (fst (fst (fst row)))) = Ok ty)
         (collate_rows data) ->
  exists out,
    collate_sequence_data defs data = Ok out /\
    forall t,
      In t out <->
      exists i row,
        collate_rows data !! i = Some row /\
        is_end_turn defs (snd (fst (fst (fst row)))) = false /\
        t = transition_of (metadata_result data) i row.
Proof.
  intros Htyped.
  destruct (collate_sequence_data_total defs data Htyped) as [out Hout].
  exists out. split; [exact Hout|].
  apply collate_sequence_data_spec in Hout. subst out. intros t.
  rewrite in_map_iff. split.
  - intros [[i row] [<- Hin]]. apply filter_In in Hin as [Hin Hk].
    apply In_indexed in Hin as [_ Hrow]. rewrite Nat.sub_0_r in Hrow.
    exists i, row. repeat split; [exact Hrow|].
    unfold row_kept in Hk. cbn [snd] in Hk. now apply negb_true_iff in Hk.
  - intros (i & row & Hrow & Hk & ->). exists (i, row). split; [reflexivity|].
    apply filter_In. split.
    + apply In_indexed. split; [lia|]. now rewrite Nat.sub_0_r.
    + unfold row_kept. cbn [snd]. now rewrite Hk.
Qed.

Lemma end_turn_pairs_skipped_decay_advanced_witness :
  Forall (fun row => exists ty, action_type (snd (fst (fst (fst row)))) = Ok ty)
         (collate_rows sample_trajectory) /\
  exists out,
    collate_sequence_data sample_defs sample_trajectory = Ok out /\
    forall t,
      In t out <->
      exists i row,
        collate_rows sample_trajectory !! i = Some row /\
        is_end_turn sample_defs (snd (fst (fst (fst row)))) = false /\
        t = transition_of (metadata_result sample_trajectory) i row.
Proof.
  assert (H : Forall (fun row => exists ty, action_type (snd (fst (fst (fst row)))) = Ok ty)
                     (collate_rows sample_trajectory)).
  { repeat (constructor; [eexists; reflexivity|]). constructor. }
  split; [exact H|].
  exact (end_turn_pairs_skipped_decay_advanced sample_defs sample_trajectory H).
Defined.

(** C4, amended. With [n] states, [n] actions and [n] options, whose first
    [n-1] actions have a type, [collate_sequence_data] returns one tuple for
    every consecutive pair whose action's type is not [END_TURN], in order,
    the tuple of pair [i] being
    [(state_i, action_i, state_{i+1}, reward_i, option_i, option_{i+1})];
    when no such action ends the turn, these are [n-1] tuples, the [i]-th
    that of pair [i]. *)
Theorem collate_sequence_data_pairs (defs : definitions) (data : trajectory) (n : nat) :
  List.length (seq_state (data_sequence data)) = n ->
  List.length (seq_action (data_sequence data)) = n ->
  List.length (seq_option (data_sequence data)) = n ->
  (forall i, (i < n - 1)%nat ->
             exists ty, action_type (nth i (seq_action (data_sequence data)) []) = Ok ty) ->
  exists out,
    collate_sequence_data defs data = Ok out /\
    out = map (pair_transition data) (retained defs data n) /\
    ((forall i, (i < n - 1)%nat ->
                is_end_turn defs (nth i (seq_action (data_sequence data)) []) = false) ->
     List.length out = (n - 1)%nat /\
     forall i, (i < n - 1)%nat -> out !! i = Some (pair_transition data i)).
Proof.
  intros Hs Ha Ho Hty.
  destruct (collate_sequence_data_total defs data
              (collate_rows_typed data n Hs Ha Ho Hty)) as [out Hout].
  exists out. split; [exact Hout|].
  apply (collate_sequence_data_retained defs data n out Hs Ha Ho) in Hout.
  split; [exact Hout|]. intros Hno.
  assert (Hall : retained defs data n = seq 0 (n - 1)).
  { unfold retained. apply filter_all. intros i Hi. apply in_seq in Hi.
    rewrite Hno by lia. reflexivity. }
  rewrite Hall in Hout. subst out. split.
  - now rewrite length_map, length_seq.
  - intros i Hi. rewrite list_lookup_fmap, lookup_seq_lt by exact Hi. reflexivity.
Qed.

Lemma collate_sequence_data_pairs_witness :
  exists out,
    collate_sequence_data sample_defs sample_trajectory_no_end_turn = Ok out /\
    out = map (pair_transition sample_trajectory_no_end_turn)
              (retained sample_defs sample_trajectory_no_end_turn 4) /\
    ((forall i, (i < 4 - 1)%nat ->
                is_end_turn sample_defs
                  (nth i (seq_action (data_sequence sample_trajectory_no_end_turn)) [])
                = false) ->
     List.length out = (4 - 1)%nat /\
     forall i, (i < 4 - 1)%nat ->
               out !! i = Some (pair_transition sample_trajectory_no_end_turn i)).
Proof.
  apply (collate_sequence_data_pairs sample_defs sample_trajectory_no_end_turn 4);
    try reflexivity.
  intros i Hi.
  destruct i as [|[|[|i]]]; [eexists; reflexivity .. | simpl in Hi; lia].
Defined.

(** C4 as stated fails: of the three consecutive pairs of four states, the
    one whose action ends the turn has no tuple. *)
Lemma collate_sequence_data_pairs_counterexample :
  List.length (seq_state (data_sequence sample_trajectory)) = 4%nat /\
  List.length (seq_action (data_sequence sample_trajectory)) = 4%nat /\
  List.length (seq_option (data_sequence sample_trajectory)) = 4%nat /\
  exists out,
    collate_sequence_data sample_defs sample_trajectory = Ok out /\
    List.length out = 2%nat /\
    List.length out <> (4 - 1)%nat /\
    out !! 1%nat <> Some (pair_transition sample_trajectory 1).
Proof.
  repeat (split; [reflexivity|]).
  eexists. split; [reflexivity|].
  split; [reflexivity|]. split; [discriminate|].
  cbn. intros H. injection H. intros. discriminate.
Qed.

(** C1, the code at a trajectory of four states and result 1: the rewards
    of its three pairs are 0.9, 0.9^2 and 0.9^4, not 0.9^3.  In general the
    reward of the tuple of the pair of index [i] is
    [result * 0.9 ^ (2 ^ i)]: the decay factor is squared at every pair. *)
Theorem collate_sequence_data_reward_squared :
  (forall defs data,
      match collate_sequence_data defs data with
      | Ok out =>
          Forall (fun t =>
                    exists i row,
                      collate_rows data !! i = Some row /\
                      t = transition_of (metadata_result data) i row /\
                      (reward_of t == metadata_result data * (9 # 10) ^ Z.of_nat (2 ^ i))%Q)
                 out
      | Err _ => True
      end) /\
  exists out,
    collate_sequence_data sample_defs sample_trajectory_no_end_turn = Ok out /\
    map reward_of out = [9 # 10; 81 # 100; 6561 # 10000] /\
    ~ (nth 2 (map reward_of out) 0 == 1 * (9 # 10) ^ 3)%Q.
Proof.
  split.
  - intros defs data.
    destruct (collate_sequence_data defs data) as [out|x] eqn:H; [|exact I].
    apply collate_sequence_data_spec in H. subst out.
    apply List.Forall_forall. intros t Ht.
    apply in_map_iff in Ht as ([i row] & <- & Hin).
    apply filter_In in Hin as [Hin _]. apply In_indexed in Hin as [_ Hrow].
    rewrite Nat.sub_0_r in Hrow. exists i, row. cbn [fst snd].
    split; [exact Hrow|]. split; [reflexivity|].
    destruct row as [[[[s a] ns] o] no]. cbn [transition_of reward_of].
    now rewrite decay_factor_at_closed_form.
  - eexists. split; [vm_compute; reflexivity|]. split; [reflexivity|].
    cbn. unfold Qeq. cbn. discriminate.
Qed.

(** X6. Whenever [preprocess_state] returns, it has kept exactly the entities
    whose name, description and id are non-empty, whose id is not [None],
    and whose [ZONE] tag, when present, is [SECRET], [HAND] or [PLAY]: what
    it returns are, in the order of the state, the processed copies of these
    entities and of no other. *)
Lemma preprocess_state_keeps (defs : definitions) (state : game_state)
    (option : options) (strip : bool) (out : game_state) :
  preprocess_state defs state option strip = Ok out ->
  exists operable,
    operable_of option = Ok operable /\
    Forall2 (fun e e' =>
               exec (process_entity defs strip operable) (deepcopy e) = Ok e' /\
               card_description e' = card_description e /\
               other_fields e' = other_fields e)
            (List.filter (kept defs) state) out.
Proof.
  unfold preprocess_state. intros H.
  inv_bind H as operable Hop. inv_bind H as ks Hks.
  exists operable. split; [exact Hop|].
  apply (filterM_filter _ (kept defs)) in Hks; [|apply removed_kept]. subst ks.
  apply mapM_Forall2 in H. eapply Forall2_impl; [exact H|].
  cbn beta. intros e e' He. split; [exact He|].
  apply exec_Ok in He.
  now apply (process_entity_frame defs strip operable
               (card_description e) (other_fields e)) in He.
Qed.

Lemma preprocess_state_keeps_example :
  preprocess_state sample_defs [sample_deck_card; sample_minion] sample_options false
  = Ok sample_full_state /\
  exists operable,
    operable_of sample_options = Ok operable /\
    Forall2 (fun e e' =>
               exec (process_entity sample_defs false operable) (deepcopy e) = Ok e' /\
               card_description e' = card_description e /\
               other_fields e' = other_fields e)
            (List.filter (kept sample_defs) [sample_deck_card; sample_minion])
            sample_full_state.
Proof.
  assert (H : preprocess_state sample_defs [sample_deck_card; sample_minion]
                sample_options false = Ok sample_full_state)
    by (vm_compute; reflexivity).
  split; [exact H|].
  exact (preprocess_state_keeps sample_defs [sample_deck_card; sample_minion]
           sample_options false sample_full_state H).
Defined.

(** C5, the code at an entity whose [card_id] is [None]: the comprehension
    takes [len(entity["card_id"])] before it tests [entity["card_id"] is None],
    so such an entity, which is not one to keep, is not removed:
    [preprocess_state] raises [TypeError], unless the entity's name or
    description is empty. *)
Theorem preprocess_state_card_id_None :
  (forall defs e,
      match card_id e, removed defs e with
      | Some JNull, Ok b =>
          b = true /\ nonempty (card_name e) && nonempty (card_description e) = false
      | _, _ => True
      end) /\
  kept sample_defs sample_no_card_id = false /\
  removed sample_defs sample_no_card_id = Err TypeError /\
  preprocess_state sample_defs [sample_minion; sample_no_card_id] sample_options true
  = Err TypeError.
Proof.
  split; [|split; [|split]]; try (vm_compute; reflexivity).
  intros defs e. destruct (card_id e) as [[]|] eqn:Hid; try exact I.
  unfold removed. rewrite Hid.
  destruct (len_is_0 (card_name e)) as [[|]|x] eqn:Hn; cbn; try exact I.
  { apply len_is_0_nonempty in Hn. rewrite Hn. auto. }
  destruct (len_is_0 (card_description e)) as [[|]|x] eqn:Hd; cbn; try exact I.
  apply len_is_0_nonempty in Hd. rewrite Hd. split; [reflexivity | apply andb_false_r].
Qed.

(** C6. Every entity that [preprocess_state] returns with [strip=True] has
    no [card_id], [card_name] or [tags], and the keys of its [named_tags]
    are names of the twelve tags of [scope] or of [TAG_READY]. *)
Theorem preprocess_state_strip_schema (defs : definitions) (state : game_state)
    (option : options) (out : game_state) :
  preprocess_state defs state option true = Ok out ->
  List.length (scope defs) = 12%nat /\ Forall (stripped defs) out.
Proof.
  intros H. split; [reflexivity|]. unfold preprocess_state in H.
  inv_bind H as operable Hop. inv_bind H as ks Hks.
  apply mapM_Forall2 in H. clear Hks.
  induction H as [|e e' l l' He Hl IH]; constructor; try exact IH.
  apply exec_Ok in He. now apply (process_entity_stripped defs operable) in He.
Qed.

Lemma preprocess_state_strip_schema_witness :
  preprocess_state sample_defs [sample_deck_card; sample_minion] sample_options true
  = Ok sample_stripped_state /\
  List.length (scope sample_defs) = 12%nat /\
  Forall (stripped sample_defs) sample_stripped_state.
Proof.
  assert (H : preprocess_state sample_defs [sample_deck_card; sample_minion]
                sample_options true = Ok sample_stripped_state)
    by (vm_compute; reflexivity).
  split; [exact H|].
  exact (preprocess_state_strip_schema sample_defs [sample_deck_card; sample_minion]
           sample_options sample_stripped_state H).
Defined.

(** C2, the code with [difference=True]: [preprocess_state] pops [tags]
    from every entity it returns, whatever [strip] is, so the lookup of
    [entity["tags"]] in [calculate_difference] raises [KeyError] as soon as
    one entity is kept.  No difference is ever returned but the empty one,
    of two states of which nothing is kept. *)
Theorem model_input_difference_KeyError (defs : definitions) :
  (forall t : transition,
      match model_input defs true t with
      | Ok (_, inl d) =>
          d = [] /\
          preprocess_state defs (fst (fst (fst (fst (fst t))))) (snd (fst t)) false = Ok [] /\
          preprocess_state defs (snd (fst (fst (fst t)))) (snd t) false = Ok []
      | Ok (_, inr _) => False
      | Err _ => True
      end) /\
  model_input sample_defs true
    ([sample_minion], sample_play, [sample_minion], 9 # 10, sample_options, sample_options)
  = Err KeyError /\
  (exists full_state,
      preprocess_state sample_defs [sample_minion] sample_options false = Ok full_state /\
      Forall (fun e => tags e = None) full_state /\
      calculate_difference sample_defs full_state full_state = Err KeyError).
Proof.
  split; [|split].
  - intros [[[[[state action] next_state] reward] option] next_option].
    cbn [fst snd]. unfold model_input.
    destruct (preprocess_state defs state option true) as [s|x]; cbn [bind]; [|exact I].
    destruct (preprocess_state defs next_state next_option false) as [fn|x] eqn:Hn;
      cbn [bind]; [|exact I].
    destruct (preprocess_state defs state option false) as [fs|x] eqn:Hs;
      cbn [bind]; [|exact I].
    rewrite (calculate_difference_no_tags defs fs fn
               (preprocess_state_no_tags defs _ _ _ _ Hs)
               (preprocess_state_no_tags defs _ _ _ _ Hn)).
    destruct fs, fn; cbn [bind]; auto.
  - vm_compute. reflexivity.
  - exists sample_full_state. split; [vm_compute; reflexivity|].
    split; [repeat constructor | vm_compute; reflexivity].
Qed.

(** C10. [preprocess_state] does not change its arguments: the objects of
    the store before the call, the entities of the input state among them,
    are the same after it, whether it returns or raises; the entities it
    returns are new objects, the deep copies.  (The state list and the
    option list are only read: the model passes them by value.) *)
Theorem preprocess_state_st_frame (defs : definitions) (state : list loc)
    (option : options) (strip : bool) (h : store) :
  let '(r, h') := preprocess_state_st defs state option strip h in
  take (List.length h) h' = h /\
  Forall (fun l => forall e, h !! l = Some e -> h' !! l = Some e) state /\
  match r with
  | Ok ls => Forall (fun l => (List.length h <= l < List.length h')%nat) ls
  | Err _ => True
  end.
Proof.
  destruct (preprocess_state_st defs state option strip h) as [r h'] eqn:H.
  assert (Hframe : take (List.length h) h' = h /\
                   match r with
                   | Ok ls => Forall (fun l => (List.length h <= l < List.length h')%nat) ls
                   | Err _ => True
                   end).
  { unfold preprocess_state_st in H. unfold st_bind at 1 in H. unfold st_lift in H.
    destruct (operable_of option) as [operable|x].
    2:{ injection H as <- <-. split; [apply firstn_all | exact I]. }
    unfold st_bind at 1 in H.
    destruct (copy_kept defs state h) as [[ls|x] h1] eqn:Hc;
      apply copy_kept_fresh in Hc as (ext & -> & Hls).
    2:{ injection H as <- <-. split; [apply take_app_length | exact I]. }
    specialize (Hls ls eq_refl). unfold st_bind in H.
    assert (Hfresh : Forall (fun l => (List.length h <= l)%nat) ls).
    { subst ls. apply List.Forall_forall. intros l Hl. apply in_seq in Hl. lia. }
    destruct (st_for ls _ (h ++ ext)) as [[[]|x] h2] eqn:Hf;
      apply (st_for_at_frame _ (List.length h) ls Hfresh) in Hf as [Htake Hlen];
      injection H as <- <-; rewrite Htake, take_app_length; (split; [reflexivity|]);
      [|exact I].
    subst ls. apply List.Forall_forall. intros l Hl. apply in_seq in Hl.
    rewrite Hlen, length_app. lia. }
  destruct Hframe as [Htake Hr]. split; [exact Htake|]. split; [|exact Hr].
  apply List.Forall_forall. intros l _ e He.
  rewrite <- Htake in He. apply lookup_take_Some in He as [He _]. exact He.
Qed.

(** C8. The difference of a state with itself is empty: when every entity
    has a tag dictionary that holds an [ENTITY_ID],
    [calculate_difference(s, s)] returns the empty list. *)
Theorem calculate_difference_same (defs : definitions) (s : game_state) :
  Forall (has_entity_id defs) s ->
  calculate_difference defs s s = Ok [].
Proof.
  intros H. unfold calculate_difference.
  destruct (tags_by_id_total defs s H) as [D HD]. rewrite HD. cbn [bind].
  apply difference_same. auto.
Qed.

Lemma calculate_difference_same_witness :
  Forall (has_entity_id sample_defs) [sample_minion; sample_deck_card; sample_minion] /\
  calculate_difference sample_defs [sample_minion; sample_deck_card; sample_minion]
    [sample_minion; sample_deck_card; sample_minion] = Ok [].
Proof.
  assert (H : Forall (has_entity_id sample_defs)
                     [sample_minion; sample_deck_card; sample_minion]).
  { repeat (constructor; [eexists; split; reflexivity|]). constructor. }
  split; [exact H|].
  exact (calculate_difference_same sample_defs _ H).
Defined.

(** C3, amended. For states whose entities have a tag dictionary with an
    [ENTITY_ID], those of [s'] pairwise distinct, [calculate_difference(s, s')]
    has exactly one entry for each entity of [s'] that is absent from [s]
    (matched by [ENTITY_ID]) or has a tag added or changed relative to the
    entity of [s] with its id, in the order of [s']; the entry holds exactly
    those tags and the entity's [ENTITY_ID]; every entry is that of an
    entity of [s'], so an entity that only [s] has contributes none. *)
Theorem calculate_difference_entries (defs : definitions) (s s' : game_state) :
  Forall (has_entity_id defs) s ->
  Forall (has_entity_id defs) s' ->
  distinct_ids defs s' ->
  exists out,
    calculate_difference defs s s' = Ok out /\
    Forall2 (entry_of defs s) (List.filter (reported defs s) s') out /\
    Forall (fun entry =>
              exists e', In e' s' /\
                         dict_get entry (py_str (GAME_TAG_ENTITY_ID defs)) = entity_id defs e')
           out.
Proof.
  intros Hs Hs' Hdist. unfold calculate_difference.
  destruct (tags_by_id_total defs s Hs) as [D HD]. rewrite HD. cbn [bind].
  apply tags_by_id_spec in HD as [_ HD].
  rewrite (tags_by_id_distinct defs s' Hs' Hdist). cbn [bind].
  unfold id_keys. rewrite map_map.
  destruct (difference_fold defs D (map (id_binding defs) s') s HD s' [])
    as (out & Hrun & Hout).
  { intros e' Hin. rewrite List.Forall_forall in Hs'. split; [now apply Hs'|].
    now apply id_get_distinct. }
  exists out. split; [exact Hrun|]. split; [exact Hout|].
  assert (Hsub : forall e', In e' (List.filter (reported defs s) s') -> In e' s')
    by (intros e' H; now apply filter_In in H).
  clear Hrun. induction Hout as [|e' entry l out He Hout IH]; constructor.
  - exists e'. split; [apply Hsub; now left|]. rewrite (He _). now rewrite String.eqb_refl.
  - apply IH. intros e0 H0. apply Hsub. now right.
Qed.

Lemma calculate_difference_entries_witness :
  exists out,
    calculate_difference sample_defs [sample_minion]
      [sample_minion_damaged; sample_deck_card] = Ok out /\
    Forall2 (entry_of sample_defs [sample_minion])
            (List.filter (reported sample_defs [sample_minion])
                         [sample_minion_damaged; sample_deck_card]) out /\
    Forall (fun entry =>
              exists e', In e' [sample_minion_damaged; sample_deck_card] /\
                         dict_get entry (py_str (GAME_TAG_ENTITY_ID sample_defs))
                         = entity_id sample_defs e')
           out.
Proof.
  apply (calculate_difference_entries sample_defs [sample_minion]
           [sample_minion_damaged; sample_deck_card]).
  - repeat (constructor; [eexists; split; reflexivity|]). constructor.
  - repeat (constructor; [eexists; split; reflexivity|]). constructor.
  - cbn. repeat split; repeat constructor.
Defined.

(** C3 as stated fails when two entities of [s'] have one [ENTITY_ID]: both
    are absent from [s], and there is one entry, not one for each. *)
Lemma calculate_difference_entries_counterexample :
  Forall (has_entity_id sample_defs) [sample_minion; sample_minion_damaged] /\
  List.filter (reported sample_defs []) [sample_minion; sample_minion_damaged]
  = [sample_minion; sample_minion_damaged] /\
  calculate_difference sample_defs [] [sample_minion; sample_minion_damaged]
  = Ok [[("53", JStr "7"); ("49", JStr "1"); ("45", JStr "3"); ("47", JStr "4");
         ("12", JStr "1")]] /\
  ~ (forall out,
        calculate_difference sample_defs [] [sample_minion; sample_minion_damaged] = Ok out ->
        Forall2 (entry_of sample_defs [])
                (List.filter (reported sample_defs []) [sample_minion; sample_minion_damaged])
                out).
Proof.
  split; [repeat (constructor; [eexists; split; reflexivity|]); constructor|].
  split; [vm_compute; reflexivity|].
  assert (H : calculate_difference sample_defs [] [sample_minion; sample_minion_damaged]
              = Ok [[("53", JStr "7"); ("49", JStr "1"); ("45", JStr "3"); ("47", JStr "4");
                     ("12", JStr "1")]])
    by (vm_compute; reflexivity).
  split; [exact H|].
  intros Hall. specialize (Hall _ H). apply Forall2_length in Hall.
  vm_compute in Hall. discriminate.
Qed.

(** C7. Whatever text [json.dumps] returns for the item, the string that
    [preprocess_input] returns has no upper-case letter (lowering it again
    changes nothing) and none of the characters double quote, single quote,
    braces, brackets, colon and comma. *)
Theorem preprocess_input_lowercase_stripped {A : Type} (json_dumps : A -> string)
    (item : A) :
  Forall (fun c => is_upper c = false) (chars (preprocess_input json_dumps item)) /\
  lower (preprocess_input json_dumps item) = preprocess_input json_dumps item /\
  Forall (fun c => free_of c (preprocess_input json_dumps item)) punctuation.
Proof.
  unfold preprocess_input. split; [|split].
  - rewrite chars_lower. apply List.Forall_forall. intros c Hc.
    apply in_map_iff in Hc as (x & <- & _). apply lower_char_not_upper.
  - apply lower_idempotent.
  - unfold punctuation.
    repeat (constructor;
            [repeat first
               [ apply lower_free; [reflexivity|]
               | apply re_sub_tags_free
               | apply replace_char_free; free_of_space
               | apply replace_free; [|free_of_space]
               | apply (fold_replace_free (fun keyword => (keyword ++ ":")%string))
               | apply removals_free; unfold removals; cbn [In]; auto 10 ]|]).
    constructor.
Qed.

(** * Further properties of the code *)

(** ** [collate_sequence_data]: short and ragged sequences, errors *)

Lemma zip5_length {A B C D E : Type} (a : list A) :
  forall (b : list B) (c : list C) (d : list D) (e : list E),
    (List.length (zip5 a b c d e) <= List.length a)%nat /\
    (List.length (zip5 a b c d e) <= List.length b)%nat /\
    (List.length (zip5 a b c d e) <= List.length d)%nat.
Proof.
  induction a as [|x a IH]; intros b c d e; cbn; [lia|].
  destruct b as [|y b], c as [|z c], d as [|u d], e as [|v e]; cbn; try lia.
  specialize (IH b c d e). lia.
Qed.

Lemma but_last_length {A : Type} (l : list A) :
  List.length (but_last l) = (List.length l - 1)%nat.
Proof.
  unfold but_last. rewrite removelast_firstn_len, length_take. lia.
Qed.


(** X1. With fewer than two states, actions or options there is no pair: the
    result is the empty list, and no action is looked at. *)
Theorem collate_sequence_data_short (defs : definitions) (data : trajectory) :
  (List.length (seq_state (data_sequence data)) <= 1)%nat \/
  (List.length (seq_action (data_sequence data)) <= 1)%nat \/
  (List.length (seq_option (data_sequence data)) <= 1)%nat ->
  collate_sequence_data defs data = Ok [].
Proof.
  intros H. unfold collate_sequence_data.
  assert (Hrows : collate_rows data = []).
  { apply length_zero_iff_nil. unfold collate_rows.
    pose proof (zip5_length (but_last (seq_state (data_sequence data)))
                  (but_last (seq_action (data_sequence data)))
                  (from_1 (seq_state (data_sequence data)))
                  (but_last (seq_option (data_sequence data)))
                  (from_1 (seq_option (data_sequence data)))) as (H1 & H2 & H3).
    rewrite !but_last_length in *. lia. }
  rewrite Hrows. reflexivity.
Qed.

Lemma collate_sequence_data_short_witness :
  ((List.length (seq_state (data_sequence (sample_sequence []))) <= 1)%nat \/
   (List.length (seq_action (data_sequence (sample_sequence []))) <= 1)%nat \/
   (List.length (seq_option (data_sequence (sample_sequence []))) <= 1)%nat) /\
  collate_sequence_data sample_defs (sample_sequence []) = Ok [].
Proof.
  assert (H : (List.length (seq_state (data_sequence (sample_sequence []))) <= 1)%nat \/
              (List.length (seq_action (data_sequence (sample_sequence []))) <= 1)%nat \/
              (List.length (seq_option (data_sequence (sample_sequence []))) <= 1)%nat).
  { right. left. cbn. lia. }
  split; [exact H|]. exact (collate_sequence_data_short sample_defs _ H).
Defined.



Lemma collate_loop_error (defs : definitions) (result : Q) pre row post x :
  Forall (fun row => exists ty, action_type (snd (fst (fst (fst row)))) = Ok ty) pre ->
  action_type (snd (fst (fst (fst row)))) = Err x ->
  forall acc, foldM (collate_step defs result) (pre ++ row :: post) acc = Err x.
Proof.
  intros Hpre Hrow. induction Hpre as [|r pre [ty Hty] _ IH]; intros [sd d].
  - destruct row as [[[[s a] ns] o] no]. cbn in *. now rewrite Hrow.
  - destruct r as [[[[s a] ns] o] no]. cbn [app foldM collate_step]. cbn [fst snd] in Hty.
    rewrite Hty. cbn [bind]. destruct (Z.eqb ty _); cbn [bind]; apply IH.
Qed.

(** X3. The first pair whose action has no type, or a type that [int] refuses,
    decides the outcome: [collate_sequence_data] raises that exception and
    returns no tuple, not even those of the pairs before. *)
Theorem collate_sequence_data_first_error (defs : definitions) (data : trajectory)
    pre row post (x : exn) :
  collate_rows data = pre ++ row :: post ->
  Forall (fun row => exists ty, action_type (snd (fst (fst (fst row)))) = Ok ty) pre ->
  action_type (snd (fst (fst (fst row)))) = Err x ->
  collate_sequence_data defs data = Err x.
Proof.
  intros Hrows Hpre Hrow. unfold collate_sequence_data. rewrite Hrows.
  now rewrite (collate_loop_error defs _ pre row post x Hpre Hrow).
Qed.

Lemma collate_sequence_data_first_error_witness :
  collate_sequence_data sample_defs sample_trajectory_untyped = Err KeyError.
Proof.
  apply (collate_sequence_data_first_error sample_defs sample_trajectory_untyped
           [([sample_minion], sample_play, [sample_minion; sample_deck_card],
             sample_options, []);
            ([sample_minion; sample_deck_card], sample_end_turn, [sample_deck_card],
             [], sample_options)]
           ([sample_deck_card], [("entity", JStr "7")], [], sample_options, [])
           []).
  - reflexivity.
  - repeat (constructor; [eexists; reflexivity|]). constructor.
  - reflexivity.
Defined.

(** X4. The action of the last state is never read: whatever it is, well formed
    or not, the result is the same. *)
Theorem collate_sequence_data_last_action (defs : definitions) (result : Q)
    (states : list game_state) (actions : list game_action) (opts : list options)
    (a a' : game_action) :
  collate_sequence_data defs
    {| metadata_result := result;
       data_sequence := {| seq_state := states; seq_action := actions ++ [a];
                           seq_option := opts |} |}
  = collate_sequence_data defs
      {| metadata_result := result;
         data_sequence := {| seq_state := states; seq_action := actions ++ [a'];
                             seq_option := opts |} |}.
Proof.
  unfold collate_sequence_data, collate_rows, but_last. cbn [data_sequence seq_action
    seq_state seq_option metadata_result].
  now rewrite !removelast_last.
Qed.

(** ** [collate_sequence_data]: the rewards *)








(** ** [preprocess_state]: errors *)

Lemma mapM_error {A B : Type} (f : A -> res B) (pre : list A) (a : A) (post : list A)
    (x : exn) :
  Forall (fun a => exists b, f a = Ok b) pre ->
  f a = Err x ->
  mapM f (pre ++ a :: post) = Err x.
Proof.
  intros Hpre Ha. induction Hpre as [|a0 pre [b Hb] _ IH]; cbn.
  - now rewrite Ha.
  - now rewrite Hb, IH.
Qed.

(** X7. An option item without ["entity"] makes [preprocess_state] raise
    [KeyError], whatever the state is, the empty state included. *)
Theorem preprocess_state_option_without_entity (defs : definitions)
    (state : game_state) (pre : options) (item : dict) (post : options) (strip : bool) :
  Forall (fun item => exists z, (v <- subscript item "entity" ;; py_int v) = Ok z) pre ->
  dict_get item "entity" = None ->
  preprocess_state defs state (pre ++ item :: post) strip = Err KeyError.
Proof.
  intros Hpre Hitem. unfold preprocess_state, operable_of.
  rewrite (mapM_error _ pre item post KeyError Hpre); [reflexivity|].
  unfold subscript. now rewrite Hitem.
Qed.

Lemma preprocess_state_option_without_entity_witness :
  preprocess_state sample_defs [] (sample_options ++ [("type", JInt 3)] :: []) true
  = Err KeyError.
Proof.
  apply (preprocess_state_option_without_entity sample_defs [] sample_options
           [("type", JInt 3)] [] true).
  - repeat (constructor; [eexists; reflexivity|]). constructor.
  - reflexivity.
Defined.

(** The body of the loop pops [card_name], whatever [strip] is. *)
Lemma process_entity_pops_card_name (defs : definitions) (strip : bool)
    (operable : list Z) :
  triple (fun _ => True) (process_entity defs strip operable)
         (fun _ e => card_name e = None).
Proof.
  assert (Hmark : forall tag,
             triple (fun e => card_name e = None) (mark_tag defs strip operable tag)
                    (fun _ e => card_name e = None)).
  { intros tag e a e' HP H. unfold mark_tag in H. e_run; exact HP. }
  assert (Hname : forall tag,
             triple (fun e => card_name e = None) (name_tag defs tag)
                    (fun _ e => card_name e = None)).
  { intros tag e a e' HP H. unfold name_tag in H. e_run; exact HP. }
  intros e a e' _ H. unfold process_entity in H. e_run.
  match goal with
  | H1 : e_for _ (mark_tag _ _ _) _ = _ |- _ =>
      apply (triple_for (fun _ e => card_name e = None) _ (fun x _ => Hmark x)) in H1;
      [|reflexivity]
  end.
  match goal with
  | H2 : e_for _ (name_tag _) _ = _ |- _ =>
      apply (triple_for (fun _ e => card_name e = None) _ (fun x _ => Hname x)) in H2;
      [|assumption]
  end.
  assumption.
Qed.

(** X8. What [preprocess_state] returns cannot be preprocessed again: the
    entities have lost [card_name], which the comprehension reads first. *)
Theorem preprocess_state_twice (defs : definitions) (state : game_state)
    (option option' : options) (strip strip' : bool) (out : game_state) :
  preprocess_state defs state option strip = Ok out ->
  out <> [] ->
  preprocess_state defs out option' strip' =
  match operable_of option' with
  | Ok _ => Err KeyError
  | Err x => Err x
  end.
Proof.
  intros H Hout.
  assert (Hnames : Forall (fun e => card_name e = None) out).
  { unfold preprocess_state in H.
    inv_bind H as operable Hop. inv_bind H as ks Hks.
    apply mapM_Forall2 in H. clear Hks Hout.
    induction H as [|e e' l l' He Hl IH]; constructor; try exact IH.
    apply exec_Ok in He.
    now apply (process_entity_pops_card_name defs strip operable) in He. }
  unfold preprocess_state. destruct (operable_of option') as [operable'|x]; [|reflexivity].
  cbn [bind]. destruct Hnames as [|e l He _]; [congruence|].
  cbn [filterM]. unfold removed, py_or, len_is_0, field. rewrite He. reflexivity.
Qed.

Lemma preprocess_state_twice_witness :
  preprocess_state sample_defs [sample_deck_card; sample_minion] sample_options true
  = Ok sample_stripped_state /\
  sample_stripped_state <> [] /\
  preprocess_state sample_defs sample_stripped_state sample_options false = Err KeyError.
Proof.
  assert (H : preprocess_state sample_defs [sample_deck_card; sample_minion]
                sample_options true = Ok sample_stripped_state)
    by (vm_compute; reflexivity).
  assert (Hne : sample_stripped_state <> []) by discriminate.
  split; [exact H|]. split; [exact Hne|].
  exact (preprocess_state_twice sample_defs _ sample_options sample_options true false
           _ H Hne).
Defined.

(** ** [preprocess_state]: where the named tags come from *)

Lemma dict_get_pop (d : dict) (k k' : string) :
  dict_get (dict_pop d k) k' = if String.eqb k k' then None else dict_get d k'.
Proof.
  unfold dict_pop. induction d as [|[k0 v0] d IH]; cbn.
  - now destruct (String.eqb k k').
  - destruct (String.eqb_spec k0 k) as [-> | Hne]; cbn.
    + rewrite IH. now destruct (String.eqb k k').
    + rewrite IH. destruct (String.eqb_spec k0 k') as [-> | Hne']; [|reflexivity].
      destruct (String.eqb_spec k k'); [congruence | reflexivity].
Qed.

Lemma dict_keys_pop_in (d : dict) (k k' : string) :
  In k' (dict_keys d) -> k' <> k -> In k' (dict_keys (dict_pop d k)).
Proof.
  unfold dict_keys, dict_pop. rewrite !in_map_iff. intros [[k0 v] [<- Hin]] Hne.
  exists (k0, v). split; [reflexivity|]. apply filter_In. split; [exact Hin|].
  cbn in *. now apply negb_true_iff, String.eqb_neq.
Qed.

Lemma dict_keys_set_in (d : dict) (k k' : string) (v : json) :
  In k' (dict_keys d) \/ k' = k -> In k' (dict_keys (dict_set d k v)).
Proof.
  intros [H | ->].
  - apply dict_keys_get in H as [v' Hv'].
    apply dict_get_keys with (v := if String.eqb k k' then v else v').
    rewrite dict_get_set, Hv'. now destruct (String.eqb k k').
  - apply dict_get_keys with (v := v). now rewrite dict_get_set, String.eqb_refl.
Qed.

Section RenamingProperties.

Variable defs : definitions.

Lemma mark_tag_mark_inv (T0 : dict) (strip : bool) (operable : list Z) (tag : string) :
  triple (mark_inv defs T0 strip) (mark_tag defs strip operable tag)
         (fun _ => mark_inv defs T0 strip).
Proof.
  intros e a e' (t & Ht & Hval & Hkey) H. unfold mark_tag in H.
  e_run; unfold mark_inv; cbn; (eexists; split; [reflexivity || eassumption|]); split;
    try assumption.
  - intros k v Hk. rewrite dict_get_pop in Hk.
    destruct (String.eqb tag k); [discriminate | eauto].
  - intros k z Hk Hz [Hs | Hin]; [discriminate|].
    apply dict_keys_pop_in; [eauto|]. intros ->.
    match goal with
    | H1 : int_of_str tag = Some ?z', H2 : negb (py_in ?z' _) = true |- _ =>
        rewrite H1 in Hz; injection Hz as ->; rewrite Hin in H2; discriminate
    end.
  - intros k v Hk. rewrite dict_get_set in Hk.
    destruct (String.eqb _ k); [left; congruence | eauto].
  - intros k z Hk Hz Hin. apply dict_keys_set_in. left. eauto.
Qed.

Lemma name_tag_rename_inv (T : dict) (tag : string) (ks : list string) :
  triple (rename_inv defs T (tag :: ks)) (name_tag defs tag)
         (fun _ => rename_inv defs T ks).
Proof.
  intros e a e' (HT & nt & Hnt & Hval & Hkey) H. unfold name_tag in H.
  e_run; unfold rename_inv; cbn. split; [reflexivity|].
  eexists. split; [reflexivity|]. split.
  - intros n v Hn. rewrite dict_get_set in Hn.
    destruct (String.eqb _ n); [injection Hn as <-; eauto | eauto].
  - intros k z Hk Hz. destruct (Hkey k z Hk Hz) as [[<- | Hin] | (n & Hn & Hin)].
    + right. eexists. split; [|apply dict_keys_set_in; right; reflexivity].
      congruence.
    + now left.
    + right. exists n. split; [exact Hn|]. apply dict_keys_set_in. now left.
Qed.

Lemma process_entity_named_tags (strip : bool) (operable : list Z) (e0 : entity) :
  triple (fun e => e = e0) (process_entity defs strip operable)
         (fun _ e' => values_from e0 e' /\ names_from defs strip e0 e').
Proof.
  intros e a e' -> H. unfold process_entity in H. e_run.
  match goal with
  | H0 : tags e0 = Some ?T0, H1 : e_for _ (mark_tag _ _ _) _ = _ |- _ =>
      apply (triple_for (fun _ => mark_inv defs T0 strip) _
               (fun x _ => mark_tag_mark_inv T0 strip operable x)) in H1;
      [destruct H1 as (t & Ht & Hval & Hkey); rename H0 into HT0
      |unfold mark_inv; cbn; eexists; split; [reflexivity|]; split; eauto]
  end.
  simplify_eq.
  match goal with
  | H2 : e_for (dict_keys ?T) (name_tag _) _ = _ |- _ =>
      apply (triple_for (rename_inv defs T) _ (name_tag_rename_inv T)) in H2;
      [destruct H2 as (_ & nt & Hnt & Hval' & Hkey')
      |unfold rename_inv; cbn; split; [reflexivity|]; eexists; split; [reflexivity|];
       split; [discriminate | auto]]
  end.
  split.
  - intros nt' n v Hnt' Hn. cbn in Hnt'. rewrite Hnt in Hnt'. injection Hnt' as <-.
    destruct (Hval' n v Hn) as [k Hk].
    destruct (Hval k v Hk) as [-> | [k0 Hk0]]; [now left | right; eauto].
  - intros T0 k z HT Hk Hz Hin. rewrite HT0 in HT. injection HT as <-.
    destruct (Hkey' k z (Hkey k z Hk Hz Hin) Hz) as [[] | (n & Hn & Hin')].
    exists nt, n. cbn. auto.
Qed.

End RenamingProperties.

(** X9. A value among the named tags of an entity [preprocess_state] returns is
    the value of a tag of the entity it was copied from, or the marker
    ["1"]: renaming invents no value. *)
Theorem preprocess_state_values_from (defs : definitions) (state : game_state)
    (option : options) (strip : bool) (out : game_state) :
  preprocess_state defs state option strip = Ok out ->
  Forall2 values_from (List.filter (kept defs) state) out.
Proof.
  unfold preprocess_state. intros H.
  inv_bind H as operable Hop. inv_bind H as ks Hks.
  apply (filterM_filter _ (kept defs)) in Hks; [|apply removed_kept]. subst ks.
  apply mapM_Forall2 in H. eapply Forall2_impl; [exact H|].
  cbn beta. intros e e' He. apply exec_Ok in He.
  now apply (process_entity_named_tags defs strip operable e) in He.
Qed.

Lemma preprocess_state_values_from_witness :
  preprocess_state sample_defs [sample_deck_card; sample_minion] sample_options false
  = Ok sample_full_state /\
  Forall2 values_from (List.filter (kept sample_defs) [sample_deck_card; sample_minion])
          sample_full_state.
Proof.
  assert (H : preprocess_state sample_defs [sample_deck_card; sample_minion]
                sample_options false = Ok sample_full_state)
    by (vm_compute; reflexivity).
  split; [exact H|].
  exact (preprocess_state_values_from sample_defs [sample_deck_card; sample_minion]
           sample_options false sample_full_state H).
Defined.

(** X10. Every tag of a kept entity that is in scope (every tag, when nothing is
    stripped) has its name among the named tags of the entity
    [preprocess_state] returns for it: stripping loses no tag of the
    schema. *)
Theorem preprocess_state_names_from (defs : definitions) (state : game_state)
    (option : options) (strip : bool) (out : game_state) :
  preprocess_state defs state option strip = Ok out ->
  Forall2 (names_from defs strip) (List.filter (kept defs) state) out.
Proof.
  unfold preprocess_state. intros H.
  inv_bind H as operable Hop. inv_bind H as ks Hks.
  apply (filterM_filter _ (kept defs)) in Hks; [|apply removed_kept]. subst ks.
  apply mapM_Forall2 in H. eapply Forall2_impl; [exact H|].
  cbn beta. intros e e' He. apply exec_Ok in He.
  now apply (process_entity_named_tags defs strip operable e) in He.
Qed.

Lemma preprocess_state_names_from_witness :
  preprocess_state sample_defs [sample_deck_card; sample_minion] sample_options true
  = Ok sample_stripped_state /\
  Forall2 (names_from sample_defs true)
          (List.filter (kept sample_defs) [sample_deck_card; sample_minion])
          sample_stripped_state.
Proof.
  assert (H : preprocess_state sample_defs [sample_deck_card; sample_minion]
                sample_options true = Ok sample_stripped_state)
    by (vm_compute; reflexivity).
  split; [exact H|].
  exact (preprocess_state_names_from sample_defs [sample_deck_card; sample_minion]
           sample_options true sample_stripped_state H).
Defined.

(** ** [preprocess_state]: the marker, and what the state must hold *)

Section MarkingProperties.

Variable defs : definitions.

Lemma entity_id_in_scope : py_in (GAME_TAG_ENTITY_ID defs) (scope defs) = true.
Proof. unfold py_in, scope. cbn [existsb]. now rewrite Z.eqb_refl. Qed.

Lemma mark_tag_ready_inv (strip : bool) (operable : list Z) (T0 : dict)
    (k : string) (v : json) (i : Z) (tag : string) (ks : list string) :
  int_of_str k = Some (GAME_TAG_ENTITY_ID defs) ->
  dict_get T0 k = Some v -> py_int v = Ok i -> py_in i operable = true ->
  triple (ready_inv defs T0 k (tag :: ks)) (mark_tag defs strip operable tag)
         (fun _ => ready_inv defs T0 k ks).
Proof.
  intros Hk Hv Hi Hop e a e' (Hnd & Hne & t & Ht & Hval & Hkeys & Hready) H.
  apply NoDup_cons in Hnd as [Hnotin Hnd].
  apply Forall_cons_iff in Hne as [Htag Hne].
  unfold mark_tag in H.
  e_run; unfold ready_inv; cbn; (split; [exact Hnd|]); (split; [exact Hne|]);
    (eexists; split; [reflexivity || eassumption|]).
  - split; [|split].
    + intros k' Hk'. rewrite dict_get_pop.
      destruct (String.eqb_spec tag k') as [-> | _]; [|auto].
      exfalso. apply Hnotin. now apply list_elem_of_In.
    + intros k' Hk'. apply dict_keys_pop in Hk' as [Hk' _]. auto.
    + rewrite dict_get_pop.
      destruct (String.eqb_spec tag (py_str (TAG_READY defs))) as [? | _]; [contradiction|].
      destruct Hready as [[-> | ?] | ?]; auto.
      rewrite Hk in *. simplify_eq. rewrite entity_id_in_scope in *. discriminate.
  - split; [auto|]. split; [auto|].
    destruct Hready as [[-> | ?] | ?]; auto.
    rewrite Hk in *. simplify_eq. rewrite entity_id_in_scope in *. discriminate.
  - split; [|split].
    + intros k' Hk'. rewrite dict_get_set.
      destruct (String.eqb_spec (py_str (TAG_READY defs)) k') as [<- | _]; [|auto].
      rewrite List.Forall_forall in Hne. now apply Hne in Hk'.
    + intros k' Hk'. apply dict_keys_set in Hk' as [Hk' | ->]; auto.
    + right. now rewrite dict_get_set, String.eqb_refl.
  - split; [auto|]. split; [auto|].
    destruct Hready as [[-> | ?] | ?]; auto.
    exfalso.
    match goal with
    | Hg : dict_get ?t k = Some ?x, Hp : py_int ?x = Ok ?y, Hn : py_in ?y operable = false
      |- _ =>
        rewrite (Hval k (or_introl eq_refl)), Hv in Hg; injection Hg as <-;
        rewrite Hi in Hp; injection Hp as <-; congruence
    end.
  - split; [auto|]. split; [auto|].
    destruct Hready as [[-> | ?] | ?]; auto.
    exfalso. rewrite Hk in *. simplify_eq.
    match goal with
    | Hz : (_ =? _)%Z = false |- _ => now rewrite Z.eqb_refl in Hz
    end.
Qed.

Lemma name_tag_ready_name_inv (T : dict) (tag : string) (ks : list string) :
  dict_get T (py_str (TAG_READY defs)) = Some (JStr "1") ->
  triple (ready_name_inv defs T (tag :: ks)) (name_tag defs tag)
         (fun _ => ready_name_inv defs T ks).
Proof.
  intros Hone e a e' (HT & Hks & nt & Hnt & Hready) H.
  apply Forall_cons_iff in Hks as [Htag Hks].
  unfold name_tag in H.
  e_run; unfold ready_name_inv; cbn. split; [reflexivity|]. split; [exact Hks|].
  eexists. split; [reflexivity|].
  destruct (String.eqb_spec tag (py_str (TAG_READY defs))) as [-> | Hneq].
  - right. rewrite int_of_str_py_str in *. simplify_eq.
    eexists. split; [eassumption|]. now rewrite dict_get_set, String.eqb_refl.
  - destruct Htag as [? | Htag]; [contradiction|]. specialize (Htag _ eq_refl).
    destruct Hready as [[? | ?] | (name & Hname & Hget)]; [contradiction | now left|].
    right. exists name. split; [exact Hname|]. rewrite dict_get_set.
    destruct (String.eqb_spec a3 name) as [-> | _]; [congruence | exact Hget].
Qed.

(** The body of the loop marks an operable entity. *)
Lemma process_entity_marks (strip : bool) (operable : list Z) (e0 : entity) :
  operable_entity defs operable e0 -> ready_name_free defs e0 ->
  triple (fun e => e = e0) (process_entity defs strip operable)
         (fun _ e' =>
            exists name nt,
              tag_map defs (TAG_READY defs) = Some name /\
              named_tags e' = Some nt /\ dict_get nt name = Some (JStr "1")).
Proof.
  intros (T0 & k & v & i & HT0 & Hnd & Hfresh & Hv & Hk & Hi & Hop) Hfree e a e' -> H.
  unfold process_entity in H. e_run.
  match goal with
  | H0 : tags e0 = Some ?T, H1 : e_for _ (mark_tag _ _ _) _ = _ |- _ =>
      apply (triple_for (ready_inv defs T k) _
               (fun x l => mark_tag_ready_inv strip operable T k v i x l Hk Hv Hi Hop))
        in H1;
      [destruct H1 as (_ & _ & t & Ht & _ & Hkeys & [[] | Hone]); rename H0 into HT|]
  end.
  2:{ unfold ready_inv. cbn. split; [exact Hnd|]. split.
      - apply List.Forall_forall. intros k' Hk' ->.
        apply dict_keys_get in Hk' as [x Hx]. congruence.
      - eexists. split; [reflexivity|]. split; [auto|]. split; [auto|].
        left. eapply dict_get_keys; eauto. }
  simplify_eq.
  match goal with
  | H2 : e_for (dict_keys ?T) (name_tag _) _ = _ |- _ =>
      apply (triple_for (ready_name_inv defs T) _
               (fun x l => name_tag_ready_name_inv T x l Hone)) in H2;
      [destruct H2 as (_ & _ & nt & Hnt & [[] | (name & Hname & Hget)])|]
  end.
  2:{ unfold ready_name_inv. cbn. split; [reflexivity|]. split.
      - apply List.Forall_forall. intros k' Hk'.
        destruct (Hkeys k' Hk') as [Hin | ->]; [right | now left].
        intros z Hz. eapply Hfree; eauto.
      - eexists. split; [reflexivity|]. left. eapply dict_get_keys; eauto. }
  exists name, nt. cbn. auto.
Qed.

End MarkingProperties.

(** X11. [preprocess_state] marks the operable entities: a kept entity whose
    [ENTITY_ID] is among the entities of the options comes out with the
    marker ["1"] under the name of [TAG_READY], when its tags do not hold
    the key of the marker yet and none of them has that name. *)
Theorem preprocess_state_marks_operable (defs : definitions) (state : game_state)
    (option : options) (strip : bool) (operable : list Z) (out : game_state) :
  preprocess_state defs state option strip = Ok out ->
  operable_of option = Ok operable ->
  Forall2 (fun e e' =>
             operable_entity defs operable e -> ready_name_free defs e ->
             exists name nt,
               tag_map defs (TAG_READY defs) = Some name /\
               named_tags e' = Some nt /\ dict_get nt name = Some (JStr "1"))
          (List.filter (kept defs) state) out.
Proof.
  unfold preprocess_state. intros H Hop. rewrite Hop in H. cbn [bind] in H.
  inv_bind H as ks Hks.
  apply (filterM_filter _ (kept defs)) in Hks; [|apply removed_kept]. subst ks.
  apply mapM_Forall2 in H. eapply Forall2_impl; [exact H|].
  cbn beta. intros e e' He Hoper Hfree. apply exec_Ok in He.
  now apply (process_entity_marks defs strip operable e Hoper Hfree) in He.
Qed.

Lemma preprocess_state_marks_operable_witness :
  preprocess_state sample_defs [sample_deck_card; sample_minion] sample_options true
  = Ok sample_stripped_state /\
  operable_of sample_options = Ok [7; 0] /\
  operable_entity sample_defs [7; 0] sample_minion /\
  ready_name_free sample_defs sample_minion /\
  Forall2 (fun e e' =>
             operable_entity sample_defs [7; 0] e -> ready_name_free sample_defs e ->
             exists name nt,
               tag_map sample_defs (TAG_READY sample_defs) = Some name /\
               named_tags e' = Some nt /\ dict_get nt name = Some (JStr "1"))
          (List.filter (kept sample_defs) [sample_deck_card; sample_minion])
          sample_stripped_state.
Proof.
  assert (H : preprocess_state sample_defs [sample_deck_card; sample_minion]
                sample_options true = Ok sample_stripped_state)
    by (vm_compute; reflexivity).
  assert (Hop : operable_of sample_options = Ok [7; 0]) by (vm_compute; reflexivity).
  split; [exact H|]. split; [exact Hop|]. split; [|split].
  - exists [("53", JStr "7"); ("49", JStr "1"); ("45", JStr "5"); ("47", JStr "4");
            ("12", JStr "1")], "53", (JStr "7"), 7.
    split; [reflexivity|]. split.
    { apply NoDup_ListNoDup. cbn.
      repeat (constructor; [cbn; intuition discriminate|]). constructor. }
    repeat split; vm_compute; reflexivity.
  - intros t k z [= <-] Hk Hz. cbn in Hk.
    repeat (destruct Hk as [<- | Hk];
            [vm_compute in Hz; injection Hz as <-; vm_compute; discriminate|]).
    destruct Hk.
  - exact (preprocess_state_marks_operable sample_defs [sample_deck_card; sample_minion]
             sample_options true [7; 0] sample_stripped_state H Hop).
Defined.

Lemma filterM_Forall {A : Type} (removed : A -> res bool) (l : list A) :
  forall out, filterM removed l = Ok out -> Forall (fun x => exists b, removed x = Ok b) l.
Proof.
  induction l as [|x l IH]; intros out H; cbn in H; [constructor|].
  inv_bind H as b Hb. inv_bind H as xs Hxs. constructor; eauto.
Qed.

(** X12. [preprocess_state] returns only if every entity of the state, kept or
    not, has a [card_name] that has a length: the comprehension reads it
    first, of every entity. *)
Theorem preprocess_state_needs_card_name (defs : definitions) (state : game_state)
    (option : options) (strip : bool) (out : game_state) :
  preprocess_state defs state option strip = Ok out ->
  Forall (fun e => exists v n, card_name e = Some v /\ py_len v = Ok n) state.
Proof.
  unfold preprocess_state. intros H.
  inv_bind H as operable Hop. inv_bind H as ks Hks.
  apply filterM_Forall in Hks. eapply List.Forall_impl; [|exact Hks].
  cbn beta. intros e [b Hb]. unfold removed, py_or at 1, len_is_0 at 1, field in Hb.
  destruct (card_name e) as [v|]; cbn [bind] in Hb; [|discriminate].
  destruct (py_len v) as [n|x] eqn:Hn; cbn [bind] in Hb; [eauto | discriminate].
Qed.

Lemma preprocess_state_needs_card_name_witness :
  preprocess_state sample_defs [sample_deck_card; sample_minion] sample_options true
  = Ok sample_stripped_state /\
  Forall (fun e => exists v n, card_name e = Some v /\ py_len v = Ok n)
         [sample_deck_card; sample_minion].
Proof.
  assert (H : preprocess_state sample_defs [sample_deck_card; sample_minion]
                sample_options true = Ok sample_stripped_state)
    by (vm_compute; reflexivity).
  split; [exact H|].
  exact (preprocess_state_needs_card_name sample_defs [sample_deck_card; sample_minion]
           sample_options true sample_stripped_state H).
Defined.

Lemma e_for_Forall {A : Type} (P : A -> Prop) (body : A -> E unit) :
  (forall x e a e', body x e = (Ok a, e') -> P x) ->
  forall l e a e', e_for l body e = (Ok a, e') -> Forall P l.
Proof.
  intros Hbody. induction l as [|x l IH]; intros e a e' H; [constructor|].
  cbn [e_for] in H. unfold e_bind in H.
  destruct (body x e) as [[u|err] e1] eqn:Hx; [|discriminate].
  constructor; [eapply Hbody; eauto | eapply IH; eauto].
Qed.

(** X13. [preprocess_state] returns only if every kept entity has a tag
    dictionary whose keys are all numerals: the first loop calls [int] on
    every key, in scope or not. *)
Theorem preprocess_state_needs_int_keys (defs : definitions) (state : game_state)
    (option : options) (strip : bool) (out : game_state) :
  preprocess_state defs state option strip = Ok out ->
  Forall (fun e => exists t, tags e = Some t /\
                             Forall (fun k => exists z, int_of_str k = Some z) (dict_keys t))
         (List.filter (kept defs) state).
Proof.
  unfold preprocess_state. intros H.
  inv_bind H as operable Hop. inv_bind H as ks Hks.
  apply (filterM_filter _ (kept defs)) in Hks; [|apply removed_kept]. subst ks.
  apply mapM_Forall2 in H.
  induction H as [|e e' l l' He _ IH]; constructor; [|exact IH].
  apply exec_Ok in He. unfold process_entity, deepcopy in He. e_run.
  eexists. split; [reflexivity|].
  match goal with
  | H1 : e_for _ (mark_tag _ _ _) _ = _ |- _ =>
      apply (e_for_Forall (fun k => exists z, int_of_str k = Some z)) in H1; [exact H1|]
  end.
  clear. intros tag e a e' Hm. unfold mark_tag in Hm. e_run; eauto.
Qed.

Lemma preprocess_state_needs_int_keys_witness :
  preprocess_state sample_defs [sample_deck_card; sample_minion] sample_options false
  = Ok sample_full_state /\
  Forall (fun e => exists t, tags e = Some t /\
                             Forall (fun k => exists z, int_of_str k = Some z) (dict_keys t))
         (List.filter (kept sample_defs) [sample_deck_card; sample_minion]).
Proof.
  assert (H : preprocess_state sample_defs [sample_deck_card; sample_minion]
                sample_options false = Ok sample_full_state)
    by (vm_compute; reflexivity).
  split; [exact H|].
  exact (preprocess_state_needs_int_keys sample_defs [sample_deck_card; sample_minion]
           sample_options false sample_full_state H).
Defined.

(** ** [preprocess_state]: the entities that are not marked, and the fields *)

Section UnmarkedProperties.

Variable defs : definitions.

Lemma mark_tag_unmarked_inv (strip : bool) (operable : list Z) (T0 : dict) (tag : string) :
  (forall k v i,
      dict_get T0 k = Some v -> int_of_str k = Some (GAME_TAG_ENTITY_ID defs) ->
      py_int v = Ok i -> py_in i operable = false) ->
  triple (unmarked_inv T0) (mark_tag defs strip operable tag) (fun _ => unmarked_inv T0).
Proof.
  intros Hin e a e' (t & Ht & Hsub) H. unfold mark_tag in H.
  e_run; unfold unmarked_inv; cbn; (eexists; split; [reflexivity || eassumption|]);
    try assumption.
  - intros k v Hk. rewrite dict_get_pop in Hk.
    destruct (String.eqb tag k); [discriminate | auto].
  - exfalso.
    match goal with
    | Hz : (?z =? _)%Z = true, Hg : dict_get _ tag = Some ?x, Hp : py_int ?x = Ok ?y,
      Hy : py_in ?y operable = true |- _ =>
        apply Z.eqb_eq in Hz; subst z;
        rewrite (Hin tag x y (Hsub _ _ Hg) ltac:(assumption) Hp) in Hy; discriminate
    end.
Qed.

Lemma name_tag_unnamed_inv (T : dict) (tag : string) :
  triple (unnamed_inv defs T) (name_tag defs tag) (fun _ => unnamed_inv defs T).
Proof.
  intros e a e' (HT & nt & Hnt & Hnames) H. unfold name_tag in H.
  e_run; unfold unnamed_inv; cbn. split; [reflexivity|].
  eexists. split; [reflexivity|]. intros n Hn.
  apply dict_keys_set in Hn as [Hn | ->]; [auto|].
  eexists tag, _. split; [eapply dict_get_keys; eauto|]. split; eassumption.
Qed.

Lemma process_entity_unmarked (strip : bool) (operable : list Z) (e0 : entity) :
  inoperable_entity defs operable e0 -> ready_name_free defs e0 ->
  triple (fun e => e = e0) (process_entity defs strip operable)
         (fun _ e' =>
            exists nt,
              named_tags e' = Some nt /\
              forall name, tag_map defs (TAG_READY defs) = Some name ->
                           dict_get nt name = None).
Proof.
  intros (T0 & HT0 & Hfresh & Hin) Hfree e a e' -> H.
  unfold process_entity in H. e_run.
  match goal with
  | H0 : tags e0 = Some ?T, H1 : e_for _ (mark_tag _ _ _) _ = _ |- _ =>
      apply (triple_for (fun _ => unmarked_inv T) _
               (fun x _ => mark_tag_unmarked_inv strip operable T x Hin)) in H1;
      [destruct H1 as (t & Ht & Hsub); rename H0 into HT
      |unfold unmarked_inv; cbn; eauto]
  end.
  simplify_eq.
  match goal with
  | H2 : e_for (dict_keys ?T) (name_tag _) _ = _ |- _ =>
      apply (triple_for (fun _ => unnamed_inv defs T) _
               (fun x _ => name_tag_unnamed_inv T x)) in H2;
      [destruct H2 as (_ & nt & Hnt & Hnames)
      |unfold unnamed_inv; cbn; split; [reflexivity|]; eexists; split; [reflexivity|];
       intros n []]
  end.
  exists nt. split; [exact Hnt|]. intros name Hname.
  destruct (dict_get nt name) as [v|] eqn:Hv; [|reflexivity]. exfalso.
  apply dict_get_keys in Hv. destruct (Hnames name Hv) as (k & z & Hk & Hz & Hn).
  apply dict_keys_get in Hk as [x Hx]. apply Hsub, dict_get_keys in Hx.
  apply (Hfree _ k z HT Hx Hz). congruence.
Qed.

(** The body of the loop pops [card_id], [card_name] and [tags], and leaves
    a dictionary [named_tags], whatever [strip] is. *)
Lemma process_entity_processed (strip : bool) (operable : list Z) :
  triple (fun _ => True) (process_entity defs strip operable) (fun _ => processed).
Proof.
  pose (P := fun e => card_id e = None /\ card_name e = None).
  pose (Q := fun e => P e /\ exists nt, named_tags e = Some nt).
  assert (Hmark : forall tag, triple P (mark_tag defs strip operable tag) (fun _ => P)).
  { intros tag e a e' HP H. unfold mark_tag in H. subst P. e_run; exact HP. }
  assert (Hname : forall tag, triple Q (name_tag defs tag) (fun _ => Q)).
  { intros tag e a e' [HP HQ] H. unfold name_tag in H. subst P Q. e_run. cbn. eauto. }
  intros e a e' _ H. unfold process_entity in H. e_run.
  match goal with
  | H1 : e_for _ (mark_tag _ _ _) _ = _ |- _ =>
      apply (triple_for (fun _ => P) _ (fun x _ => Hmark x)) in H1; [|split; reflexivity]
  end.
  match goal with
  | H2 : e_for _ (name_tag _) _ = _ |- _ =>
      apply (triple_for (fun _ => Q) _ (fun x _ => Hname x)) in H2;
      [destruct H2 as [[Hid Hnm] Hnt]|subst P Q; cbn in *; eauto]
  end.
  unfold processed. cbn. auto.
Qed.

End UnmarkedProperties.

(** X27. Whatever [strip] is, an entity [preprocess_state] returns has no
    [card_id], [card_name] or [tags], and has a dictionary [named_tags]. *)
Theorem preprocess_state_processed (defs : definitions) (state : game_state)
    (option : options) (strip : bool) (out : game_state) :
  preprocess_state defs state option strip = Ok out ->
  Forall processed out.
Proof.
  unfold preprocess_state. intros H.
  inv_bind H as operable Hop. inv_bind H as ks Hks.
  apply mapM_Forall2 in H. clear Hks.
  induction H as [|e e' l l' He _ IH]; constructor; [|exact IH].
  apply exec_Ok in He.
  now apply (process_entity_processed defs strip operable) in He.
Qed.

Lemma preprocess_state_processed_witness :
  preprocess_state sample_defs [sample_deck_card; sample_minion] sample_options false
  = Ok sample_full_state /\
  Forall processed sample_full_state.
Proof.
  assert (H : preprocess_state sample_defs [sample_deck_card; sample_minion]
                sample_options false = Ok sample_full_state)
    by (vm_compute; reflexivity).
  split; [exact H|].
  exact (preprocess_state_processed sample_defs [sample_deck_card; sample_minion]
           sample_options false sample_full_state H).
Defined.

(** X28. [preprocess_state] marks no other entity: a kept entity whose
    [ENTITY_ID] is not among the entities of the options comes out with
    nothing under the name of [TAG_READY], when its tags do not hold the
    marker already and none of them has that name. *)
Theorem preprocess_state_leaves_unmarked (defs : definitions) (state : game_state)
    (option : options) (strip : bool) (operable : list Z) (out : game_state) :
  preprocess_state defs state option strip = Ok out ->
  operable_of option = Ok operable ->
  Forall2 (fun e e' =>
             inoperable_entity defs operable e -> ready_name_free defs e ->
             exists nt,
               named_tags e' = Some nt /\
               forall name, tag_map defs (TAG_READY defs) = Some name ->
                            dict_get nt name = None)
          (List.filter (kept defs) state) out.
Proof.
  unfold preprocess_state. intros H Hop. rewrite Hop in H. cbn [bind] in H.
  inv_bind H as ks Hks.
  apply (filterM_filter _ (kept defs)) in Hks; [|apply removed_kept]. subst ks.
  apply mapM_Forall2 in H. eapply Forall2_impl; [exact H|].
  cbn beta. intros e e' He Hin Hfree. apply exec_Ok in He.
  now apply (process_entity_unmarked defs strip operable e Hin Hfree) in He.
Qed.

Lemma preprocess_state_leaves_unmarked_witness :
  preprocess_state sample_defs [sample_minion] [] true = Ok sample_unmarked_state /\
  operable_of [] = Ok [] /\
  inoperable_entity sample_defs [] sample_minion /\
  ready_name_free sample_defs sample_minion /\
  Forall2 (fun e e' =>
             inoperable_entity sample_defs [] e -> ready_name_free sample_defs e ->
             exists nt,
               named_tags e' = Some nt /\
               forall name, tag_map sample_defs (TAG_READY sample_defs) = Some name ->
                            dict_get nt name = None)
          (List.filter (kept sample_defs) [sample_minion]) sample_unmarked_state.
Proof.
  assert (H : preprocess_state sample_defs [sample_minion] [] true
              = Ok sample_unmarked_state)
    by (vm_compute; reflexivity).
  assert (Hop : operable_of [] = Ok []) by reflexivity.
  split; [exact H|]. split; [exact Hop|]. split; [|split].
  - eexists. split; [reflexivity|]. split; [vm_compute; reflexivity|].
    intros k v i _ _ _. reflexivity.
  - intros t k z [= <-] Hk Hz. cbn in Hk.
    repeat (destruct Hk as [<- | Hk];
            [vm_compute in Hz; injection Hz as <-; vm_compute; discriminate|]).
    destruct Hk.
  - exact (preprocess_state_leaves_unmarked sample_defs [sample_minion] [] true []
             sample_unmarked_state H Hop).
Defined.

(** ** [preprocess_state] on the store: the objects it returns *)

Lemma copy_kept_length (defs : definitions) (state : list loc) :
  forall h ls h',
    copy_kept defs state h = (Ok ls, h') -> (List.length ls <= List.length state)%nat.
Proof.
  induction state as [|l state IH]; intros h ls h' H; cbn in H.
  - unfold st_ret in H. injection H as <- <-. cbn. lia.
  - unfold st_bind, st_read, st_lift, st_deepcopy, st_ret in H.
    repeat case_match; simplify_eq.
    + apply IH in H. cbn. lia.
    + match goal with
      | Hc : copy_kept _ _ _ = _ |- _ => apply IH in Hc
      end.
      cbn. lia.
Qed.

(** X14. The entities [preprocess_state] returns are objects distinct from one
    another, also when the state lists one object more than once; there are
    no more of them than items in the state. *)
Theorem preprocess_state_st_distinct (defs : definitions) (state : list loc)
    (option : options) (strip : bool) (h : store) (ls : list loc) :
  fst (preprocess_state_st defs state option strip h) = Ok ls ->
  NoDup ls /\ (List.length ls <= List.length state)%nat.
Proof.
  unfold preprocess_state_st. unfold st_bind at 1. unfold st_lift.
  destruct (operable_of option) as [operable|x]; [|discriminate].
  unfold st_bind at 1.
  destruct (copy_kept defs state h) as [[ls0|x] h1] eqn:Hc; [|discriminate].
  unfold st_bind.
  destruct (st_for ls0 _ h1) as [[[]|x] h2]; [|discriminate].
  unfold st_ret. cbn [fst]. intros [= <-].
  split; [|eapply copy_kept_length; eauto].
  apply copy_kept_fresh in Hc as (ext & _ & Hls).
  rewrite (Hls ls0 eq_refl). apply NoDup_ListNoDup, seq_NoDup.
Qed.

Lemma preprocess_state_st_distinct_witness :
  fst (preprocess_state_st sample_defs [0; 0]%nat sample_options true [sample_minion])
  = Ok [1; 2]%nat /\
  NoDup [1; 2]%nat /\ (List.length [1; 2]%nat <= List.length [0; 0]%nat)%nat.
Proof.
  assert (H : fst (preprocess_state_st sample_defs [0; 0]%nat sample_options true
                     [sample_minion]) = Ok [1; 2]%nat)
    by (vm_compute; reflexivity).
  split; [exact H|].
  exact (preprocess_state_st_distinct sample_defs [0; 0]%nat sample_options true
           [sample_minion] [1; 2]%nat H).
Defined.

Lemma preprocess_state_st_value_witness :
  Forall2 (fun l e => [sample_minion] !! l = Some e) [0; 0]%nat
          [sample_minion; sample_minion] /\
  exists r h',
    preprocess_state_st sample_defs [0; 0]%nat sample_options true [sample_minion]
    = (r, h') /\
    match preprocess_state sample_defs [sample_minion; sample_minion] sample_options true
    with
    | Ok out => exists ls, r = Ok ls /\ Forall2 (fun l e => h' !! l = Some e) ls out
    | Err x => r = Err x
    end.
Proof.
  assert (H : Forall2 (fun l e => [sample_minion] !! l = Some e) [0; 0]%nat
                      [sample_minion; sample_minion])
    by (repeat constructor).
  split; [exact H|].
  exact (preprocess_state_st_value sample_defs [0; 0]%nat [sample_minion; sample_minion]
           sample_options true [sample_minion] H).
Defined.

(** ** [calculate_difference]: when it returns, and what it cannot see *)

Section DifferenceFurther.

Variable defs : definitions.

Lemma tags_by_id_returns (state : game_state) :
  (exists D, tags_by_id defs state = Ok D) <-> Forall (has_entity_id defs) state.
Proof.
  split; [|apply tags_by_id_total].
  unfold tags_by_id. generalize (@nil (json * dict)).
  induction state as [|e state IH]; intros D0 [D H]; [constructor|].
  cbn [foldM] in H. inv_bind H as D1 H1. apply tags_by_id_step in H1 as [He _].
  constructor; [exact He | eauto].
Qed.

Lemma id_keys_set (D : id_dict) (k k' : json) (v : dict) :
  In k' (id_keys (id_set D k v)) -> In k' (id_keys D) \/ k' = k.
Proof.
  induction D as [|[k0 v0] D IH]; cbn.
  - intros [<- | []]. now right.
  - destruct (py_eq k0 k); cbn; [now left|].
    intros [<- | H]; [left; now left|]. destruct (IH H); [left; now right | now right].
Qed.

Lemma id_set_distinct_keys (D : id_dict) (k : json) (v : dict) :
  distinct_keys (id_keys D) -> distinct_keys (id_keys (id_set D k v)).
Proof.
  induction D as [|[k0 v0] D IH]; cbn.
  - intros _. split; [constructor | exact I].
  - intros [H0 HD]. destruct (py_eq k0 k) eqn:E; cbn; [auto|].
    split; [|auto]. apply List.Forall_forall. intros k' Hk'.
    apply id_keys_set in Hk' as [Hk' | ->]; [|exact E].
    rewrite List.Forall_forall in H0. auto.
Qed.

Lemma id_set_length (D : id_dict) (k : json) (v : dict) :
  (List.length (id_set D k v) <= S (List.length D))%nat.
Proof.
  induction D as [|[k0 v0] D IH]; cbn; [lia|]. destruct (py_eq k0 k); cbn; lia.
Qed.

(** The dictionary of a state: its keys are [ENTITY_ID]s of entities of the
    state, no two of them equal, and there are no more keys than entities. *)
Lemma tags_by_id_keys (state : game_state) (D : id_dict) :
  tags_by_id defs state = Ok D ->
  distinct_keys (id_keys D) /\
  (List.length D <= List.length state)%nat /\
  forall k, In k (id_keys D) -> exists e, In e state /\ entity_id defs e = Some k.
Proof.
  unfold tags_by_id.
  enough (Hgen : forall D0,
             foldM (fun d entity =>
                      t <- field_tags entity ;;
                      entity_id <- subscript t (py_str (GAME_TAG_ENTITY_ID defs)) ;;
                      v <- field_tags entity ;;
                      if hashable entity_id then Ok (id_set d entity_id v)
                      else Err TypeError) state D0 = Ok D ->
             distinct_keys (id_keys D0) ->
             distinct_keys (id_keys D) /\
             (List.length D <= List.length D0 + List.length state)%nat /\
             forall k, In k (id_keys D) ->
                       In k (id_keys D0) \/ exists e, In e state /\ entity_id defs e = Some k).
  { intros H. destruct (Hgen [] H I) as (H1 & H2 & H3). split; [exact H1|].
    split; [exact H2|]. intros k Hk. destruct (H3 k Hk) as [[] | He]. exact He. }
  induction state as [|e state IH]; intros D0 H HD0; cbn [foldM] in H.
  - injection H as <-. split; [exact HD0|]. split; [cbn; lia | auto].
  - inv_bind H as D1 H1. apply tags_by_id_step in H1 as [(i & Hi & Hh) ->].
    assert (Hfst : fst (id_binding defs e) = i) by (unfold id_binding; now rewrite Hi).
    rewrite Hfst in H.
    apply IH in H as (Hd & Hlen & Hkeys); [|now apply id_set_distinct_keys].
    split; [exact Hd|]. split.
    + pose proof (id_set_length D0 i (snd (id_binding defs e))). cbn [List.length]. lia.
    + intros k Hk. destruct (Hkeys k Hk) as [Hk0 | (e0 & He0 & Hid)].
      * apply id_keys_set in Hk0 as [Hk0 | ->]; [now left|].
        right. exists e. split; [now left | exact Hi].
      * right. exists e0. split; [now right | exact Hid].
Qed.

Lemma difference_step_total (D D' : id_dict) (acc : list dict) (k : json) :
  In k (id_keys D') ->
  difference_step defs D D' acc k = Ok acc \/
  exists entry,
    difference_step defs D D' acc k = Ok (acc ++ [entry]) /\
    dict_get entry (py_str (GAME_TAG_ENTITY_ID defs)) = Some k.
Proof.
  intros Hk. apply id_get_key in Hk as [t' Ht']. unfold difference_step, id_subscript.
  rewrite Ht'.
  assert (Hset : forall d : dict,
             dict_get (dict_set d (py_str (GAME_TAG_ENTITY_ID defs)) k)
                      (py_str (GAME_TAG_ENTITY_ID defs)) = Some k)
    by (intros d; now rewrite dict_get_set, String.eqb_refl).
  destruct (id_get D k) as [t|]; cbn [bind].
  - destruct (changed_tags_spec t t') as (diff & -> & _). cbn [bind].
    destruct (Nat.ltb 0 (List.length diff)); [right; eauto | now left].
  - destruct (Nat.ltb 0 (List.length t')); [right; eauto | now left].
Qed.

Lemma difference_loop_total (D D' : id_dict) (ks : list json) :
  (forall k, In k ks -> In k (id_keys D')) ->
  forall acc,
  exists entries ids,
    foldM (difference_step defs D D') ks acc = Ok (acc ++ entries) /\
    sublist ids ks /\
    Forall2 (fun entry i => dict_get entry (py_str (GAME_TAG_ENTITY_ID defs)) = Some i)
            entries ids.
Proof.
  induction ks as [|k ks IH]; intros Hks acc; cbn [foldM].
  - exists [], []. rewrite app_nil_r. repeat split; constructor.
  - destruct (difference_step_total D D' acc k) as [-> | (entry & -> & Hentry)];
      [apply Hks; now left| |]; cbn [bind].
    + destruct (IH (fun k' H' => Hks k' (or_intror H')) acc) as (entries & ids & -> & Hsub & Hids).
      exists entries, ids. split; [reflexivity|]. split; [now constructor | exact Hids].
    + destruct (IH (fun k' H' => Hks k' (or_intror H')) (acc ++ [entry]))
        as (entries & ids & -> & Hsub & Hids).
      exists (entry :: entries), (k :: ids). rewrite <- app_assoc. split; [reflexivity|].
      split; [now constructor | now constructor].
Qed.

Lemma distinct_keys_sublist (ids ks : list json) :
  sublist ids ks -> distinct_keys ks -> distinct_keys ids.
Proof.
  induction 1 as [|k ids ks Hsub IH|k ids ks Hsub IH]; cbn; [auto| |].
  - intros [Hk Hks]. split; [|auto].
    rewrite List.Forall_forall in *. intros k' Hk'. apply Hk.
    apply list_elem_of_In. eapply elem_of_sublist; [|exact Hsub]. now apply list_elem_of_In.
  - intros [_ Hks]. auto.
Qed.

Lemma dict_set_same (d : dict) (k : string) (v : json) :
  dict_get d k = Some v -> dict_set d k v = d.
Proof.
  induction d as [|[k0 v0] d IH]; cbn; [discriminate|].
  destruct (String.eqb k0 k); [now intros [= ->] | intros H; now rewrite IH].
Qed.

Lemma difference_from_empty (D' : id_dict) (todo : game_state) :
  (forall e', In e' todo ->
              has_entity_id defs e' /\
              id_get D' (fst (id_binding defs e')) = Some (snd (id_binding defs e'))) ->
  forall acc,
    foldM (difference_step defs [] D') (map (fun e => fst (id_binding defs e)) todo) acc
    = Ok (acc ++ map (fun e => snd (id_binding defs e)) todo).
Proof.
  induction todo as [|e todo IH]; intros Htodo acc; cbn [map foldM].
  - now rewrite app_nil_r.
  - destruct (Htodo e (or_introl eq_refl)) as [He Hget].
    apply has_entity_id_binding in He as (i & t & Ht & Hi & Hh & _ & Hb).
    rewrite Hb in *. cbn [fst snd] in *.
    unfold difference_step at 1. unfold id_subscript. cbn [id_get]. rewrite Hget.
    cbn [bind].
    assert (Hlen : Nat.ltb 0 (List.length t) = true).
    { destruct t; [discriminate | reflexivity]. }
    rewrite Hlen, (dict_set_same t _ i Hi). cbn [bind].
    rewrite IH by (intros e' H'; apply Htodo; now right).
    now rewrite <- app_assoc.
Qed.

Lemma tags_of_id_distinct (s : game_state) (e : entity) :
  Forall (has_entity_id defs) s -> distinct_ids defs s -> In e s ->
  tags_of_id defs s (fst (id_binding defs e)) = Some (snd (id_binding defs e)).
Proof.
  intros Hs Hdist Hin.
  pose proof (tags_by_id_distinct defs s Hs Hdist) as HD.
  apply tags_by_id_spec in HD as [_ HD].
  rewrite <- HD; [now apply id_get_distinct|].
  rewrite List.Forall_forall in Hs.
  destruct (has_entity_id_binding defs e (Hs e Hin)) as (i & t & _ & _ & Hh & _ & ->).
  exact Hh.
Qed.

End DifferenceFurther.

(** X16. [calculate_difference] returns exactly when every entity of both states
    has a tag dictionary that holds an [ENTITY_ID] fit to be a key. *)
Theorem calculate_difference_returns (defs : definitions) (s s' : game_state) :
  (exists d, calculate_difference defs s s' = Ok d) <->
  Forall (has_entity_id defs) s /\ Forall (has_entity_id defs) s'.
Proof.
  unfold calculate_difference. split.
  - intros [d H]. inv_bind H as D HD. inv_bind H as D' HD'.
    split; apply (tags_by_id_returns defs); eauto.
  - intros [Hs Hs'].
    apply (tags_by_id_returns defs) in Hs as [D ->]. apply (tags_by_id_returns defs) in Hs' as [D' ->].
    cbn [bind].
    destruct (difference_loop_total defs D D' (id_keys D') (fun _ H => H) [])
      as (entries & ids & -> & _). eauto.
Qed.

(** X17. Every entry [calculate_difference] returns holds an [ENTITY_ID]; these
    are [ENTITY_ID]s of entities of the next state, no two of them equal,
    also when entities of the next state share one; there are no more
    entries than entities in the next state. *)
Theorem calculate_difference_ids (defs : definitions) (s s' : game_state)
    (d : list dict) :
  calculate_difference defs s s' = Ok d ->
  (List.length d <= List.length s')%nat /\
  exists ids,
    Forall2 (fun entry i => dict_get entry (py_str (GAME_TAG_ENTITY_ID defs)) = Some i)
            d ids /\
    distinct_keys ids /\
    Forall (fun i => exists e', In e' s' /\ entity_id defs e' = Some i) ids.
Proof.
  unfold calculate_difference. intros H. inv_bind H as D HD. inv_bind H as D' HD'.
  apply tags_by_id_keys in HD' as (Hdist & Hlen & Hkeys).
  destruct (difference_loop_total defs D D' (id_keys D') (fun _ H => H) [])
    as (entries & ids & Hrun & Hsub & Hids).
  rewrite Hrun in H. injection H as <-. cbn [app]. split.
  - apply Forall2_length in Hids. apply sublist_length in Hsub.
    unfold id_keys in Hsub. rewrite length_map in Hsub. lia.
  - exists ids. split; [exact Hids|]. split; [eapply distinct_keys_sublist; eauto|].
    apply List.Forall_forall. intros i Hi. apply Hkeys.
    apply list_elem_of_In. eapply elem_of_sublist; [|exact Hsub]. now apply list_elem_of_In.
Qed.

Lemma calculate_difference_ids_witness :
  calculate_difference sample_defs [sample_minion] sample_shared_id_state
  = Ok sample_shared_id_difference /\
  (List.length sample_shared_id_difference <= List.length sample_shared_id_state)%nat /\
  exists ids,
    Forall2 (fun entry i =>
               dict_get entry (py_str (GAME_TAG_ENTITY_ID sample_defs)) = Some i)
            sample_shared_id_difference ids /\
    distinct_keys ids /\
    Forall (fun i => exists e', In e' sample_shared_id_state /\
                                entity_id sample_defs e' = Some i) ids.
Proof.
  assert (H : calculate_difference sample_defs [sample_minion] sample_shared_id_state
              = Ok sample_shared_id_difference)
    by (vm_compute; reflexivity).
  split; [exact H|].
  exact (calculate_difference_ids sample_defs [sample_minion] sample_shared_id_state
           sample_shared_id_difference H).
Defined.

(** X18. The difference from the empty state is the next state itself: the tag
    dictionaries of its entities, in order. *)
Theorem calculate_difference_from_empty (defs : definitions) (s' : game_state) :
  Forall (has_entity_id defs) s' ->
  distinct_ids defs s' ->
  calculate_difference defs [] s' = Ok (map (fun e' => snd (id_binding defs e')) s').
Proof.
  intros Hs' Hdist. unfold calculate_difference. cbn [tags_by_id foldM bind].
  rewrite (tags_by_id_distinct defs s' Hs' Hdist). cbn [bind].
  unfold id_keys. rewrite map_map.
  rewrite (difference_from_empty defs (map (id_binding defs) s') s'); [reflexivity|].
  intros e' Hin. rewrite List.Forall_forall in Hs'. split; [now apply Hs'|].
  now apply id_get_distinct.
Qed.

Lemma calculate_difference_from_empty_witness :
  Forall (has_entity_id sample_defs) [sample_minion_damaged; sample_deck_card] /\
  distinct_ids sample_defs [sample_minion_damaged; sample_deck_card] /\
  calculate_difference sample_defs [] [sample_minion_damaged; sample_deck_card]
  = Ok (map (fun e' => snd (id_binding sample_defs e'))
            [sample_minion_damaged; sample_deck_card]).
Proof.
  assert (H : Forall (has_entity_id sample_defs) [sample_minion_damaged; sample_deck_card]).
  { repeat (constructor; [eexists; split; reflexivity|]). constructor. }
  assert (Hd : distinct_ids sample_defs [sample_minion_damaged; sample_deck_card]).
  { cbn. repeat split; repeat constructor. }
  split; [exact H|]. split; [exact Hd|].
  exact (calculate_difference_from_empty sample_defs _ H Hd).
Defined.

(** X19. What disappears leaves no trace: when the state has, for every entity
    of the next state, an entity with its [ENTITY_ID] and all its tags at
    the same values, the difference is empty, whatever else the state
    holds. *)
Theorem calculate_difference_removals (defs : definitions) (s s' : game_state) :
  Forall (has_entity_id defs) s -> distinct_ids defs s ->
  Forall (has_entity_id defs) s' -> distinct_ids defs s' ->
  Forall (covered defs s) s' ->
  calculate_difference defs s s' = Ok [].
Proof.
  intros Hs Hdist Hs' Hdist' Hcov. unfold calculate_difference.
  destruct (tags_by_id_total defs s Hs) as [D HD]. rewrite HD. cbn [bind].
  apply tags_by_id_spec in HD as [_ HD].
  rewrite (tags_by_id_distinct defs s' Hs' Hdist'). cbn [bind].
  unfold id_keys. rewrite map_map.
  destruct (difference_fold defs D (map (id_binding defs) s') s HD s' [])
    as (out & -> & Hout).
  { intros e' Hin. rewrite List.Forall_forall in Hs'. split; [now apply Hs'|].
    now apply id_get_distinct. }
  assert (Hnone : List.filter (reported defs s) s' = []).
  { clear Hout. induction Hcov as [|e' l (e & Hin & Hid & Htags) _ IH]; [reflexivity|].
    cbn [List.filter].
    assert (Hrep : reported defs s e' = false).
    { unfold reported.
      assert (Hfst : fst (id_binding defs e') = fst (id_binding defs e))
        by (unfold id_binding; cbn [fst]; now rewrite Hid).
      rewrite Hfst, (tags_of_id_distinct defs s e Hs Hdist Hin).
      apply not_true_is_false. intros Hex.
      apply existsb_exists in Hex as (k & Hk & Hdiff).
      unfold tag_differs in Hdiff.
      destruct (dict_get (snd (id_binding defs e')) k) as [v|] eqn:Hv; [|discriminate].
      rewrite (Htags k v Hv), py_eq_refl in Hdiff. discriminate. }
    rewrite Hrep. apply IH.
    - now apply Forall_cons_iff in Hs' as [_ ?].
    - now destruct Hdist'. }
  rewrite Hnone in Hout. inversion Hout. reflexivity.
Qed.

Lemma calculate_difference_removals_witness :
  Forall (covered sample_defs [sample_minion; sample_deck_card]) [sample_minion_bare] /\
  calculate_difference sample_defs [sample_minion; sample_deck_card] [sample_minion_bare]
  = Ok [].
Proof.
  assert (Hs : Forall (has_entity_id sample_defs) [sample_minion; sample_deck_card]).
  { repeat (constructor; [eexists; split; reflexivity|]). constructor. }
  assert (Hd : distinct_ids sample_defs [sample_minion; sample_deck_card]).
  { cbn. repeat split; repeat constructor. }
  assert (Hs' : Forall (has_entity_id sample_defs) [sample_minion_bare]).
  { repeat (constructor; [eexists; split; reflexivity|]). constructor. }
  assert (Hd' : distinct_ids sample_defs [sample_minion_bare]).
  { cbn. repeat split; repeat constructor. }
  assert (Hc : Forall (covered sample_defs [sample_minion; sample_deck_card])
                      [sample_minion_bare]).
  { constructor; [|constructor]. exists sample_minion.
    split; [now left|]. split; [reflexivity|].
    unfold id_binding, sample_minion_bare, sample_minion.
    cbn [snd tags default from_option id dict_get]. intros k v.
    destruct (String.eqb_spec "53" k) as [<- | ?]; [intros [= <-]; reflexivity|].
    destruct (String.eqb_spec "47" k) as [<- | ?]; [intros [= <-]; reflexivity|].
    intros H; discriminate H. }
  split; [exact Hc|].
  exact (calculate_difference_removals sample_defs _ _ Hs Hd Hs' Hd' Hc).
Defined.

(** ** [preprocess_input]: length, tags and characters *)

Lemma length_append (a b : string) :
  String.length (a ++ b) = (String.length a + String.length b)%nat.
Proof. induction a as [|c a IH]; cbn; [reflexivity | now rewrite IH]. Qed.

Lemma prefix_length (p s : string) :
  String.prefix p s = true -> (String.length p <= String.length s)%nat.
Proof.
  revert s. induction p as [|c p IH]; intros s H; cbn; [lia|].
  destruct s as [|c' s]; cbn in H; [discriminate|].
  destruct (Ascii.ascii_dec c c'); [|discriminate]. apply IH in H. cbn. lia.
Qed.

Lemma replace_from_length (old new s : string) :
  (String.length new <= String.length old)%nat -> (1 <= String.length old)%nat ->
  forall skip,
    (String.length (replace_from old new s skip) <= String.length s - skip)%nat.
Proof.
  intros Hnew Hold. induction s as [|c s IH]; intros skip; [cbn; lia|].
  cbn [replace_from]. destruct skip as [|k].
  - destruct (String.prefix old (String c s)) eqn:Hp.
    + apply prefix_length in Hp. rewrite length_append.
      specialize (IH (String.length old - 1)%nat). cbn [String.length] in *. lia.
    + specialize (IH 0%nat). cbn [String.length]. lia.
  - specialize (IH k). cbn [String.length]. lia.
Qed.

Lemma replace_length (old new s : string) :
  (String.length new <= String.length old)%nat -> (1 <= String.length old)%nat ->
  (String.length (replace old new s) <= String.length s)%nat.
Proof.
  intros Hnew Hold. unfold replace. destruct old as [|c old]; [cbn in Hold; lia|].
  pose proof (replace_from_length (String c old) new s Hnew Hold 0). lia.
Qed.

Lemma fold_replace_length (f : string -> string) (l : list string) :
  Forall (fun x => (1 <= String.length (f x))%nat) l ->
  forall s,
    (String.length (fold_left (fun ret x => replace (f x) "" ret) l s)
     <= String.length s)%nat.
Proof.
  induction 1 as [|x l Hx _ IH]; intros s; cbn [fold_left]; [lia|].
  etransitivity; [apply IH|]. apply replace_length; [cbn; lia | exact Hx].
Qed.

Lemma re_sub_tags_from_length (s : string) :
  forall skip, (String.length (re_sub_tags_from s skip) <= String.length s)%nat.
Proof.
  induction s as [|c s IH]; intros skip; [cbn; lia|].
  cbn [re_sub_tags_from]. destruct skip as [|k].
  - destruct (char_eqb c "<"); [destruct (find_close s) as [n|]|]; cbn [String.length].
    + specialize (IH (S n)). lia.
    + specialize (IH 0%nat). lia.
    + specialize (IH 0%nat). lia.
  - specialize (IH k). cbn [String.length]. lia.
Qed.

Lemma lower_length (s : string) : String.length (lower s) = String.length s.
Proof. induction s as [|c s IH]; cbn; [reflexivity | now rewrite IH]. Qed.

(** X20. [preprocess_input] only removes text or puts one character for one or
    two: what it returns is never longer than what [json.dumps] returned. *)
Theorem preprocess_input_length {A : Type} (json_dumps : A -> string) (item : A) :
  (String.length (preprocess_input json_dumps item) <= String.length (json_dumps item))%nat.
Proof.
  unfold preprocess_input. rewrite lower_length.
  etransitivity; [apply re_sub_tags_from_length|].
  etransitivity; [apply replace_length; cbn; lia|].
  etransitivity; [apply replace_length; cbn; lia|].
  etransitivity; [apply replace_length; cbn; lia|].
  etransitivity;
    [apply (fold_replace_length (fun keyword => (keyword ++ ":")%string)); unfold keywords;
     repeat (constructor; [cbn; lia|]); constructor|].
  apply (fold_replace_length (fun removal => removal)). unfold removals.
  repeat (constructor; [cbn; lia|]). constructor.
Qed.

Lemma find_close_re_sub_tags (s : string) :
  find_close s = None -> find_close (re_sub_tags_from s 0) = None.
Proof.
  induction s as [|c s IH]; [reflexivity|].
  cbn [find_close re_sub_tags_from].
  destruct (char_eqb c ">") eqn:Hgt; [discriminate|].
  destruct (char_eqb c newline) eqn:Hnl.
  - intros _. destruct (char_eqb c "<") eqn:Hlt.
    + apply Ascii.eqb_eq in Hlt, Hnl. subst c. discriminate.
    + cbn [find_close]. now rewrite Hgt, Hnl.
  - intros H. destruct (find_close s) as [n|] eqn:Hs; [discriminate|].
    destruct (char_eqb c "<"); cbn [find_close]; rewrite Hgt, Hnl, IH; reflexivity.
Qed.

Lemma re_sub_tags_from_tagless (s : string) :
  forall skip, tagless (re_sub_tags_from s skip).
Proof.
  induction s as [|c s IH]; intros skip; [exact I|].
  cbn [re_sub_tags_from]. destruct skip as [|k]; [|apply IH].
  destruct (char_eqb c "<") eqn:Hlt.
  - destruct (find_close s) as [n|] eqn:Hs; [apply IH|].
    cbn [tagless]. split; [|apply IH]. intros _. now apply find_close_re_sub_tags.
  - cbn [tagless]. split; [|apply IH]. congruence.
Qed.

Lemma re_sub_tags_tagless (s : string) : tagless s -> re_sub_tags s = s.
Proof.
  unfold re_sub_tags. induction s as [|c s IH]; [reflexivity|].
  cbn [tagless re_sub_tags_from]. intros [Hc Hs].
  destruct (char_eqb c "<"); [rewrite (Hc eq_refl)|]; now rewrite IH.
Qed.

(** [lower] changes capital letters only: it makes and unmakes no [<], [>]
    or newline. *)
Lemma lower_char_eqb (c x : ascii) :
  is_upper x = false -> is_lower x = false ->
  char_eqb (lower_char c) x = char_eqb c x.
Proof.
  intros Hu Hl. unfold char_eqb.
  destruct (lower_char_cases c) as [[Hup Hlow] | [_ ->]]; [|reflexivity].
  destruct (Ascii.eqb_spec (lower_char c) x) as [<- | _]; [congruence|].
  destruct (Ascii.eqb_spec c x) as [<- | _]; [congruence | reflexivity].
Qed.

Lemma find_close_lower (s : string) : find_close (lower s) = find_close s.
Proof.
  induction s as [|c s IH]; [reflexivity|]. cbn [lower find_close].
  rewrite !lower_char_eqb, IH by reflexivity. reflexivity.
Qed.

Lemma lower_tagless (s : string) : tagless s -> tagless (lower s).
Proof.
  induction s as [|c s IH]; [auto|]. cbn [lower tagless]. intros [Hc Hs].
  split; [|auto]. rewrite lower_char_eqb, find_close_lower by reflexivity. exact Hc.
Qed.

(** X21. No tag is left in what [preprocess_input] returns: the substitution
    that removes [<...>] finds nothing more to remove in it. *)
Theorem preprocess_input_no_tag {A : Type} (json_dumps : A -> string) (item : A) :
  re_sub_tags (preprocess_input json_dumps item) = preprocess_input json_dumps item.
Proof.
  apply re_sub_tags_tagless. unfold preprocess_input.
  apply lower_tagless, re_sub_tags_from_tagless.
Qed.

Lemma replace_chars (old new s : string) (c : ascii) :
  In c (chars (replace old new s)) -> In c (chars s) \/ In c (chars new).
Proof.
  unfold replace. destruct old; [apply interleave_chars | apply replace_from_chars].
Qed.

Lemma fold_replace_chars (f : string -> string) (l : list string) (c : ascii) :
  forall s, In c (chars (fold_left (fun ret x => replace (f x) "" ret) l s)) ->
            In c (chars s).
Proof.
  induction l as [|x l IH]; intros s H; cbn [fold_left] in H; [exact H|].
  apply IH, replace_chars in H as [H | []]. exact H.
Qed.

(** X22. [preprocess_input] invents no character: a character of what it
    returns is a space, or a character of what [json.dumps] returned, in
    lower case if it was a capital letter. *)
Theorem preprocess_input_chars {A : Type} (json_dumps : A -> string) (item : A)
    (c : ascii) :
  In c (chars (preprocess_input json_dumps item)) ->
  c = " "%char \/ exists c0, In c0 (chars (json_dumps item)) /\ c = lower_char c0.
Proof.
  unfold preprocess_input. rewrite chars_lower. intros H.
  apply in_map_iff in H as (c0 & <- & H).
  apply re_sub_tags_from_chars in H.
  assert (Hsp : forall x, In x (chars " ") -> lower_char x = " "%char)
    by (intros x [<- | []]; reflexivity).
  apply replace_chars in H as [H | H]; [|left; auto].
  apply replace_chars in H as [H | H]; [|left; auto].
  apply replace_chars in H as [H | H]; [|left; auto].
  apply (fold_replace_chars (fun keyword => (keyword ++ ":")%string)) in H.
  apply (fold_replace_chars (fun removal => removal)) in H.
  right. eauto.
Qed.

Lemma preprocess_input_chars_witness :
  In "y"%char (chars (preprocess_input (fun s : string => s) sample_dumped_card)) /\
  ("y"%char = " "%char \/
   exists c0, In c0 (chars sample_dumped_card) /\ "y"%char = lower_char c0).
Proof.
  assert (H : In "y"%char
                 (chars (preprocess_input (fun s : string => s) sample_dumped_card)))
    by (vm_compute; do 10 right; left; reflexivity).
  split; [exact H|].
  exact (preprocess_input_chars (fun s : string => s) sample_dumped_card "y"%char H).
Defined.

(** ** [check_data], [tokenize_data] and the loaders *)

Lemma foldM_append {A B : Type} (f : A -> res B) (l : list A) :
  forall acc,
    foldM (fun acc x => y <- f x ;; Ok (acc ++ [y])) l acc
    = (ys <- mapM f l ;; Ok (acc ++ ys)).
Proof.
  induction l as [|x l IH]; intros acc; cbn [foldM mapM bind].
  - now rewrite app_nil_r.
  - destruct (f x) as [y|e]; cbn [bind]; [|reflexivity].
    rewrite IH. destruct (mapM f l) as [ys|e]; cbn [bind]; [|reflexivity].
    now rewrite <- app_assoc.
Qed.

Lemma foldM_extend {A B C : Type} (f : A -> res B) (g : B -> res (list C))
    (l : list A) :
  forall acc,
    foldM (fun acc x => y <- f x ;; ys <- g y ;; Ok (acc ++ ys)) l acc
    = (yss <- mapM (fun x => y <- f x ;; g y) l ;; Ok (acc ++ concat yss)).
Proof.
  induction l as [|x l IH]; intros acc; cbn [foldM mapM bind].
  - now rewrite app_nil_r.
  - destruct (f x) as [y|e]; cbn [bind]; [|reflexivity].
    destruct (g y) as [ys|e]; cbn [bind]; [|reflexivity].
    rewrite IH. destruct (mapM _ l) as [yss|e]; cbn [bind concat]; [|reflexivity].
    now rewrite <- app_assoc.
Qed.

Lemma mapM_same_outcome {A B C : Type} (f : A -> res B) (g : A -> res C) (l : list A) :
  (forall x, match f x, g x with
             | Ok _, Ok _ => True
             | Err e, Err e' => e = e'
             | _, _ => False
             end) ->
  match mapM f l, mapM g l with
  | Ok ys, Ok zs => List.length ys = List.length l /\ List.length zs = List.length l
  | Err e, Err e' => e = e'
  | _, _ => False
  end.
Proof.
  intros H. induction l as [|x l IH]; cbn [mapM]; [auto|].
  specialize (H x). destruct (f x) as [y|e], (g x) as [z|e']; cbn [bind]; try easy.
  destruct (mapM f l) as [ys|e], (mapM g l) as [zs|e']; cbn [bind]; try easy.
  cbn [List.length]. destruct IH as [-> ->]. auto.
Qed.

Section LoaderProperties.

Variable defs : definitions.
Variable max_length : nat.
Variable difference : bool.
Variable tokenizer : bool -> nat -> string -> encoding.
Variable dumps_action : game_action -> string.
Variable dumps_state : game_state -> string.
Variable dumps_difference : list dict -> string.

#[local] Abbreviation the_check_item :=
  (check_item defs max_length difference tokenizer dumps_action dumps_state
              dumps_difference).
#[local] Abbreviation the_tokenize_item :=
  (tokenize_item defs max_length difference tokenizer dumps_action dumps_state
                 dumps_difference).
#[local] Abbreviation the_check_data :=
  (check_data defs max_length difference tokenizer dumps_action dumps_state
              dumps_difference).
#[local] Abbreviation the_tokenize_data :=
  (tokenize_data defs max_length difference tokenizer dumps_action dumps_state
                 dumps_difference).

Lemma check_data_mapM (sequence_data : list transition) :
  the_check_data sequence_data = mapM the_check_item sequence_data.
Proof.
  unfold check_data. rewrite foldM_append.
  now destruct (mapM _ sequence_data).
Qed.

Lemma tokenize_data_mapM (sequence_data : list transition) :
  the_tokenize_data sequence_data = mapM the_tokenize_item sequence_data.
Proof.
  unfold tokenize_data. rewrite foldM_append.
  now destruct (mapM _ sequence_data).
Qed.

Lemma check_item_tokenize_item (t : transition) :
  match the_check_item t, the_tokenize_item t with
  | Ok _, Ok _ => True
  | Err e, Err e' => e = e'
  | _, _ => False
  end.
Proof.
  destruct t as [[[[[state action] next_state] reward] option] next_option].
  unfold check_item, tokenize_item.
  destruct (preprocess_state defs state option true) as [stripped|e]; cbn [bind];
    [|reflexivity].
  destruct (next_state_input _ _ _ _ _ _ _ _) as [text|e]; cbn [bind]; easy.
Qed.

Lemma tokenize_item_reward (t : transition) (c : combined_data) :
  the_tokenize_item t = Ok c -> cd_reward c = reward_of t.
Proof.
  destruct t as [[[[[state action] next_state] reward] option] next_option].
  unfold tokenize_item. intros H.
  inv_bind H as stripped Hs. inv_bind H as text Ht. now injection H as <-.
Qed.

Lemma check_item_three (t : transition) (item : list nat) :
  the_check_item t = Ok item -> List.length item = 3%nat.
Proof.
  destruct t as [[[[[state action] next_state] reward] option] next_option].
  unfold check_item. intros H.
  inv_bind H as stripped Hs. inv_bind H as text Ht. now injection H as <-.
Qed.

Lemma tokenize_data_map_reward (sequence_data : list transition)
    (tokenized_data : list combined_data) :
  the_tokenize_data sequence_data = Ok tokenized_data ->
  map cd_reward tokenized_data = map reward_of sequence_data.
Proof.
  rewrite tokenize_data_mapM. intros H. apply mapM_Forall2 in H.
  induction H as [|t c l l' Hc _ IH]; [reflexivity|]. cbn [map].
  now rewrite IH, (tokenize_item_reward _ _ Hc).
Qed.

End LoaderProperties.

(** X23. [check_data] is a faithful dry run of [tokenize_data]: on the same
    transitions, both return, with one item for every transition, or both
    raise, and then the same exception. *)
Theorem check_data_dry_run (defs : definitions) (max_length : nat) (difference : bool)
    (tokenizer : bool -> nat -> string -> encoding)
    (dumps_action : game_action -> string) (dumps_state : game_state -> string)
    (dumps_difference : list dict -> string) (sequence_data : list transition) :
  match check_data defs max_length difference tokenizer dumps_action dumps_state
                   dumps_difference sequence_data,
        tokenize_data defs max_length difference tokenizer dumps_action dumps_state
                      dumps_difference sequence_data
  with
  | Ok data, Ok tokenized_data =>
      List.length data = List.length sequence_data /\
      List.length tokenized_data = List.length sequence_data
  | Err e, Err e' => e = e'
  | _, _ => False
  end.
Proof.
  rewrite check_data_mapM, tokenize_data_mapM.
  apply mapM_same_outcome. apply check_item_tokenize_item.
Qed.

(** X24. [tokenize_data] hands on the rewards as they are: the rewards of the
    items it returns are those of the transitions, in order. *)
Theorem tokenize_data_rewards (defs : definitions) (max_length : nat) (difference : bool)
    (tokenizer : bool -> nat -> string -> encoding)
    (dumps_action : game_action -> string) (dumps_state : game_state -> string)
    (dumps_difference : list dict -> string) (sequence_data : list transition)
    (tokenized_data : list combined_data) :
  tokenize_data defs max_length difference tokenizer dumps_action dumps_state
                dumps_difference sequence_data = Ok tokenized_data ->
  map cd_reward tokenized_data = map reward_of sequence_data.
Proof. apply tokenize_data_map_reward. Qed.

Lemma tokenize_data_rewards_witness :
  tokenize_data sample_defs 4 false sample_tokenizer sample_dumps_action
                sample_dumps_state sample_dumps_difference [sample_empty_transition]
  = Ok sample_tokenized /\
  map cd_reward sample_tokenized = map reward_of [sample_empty_transition].
Proof.
  assert (H : tokenize_data sample_defs 4 false sample_tokenizer sample_dumps_action
                sample_dumps_state sample_dumps_difference [sample_empty_transition]
              = Ok sample_tokenized)
    by (vm_compute; reflexivity).
  split; [exact H|].
  exact (tokenize_data_rewards sample_defs 4 false sample_tokenizer sample_dumps_action
           sample_dumps_state sample_dumps_difference [sample_empty_transition]
           sample_tokenized H).
Defined.

(** X25. The list of rewards of which [get_data_loader] makes its tensor
    holds the rewards [collate_sequence_data] computed, file after file in
    the order of the folder: tokenizing drops, adds and moves none. *)
Theorem get_data_loader_rewards_collated (defs : definitions) (max_length : nat)
    (difference : bool) (tokenizer : bool -> nat -> string -> encoding)
    (dumps_action : game_action -> string) (dumps_state : game_state -> string)
    (dumps_difference : list dict -> string) (files : list trajectory)
    (rewards : list Q) :
  get_data_loader_rewards defs max_length difference tokenizer dumps_action dumps_state
                          dumps_difference files = Ok rewards ->
  exists collated,
    Forall2 (fun json_data sequence_data =>
               collate_sequence_data defs json_data = Ok sequence_data)
            files collated /\
    rewards = concat (map (map reward_of) collated).
Proof.
  unfold get_data_loader_rewards, get_data_loader_data. rewrite foldM_extend.
  intros H. inv_bind H as data Hdata. injection H as <-.
  inv_bind Hdata as yss Hyss. injection Hdata as <-. cbn [app].
  apply mapM_Forall2 in Hyss.
  induction Hyss as [|f ys files yss Hf _ (collated & Hc & Hr)].
  - exists []. split; [constructor | reflexivity].
  - inv_bind Hf as sequence_data Hs.
    exists (sequence_data :: collated). split; [now constructor|].
    cbn [concat map]. rewrite map_app, Hr.
    now rewrite (tokenize_data_map_reward _ _ _ _ _ _ _ _ _ Hf).
Qed.

Lemma get_data_loader_rewards_collated_witness :
  get_data_loader_rewards sample_defs 4 false sample_tokenizer sample_dumps_action
    sample_dumps_state sample_dumps_difference
    [sample_trajectory; sample_trajectory_no_end_turn]
  = Ok [9 # 10; 6561 # 10000; 9 # 10; 81 # 100; 6561 # 10000] /\
  exists collated,
    Forall2 (fun json_data sequence_data =>
               collate_sequence_data sample_defs json_data = Ok sequence_data)
            [sample_trajectory; sample_trajectory_no_end_turn] collated /\
    [9 # 10; 6561 # 10000; 9 # 10; 81 # 100; 6561 # 10000]
    = concat (map (map reward_of) collated).
Proof.
  assert (H : get_data_loader_rewards sample_defs 4 false sample_tokenizer
                sample_dumps_action sample_dumps_state sample_dumps_difference
                [sample_trajectory; sample_trajectory_no_end_turn]
              = Ok [9 # 10; 6561 # 10000; 9 # 10; 81 # 100; 6561 # 10000])
    by (vm_compute; reflexivity).
  split; [exact H|].
  exact (get_data_loader_rewards_collated sample_defs 4 false sample_tokenizer
           sample_dumps_action sample_dumps_state sample_dumps_difference
           [sample_trajectory; sample_trajectory_no_end_turn] _ H).
Defined.

(** X26. [check_data_loader] returns one item of three lengths for every
    transition [collate_sequence_data] made of the files. *)
Theorem check_data_loader_items (defs : definitions) (max_length : nat)
    (difference : bool) (tokenizer : bool -> nat -> string -> encoding)
    (dumps_action : game_action -> string) (dumps_state : game_state -> string)
    (dumps_difference : list dict -> string) (files : list trajectory)
    (data : list (list nat)) :
  check_data_loader defs max_length difference tokenizer dumps_action dumps_state
                    dumps_difference files = Ok data ->
  Forall (fun item => List.length item = 3%nat) data /\
  exists collated,
    Forall2 (fun json_data sequence_data =>
               collate_sequence_data defs json_data = Ok sequence_data)
            files collated /\
    List.length data = List.length (concat collated).
Proof.
  unfold check_data_loader. rewrite foldM_extend.
  intros H. inv_bind H as yss Hyss. injection H as <-. cbn [app].
  apply mapM_Forall2 in Hyss.
  induction Hyss as [|f ys files yss Hf _ (Hthree & collated & Hc & Hlen)].
  - split; [constructor|]. exists []. split; [constructor | reflexivity].
  - inv_bind Hf as sequence_data Hs. rename Hf into Hd.
    rewrite check_data_mapM in Hd. apply mapM_Forall2 in Hd.
    cbn [concat]. split.
    + apply Forall_app. split; [|exact Hthree].
      clear Hs. induction Hd as [|t item l l' Hitem _ IH]; constructor; [|exact IH].
      exact (check_item_three _ _ _ _ _ _ _ _ _ Hitem).
    + exists (sequence_data :: collated). split; [now constructor|].
      cbn [concat]. rewrite !length_app, Hlen.
      now rewrite (Forall2_length _ _ _ Hd).
Qed.

Lemma check_data_loader_items_witness :
  check_data_loader sample_defs 64 false sample_tokenizer sample_dumps_action
    sample_dumps_state sample_dumps_difference
    [sample_trajectory; sample_trajectory_no_end_turn]
  = Ok sample_lengths /\
  Forall (fun item => List.length item = 3%nat) sample_lengths /\
  exists collated,
    Forall2 (fun json_data sequence_data =>
               collate_sequence_data sample_defs json_data = Ok sequence_data)
            [sample_trajectory; sample_trajectory_no_end_turn] collated /\
    List.length sample_lengths = List.length (concat collated).
Proof.
  assert (H : check_data_loader sample_defs 64 false sample_tokenizer sample_dumps_action
                sample_dumps_state sample_dumps_difference
                [sample_trajectory; sample_trajectory_no_end_turn]
              = Ok sample_lengths)
    by (vm_compute; reflexivity).
  split; [exact H|].
  exact (check_data_loader_items sample_defs 64 false sample_tokenizer
           sample_dumps_action sample_dumps_state sample_dumps_difference
           [sample_trajectory; sample_trajectory_no_end_turn] sample_lengths H).
Defined.
